(** * luma-playground: the per-frame transform pipeline of the rendering demos

    The repository holds four near-duplicate demo programs:

    - [MainTetra]  (src/main.ts, first program): a tetrahedron with separate
      position and normal buffers, uniforms [mvpMatrix] and [mvMatrix];
    - [Part001]    (unnamed/part_001): the tetrahedron with one interleaved
      buffer, uniforms [modelViewMatrix] and [projectionMatrix];
    - [Part000]    (unnamed/part_000): the icosphere, built in the constructor;
    - [MainIco]    (src/main.ts, second program): the icosphere, built in
      [onInitialize].

    Each program is embedded as its constructor and its [onRender] callback,
    written in a small state-and-error monad over the objects the program
    shares with its libraries (Matrix4 objects, KeyFrames objects, the
    timeline, the uniform store, the device), as its [onFinalize] callback
    (the resources it releases), and as the [main] functions of its two
    shaders, on the uniform blocks a frame leaves in the uniform store.

    Numbers: a JavaScript [number] is modelled as a real number ([R]), so
    rounding (binary64 arithmetic, and binary32 storage in a Float32Array) is
    not part of the model.  Real arithmetic does not reduce by computation;
    the tactic [run] below evaluates a program on a world and leaves the
    arithmetic as written.

    Libraries: @math.gl/core, @luma.gl/engine and @luma.gl/core are not part
    of the repository.  What the programs use of them is modelled in [MathGL]
    and [Luma], from the spec where it describes them (keyframe tracks,
    channels, the timeline) and with their usual meaning where it only names
    them (vectors and matrices).

    Layout: the programs and the vocabulary of the statements come first
    (modules [JS] to [Geometry]); the facts and the theorems follow. *)

From Stdlib Require Import Reals Lra Lia ZArith List String RNsatz.
From stdpp Require Import base option list gmap strings.

#[local] Open Scope R_scope.

(** ** JavaScript numbers *)

Module JS.

(** [a < b], [a <= b] and [a === b] as the booleans a conditional tests. *)
Definition ltb (a b : R) : bool := if Rlt_dec a b then true else false.
Definition leb (a b : R) : bool := if Rle_dec a b then true else false.
Definition eqb (a b : R) : bool := if Req_dec_T a b then true else false.

(** [Math.floor x]. *)
Definition floor (x : R) : Z := Int_part x.

(** [a % b] on numbers (for [0 <= a], [0 < b], the remainder's sign is not
    an issue). *)
Definition rem (a b : R) : R := a - IZR (floor (a / b)) * b.

(** [new Float32Array(xs)]: the elements in order. *)
Definition Float32Array (xs : list R) : list R := xs.

(** [xs[i]] for a number [i] that is an integer: [undefined] (here [None])
    below 0 and past the end. *)
Definition index {A} (xs : list A) (i : Z) : option A :=
  if (i <? 0)%Z then None else xs !! Z.to_nat i.

End JS.

(** ** The math library (@math.gl/core) *)

Module MathGL.

(** Modelled from the spec: the Vector3 class of the Math3D collaborator
    (@math.gl/core) is not under src/.  The spec names its operations
    (construct, subtract, cross, normalize, transform) and takes them as
    correct; they are given here their usual meaning on three
    components. *)
Record Vector3 := mkVector3 { vx : R; vy : R; vz : R }.

(** [...v]: the components in order. *)
Definition spread (v : Vector3) : list R := [vx v; vy v; vz v].

Definition subtract (a b : Vector3) : Vector3 :=
  mkVector3 (vx a - vx b) (vy a - vy b) (vz a - vz b).

Definition cross (a b : Vector3) : Vector3 :=
  mkVector3 (vy a * vz b - vz a * vy b)
            (vz a * vx b - vx a * vz b)
            (vx a * vy b - vy a * vx b).

Definition lengthSquared (a : Vector3) : R :=
  vx a * vx a + vy a * vy a + vz a * vz a.

Definition magnitude (a : Vector3) : R := sqrt (lengthSquared a).

(** [normalize] divides by the length unless the length is 0. *)
Definition normalize (a : Vector3) : Vector3 :=
  let len := magnitude a in
  if JS.eqb len 0 then a
  else mkVector3 (vx a / len) (vy a / len) (vz a / len).

(** Modelled from the spec: the Matrix4 class of the Math3D collaborator
    (@math.gl/core) is not under src/.  The spec names look-at,
    perspective, rotate and multiply and takes them as correct; they are
    written out here on the sixteen elements in column-major order
    ([e0..e3] is the first column), the layout the shaders read. *)
Record Matrix4 := mkMatrix4 {
  e0 : R; e1 : R; e2 : R; e3 : R;
  e4 : R; e5 : R; e6 : R; e7 : R;
  e8 : R; e9 : R; e10 : R; e11 : R;
  e12 : R; e13 : R; e14 : R; e15 : R
}.

(** [new Matrix4()] is the identity. *)
Definition identity : Matrix4 :=
  mkMatrix4 1 0 0 0  0 1 0 0  0 0 1 0  0 0 0 1.

Definition EPSILON : R := 1 / 1000000.

(** [m.lookAt({eye, center, up})] overwrites [m] with the view matrix of a
    camera at [eye] looking at [center]. *)
Definition lookAt (eye center up : Vector3) : Matrix4 :=
  if JS.ltb (Rabs (vx eye - vx center)) EPSILON
     && JS.ltb (Rabs (vy eye - vy center)) EPSILON
     && JS.ltb (Rabs (vz eye - vz center)) EPSILON
  then identity
  else
    let z := normalize (subtract eye center) in
    let x := normalize (cross up z) in
    let y := normalize (cross z x) in
    mkMatrix4
      (vx x) (vx y) (vx z) 0
      (vy x) (vy y) (vy z) 0
      (vz x) (vz y) (vz z) 0
      (- (vx x * vx eye + vy x * vy eye + vz x * vz eye))
      (- (vx y * vx eye + vy y * vy eye + vz y * vz eye))
      (- (vx z * vx eye + vy z * vy eye + vz z * vz eye))
      1.

(** The defaults of [lookAt]'s [center] and [up]. *)
Definition defaultCenter : Vector3 := mkVector3 0 0 0.
Definition defaultUp : Vector3 := mkVector3 0 1 0.

(** The defaults of [perspective]'s [near] and [far]. *)
Definition defaultNear : R := 1 / 10.
Definition defaultFar : R := 500.

(** [m.perspective({fovy, aspect, near, far})] overwrites all sixteen
    elements of [m]. *)
Definition perspective (fovy aspect near far : R) : Matrix4 :=
  let f := 1 / tan (fovy / 2) in
  let nf := 1 / (near - far) in
  mkMatrix4
    (f / aspect) 0 0 0
    0 f 0 0
    0 0 ((far + near) * nf) (-1)
    0 0 (2 * far * near * nf) 0.

(** [a.multiplyRight(b)] stores [a * b] in [a]. *)
Definition multiplyRight (a b : Matrix4) : Matrix4 :=
  mkMatrix4
    (e0 b * e0 a + e1 b * e4 a + e2 b * e8 a + e3 b * e12 a)
    (e0 b * e1 a + e1 b * e5 a + e2 b * e9 a + e3 b * e13 a)
    (e0 b * e2 a + e1 b * e6 a + e2 b * e10 a + e3 b * e14 a)
    (e0 b * e3 a + e1 b * e7 a + e2 b * e11 a + e3 b * e15 a)
    (e4 b * e0 a + e5 b * e4 a + e6 b * e8 a + e7 b * e12 a)
    (e4 b * e1 a + e5 b * e5 a + e6 b * e9 a + e7 b * e13 a)
    (e4 b * e2 a + e5 b * e6 a + e6 b * e10 a + e7 b * e14 a)
    (e4 b * e3 a + e5 b * e7 a + e6 b * e11 a + e7 b * e15 a)
    (e8 b * e0 a + e9 b * e4 a + e10 b * e8 a + e11 b * e12 a)
    (e8 b * e1 a + e9 b * e5 a + e10 b * e9 a + e11 b * e13 a)
    (e8 b * e2 a + e9 b * e6 a + e10 b * e10 a + e11 b * e14 a)
    (e8 b * e3 a + e9 b * e7 a + e10 b * e11 a + e11 b * e15 a)
    (e12 b * e0 a + e13 b * e4 a + e14 b * e8 a + e15 b * e12 a)
    (e12 b * e1 a + e13 b * e5 a + e14 b * e9 a + e15 b * e13 a)
    (e12 b * e2 a + e13 b * e6 a + e14 b * e10 a + e15 b * e14 a)
    (e12 b * e3 a + e13 b * e7 a + e14 b * e11 a + e15 b * e15 a).

(** [a.rotateX(rad)], [a.rotateY(rad)], [a.rotateZ(rad)]: [a] times the
    rotation about the axis, computed on the two columns it changes. *)
Definition rotateX (a : Matrix4) (rad : R) : Matrix4 :=
  let s := sin rad in
  let c := cos rad in
  mkMatrix4
    (e0 a) (e1 a) (e2 a) (e3 a)
    (e4 a * c + e8 a * s) (e5 a * c + e9 a * s)
    (e6 a * c + e10 a * s) (e7 a * c + e11 a * s)
    (e8 a * c - e4 a * s) (e9 a * c - e5 a * s)
    (e10 a * c - e6 a * s) (e11 a * c - e7 a * s)
    (e12 a) (e13 a) (e14 a) (e15 a).

Definition rotateY (a : Matrix4) (rad : R) : Matrix4 :=
  let s := sin rad in
  let c := cos rad in
  mkMatrix4
    (e0 a * c - e8 a * s) (e1 a * c - e9 a * s)
    (e2 a * c - e10 a * s) (e3 a * c - e11 a * s)
    (e4 a) (e5 a) (e6 a) (e7 a)
    (e0 a * s + e8 a * c) (e1 a * s + e9 a * c)
    (e2 a * s + e10 a * c) (e3 a * s + e11 a * c)
    (e12 a) (e13 a) (e14 a) (e15 a).

Definition rotateZ (a : Matrix4) (rad : R) : Matrix4 :=
  let s := sin rad in
  let c := cos rad in
  mkMatrix4
    (e0 a * c + e4 a * s) (e1 a * c + e5 a * s)
    (e2 a * c + e6 a * s) (e3 a * c + e7 a * s)
    (e4 a * c - e0 a * s) (e5 a * c - e1 a * s)
    (e6 a * c - e2 a * s) (e7 a * c - e3 a * s)
    (e8 a) (e9 a) (e10 a) (e11 a)
    (e12 a) (e13 a) (e14 a) (e15 a).

(** [a.rotateXYZ([rx, ry, rz])] is [a.rotateX(rx).rotateY(ry).rotateZ(rz)]. *)
Definition rotateXYZ (a : Matrix4) (angles : R * R * R) : Matrix4 :=
  let '(rx, ry, rz) := angles in
  rotateZ (rotateY (rotateX a rx) ry) rz.

(** [m.transformAsPoint(v)]: [m] applied to [(v, 1)], divided by the
    resulting [w] (by 1 when [w] is 0). *)
Definition transformAsPoint (m : Matrix4) (v : Vector3) : Vector3 :=
  let w0 := e3 m * vx v + e7 m * vy v + e11 m * vz v + e15 m in
  let w := if JS.eqb w0 0 then 1 else w0 in
  mkVector3
    ((e0 m * vx v + e4 m * vy v + e8 m * vz v + e12 m) / w)
    ((e1 m * vx v + e5 m * vy v + e9 m * vz v + e13 m) / w)
    ((e2 m * vx v + e6 m * vy v + e10 m * vz v + e14 m) / w).

(** *** The mathematical reading of the same operations

    Element [(row r, column c)] of a matrix is the array element [4c + r]. *)
Definition elem (m : Matrix4) (i : nat) : R :=
  match i with
  | 0%nat => e0 m | 1%nat => e1 m | 2%nat => e2 m | 3%nat => e3 m
  | 4%nat => e4 m | 5%nat => e5 m | 6%nat => e6 m | 7%nat => e7 m
  | 8%nat => e8 m | 9%nat => e9 m | 10%nat => e10 m | 11%nat => e11 m
  | 12%nat => e12 m | 13%nat => e13 m | 14%nat => e14 m | _ => e15 m
  end.

Definition entry (m : Matrix4) (r c : nat) : R := elem m (4 * c + r).

Definition tabulate (f : nat -> nat -> R) : Matrix4 :=
  (mkMatrix4 (f 0 0) (f 1 0) (f 2 0) (f 3 0)
             (f 0 1) (f 1 1) (f 2 1) (f 3 1)
             (f 0 2) (f 1 2) (f 2 2) (f 3 2)
             (f 0 3) (f 1 3) (f 2 3) (f 3 3))%nat.

(** The matrix product: row times column. *)
Definition mmul (a b : Matrix4) : Matrix4 :=
  tabulate (fun r c =>
    entry a r 0%nat * entry b 0%nat c + entry a r 1%nat * entry b 1%nat c
    + entry a r 2%nat * entry b 2%nat c + entry a r 3%nat * entry b 3%nat c).

(** The rotations about the three axes, as matrices. *)
Definition Rx (t : R) : Matrix4 :=
  mkMatrix4 1 0 0 0
            0 (cos t) (sin t) 0
            0 (- sin t) (cos t) 0
            0 0 0 1.

Definition Ry (t : R) : Matrix4 :=
  mkMatrix4 (cos t) 0 (- sin t) 0
            0 1 0 0
            (sin t) 0 (cos t) 0
            0 0 0 1.

Definition Rz (t : R) : Matrix4 :=
  mkMatrix4 (cos t) (sin t) 0 0
            (- sin t) (cos t) 0 0
            0 0 1 0
            0 0 0 1.

End MathGL.

(** ** The engine (@luma.gl/engine, @luma.gl/core) *)

Module Luma.
Import MathGL.

(** *** Keyframe tracks *)

(** Modelled from the spec: the KeyFrames class (the spec's KeyframeTrack,
    section 4.1) is not under src/.  A track holds its keyframes
    [(time, value)], at least one, and the query time its channel last
    gave it; [getStartData], [getEndData] and [factor] (the spec's
    startValue, endValue and factor) are the bracketing values and the
    interpolation factor at that time. *)
Record KeyFrames := mkKeyFrames {
  kf_first : R * R;
  kf_rest : list (R * R);
  kf_time : R
}.

(** Constructing a track with zero keyframes fails (ConfigurationError). *)
Definition makeKeyFrames (data : list (R * R)) : option KeyFrames :=
  match data with
  | [] => None
  | k :: rest => Some (mkKeyFrames k rest 0)
  end.

Definition keyframesOf (k : KeyFrames) : list (R * R) :=
  kf_first k :: kf_rest k.

Definition firstKeyframeTime (k : KeyFrames) : R := fst (kf_first k).

Definition lastKeyframeTime (k : KeyFrames) : R :=
  fst (List.last (kf_rest k) (kf_first k)).

(** The query time clamped into the track's range. *)
Definition clampTime (k : KeyFrames) (q : R) : R :=
  Rmax (firstKeyframeTime k) (Rmin q (lastKeyframeTime k)).

(** The two keyframes that bracket [q]: the first pair whose end lies
    after [q], the last pair when there is none, the single keyframe twice
    for a one-keyframe track. *)
Fixpoint bracket (k0 : R * R) (rest : list (R * R)) (q : R)
  : (R * R) * (R * R) :=
  match rest with
  | [] => (k0, k0)
  | k1 :: rest' =>
      match rest' with
      | [] => (k0, k1)
      | _ :: _ => if JS.ltb q (fst k1) then (k0, k1) else bracket k1 rest' q
      end
  end.

Definition bracketAt (k : KeyFrames) (q : R) : (R * R) * (R * R) :=
  bracket (kf_first k) (kf_rest k) (clampTime k q).

(** [f = (q - t0) / (t1 - t0)], and 0 when [t1 = t0]. *)
Definition factorAt (k : KeyFrames) (q : R) : R :=
  let '((t0, _), (t1, _)) := bracketAt k q in
  if JS.eqb t1 t0 then 0 else (clampTime k q - t0) / (t1 - t0).

(** [evaluate(q) = v0 + f * (v1 - v0)]. *)
Definition evaluate (k : KeyFrames) (q : R) : R :=
  let '((_, v0), (_, v1)) := bracketAt k q in
  v0 + factorAt k q * (v1 - v0).

Definition getStartData (k : KeyFrames) : R := snd (fst (bracketAt k (kf_time k))).
Definition getEndData (k : KeyFrames) : R := snd (snd (bracketAt k (kf_time k))).
Definition factor (k : KeyFrames) : R := factorAt k (kf_time k).

Definition setTime (q : R) (k : KeyFrames) : KeyFrames :=
  mkKeyFrames (kf_first k) (kf_rest k) q.

(** *** Channels *)

Inductive Repeat := Times (n : nat) | Infinite.

(** Modelled from the spec: a timeline channel (section 4.2) is an object
    of the Timeline class, which is not under src/.  [elapsedMs] is the
    time the channel has been advanced by.  Section 4.2 has the rate
    applied when the time is added; section 8 fixes what is observed (a
    channel is back at phase 0 once advanced by its duration, and a channel
    of rate 0.7 and duration 2000 / 0.7 is at phase 0.7 once advanced by
    2000), which is also what the engine does: the position in the cycle is
    taken on the time itself, and the rate scales the time the channel
    hands to its tracks.  The model follows section 8. *)
Record Channel := mkChannel {
  durationMs : R;
  repeatCount : Repeat;
  rate : R;
  elapsedMs : R
}.

Definition completedCycles (c : Channel) : Z :=
  JS.floor (elapsedMs c / durationMs c).

Definition cyclePosition (c : Channel) : R :=
  JS.rem (elapsedMs c) (durationMs c).

Definition finished (c : Channel) : bool :=
  match repeatCount c with
  | Infinite => false
  | Times n => (Z.of_nat n <=? completedCycles c)%Z
  end.

(** The time a channel gives its tracks: the position in the current
    cycle scaled by the rate, in milliseconds, and the end of the cycle
    once finished. *)
Definition channelTime (c : Channel) : R :=
  if finished c then durationMs c * rate c else cyclePosition c * rate c.

(** [advance(deltaMs)] adds [deltaMs]; a finished channel stays. *)
Definition advanceChannel (deltaMs : R) (c : Channel) : Channel :=
  if finished c then c
  else mkChannel (durationMs c) (repeatCount c) (rate c)
                 (elapsedMs c + deltaMs).

(** The options of [addChannel]; [rate] defaults to 1. *)
Record ChannelOptions := mkChannelOptions {
  opt_rate : option R;
  opt_duration : R;
  opt_repeat : Repeat
}.

(** *** The timeline *)

(** Modelled from the spec: the Timeline class (section 4.3) is not under
    src/.  It owns its channels in creation order, and the attachments of
    tracks (references to KeyFrames objects) to channel handles. *)
Record Timeline := mkTimeline {
  channels : list Channel;
  animations : list (nat * nat);
  playing : bool
}.

Definition emptyTimeline : Timeline := mkTimeline [] [] false.

(** *** The device, the uniform store and the model *)

Inductive CullMode := cull_none | cull_front | cull_back.

Inductive CompareFunction :=
  cmp_never | cmp_less | cmp_equal | cmp_less_equal
| cmp_greater | cmp_not_equal | cmp_greater_equal | cmp_always.

Record Parameters := mkParameters {
  cullMode : CullMode;
  depthWriteEnabled : bool;
  depthCompare : CompareFunction
}.

Inductive Topology := triangle_list.

Inductive VertexFormat := float32x3.

Definition byteLength (f : VertexFormat) : nat :=
  match f with float32x3 => 12 end.

Record AttributeLayout := mkAttributeLayout {
  attribute : string;
  format : VertexFormat;
  byteOffset : nat
}.

(** An entry of [bufferLayout]: one attribute per buffer, tightly packed,
    or several attributes interleaved in one buffer with a byte stride. *)
Inductive BufferLayout :=
| PackedLayout (name : string) (fmt : VertexFormat)
| InterleavedLayout (name : string) (byteStride : nat)
                    (attributes : list AttributeLayout).

Record Model := mkModel {
  topology : Topology;
  vertexCount : nat;
  bufferLayout : list BufferLayout;
  attributes : list (string * nat);
  bindings : list string;
  parameters : Parameters
}.

(** What the program asks of the device, in order. *)
Inductive Command :=
| BeginRenderPass (clearColor : list R)
| Draw (m : Model)
| EndRenderPass.

(** The objects a program shares with the engine.  Matrix4, KeyFrames and
    Timeline objects are mutable and held by reference (an index into the
    list of the objects of that class, in creation order); the uniform
    store keeps the values it was last given, per block. *)
Record World := mkWorld {
  matrices : list Matrix4;
  tracks : list KeyFrames;
  timelines : list Timeline;
  loopTimeline : option nat;
  appUniforms : gmap string Matrix4;
  lightingUniforms : gmap string Vector3;
  buffers : list (list R);
  commands : list Command
}.

Definition emptyWorld : World :=
  mkWorld [] [] [] None ∅ ∅ [] [].

(** *** The monad of the programs: a state, and failure for an exception *)

Definition M (A : Type) : Type := World -> option (A * World).

#[global] Instance M_ret : MRet M := fun A (a : A) w => Some (a, w).

#[global] Instance M_bind : MBind M := fun A B (f : A -> M B) (m : M A) w =>
  match m w with
  | Some (a, w') => f a w'
  | None => None
  end.

Definition throw {A} : M A := fun _ => None.

Definition liftOption {A} (o : option A) : M A :=
  fun w => match o with Some a => Some (a, w) | None => None end.

Definition get : M World := fun w => Some (w, w).

Definition put (w : World) : M unit := fun _ => Some (tt, w).

Definition setMatrices (ms : list Matrix4) : M unit :=
  w ← get;
  put (mkWorld ms (tracks w) (timelines w) (loopTimeline w)
               (appUniforms w) (lightingUniforms w) (buffers w) (commands w)).

Definition setTracks (ts : list KeyFrames) : M unit :=
  w ← get;
  put (mkWorld (matrices w) ts (timelines w) (loopTimeline w)
               (appUniforms w) (lightingUniforms w) (buffers w) (commands w)).

Definition setTimelines (ts : list Timeline) : M unit :=
  w ← get;
  put (mkWorld (matrices w) (tracks w) ts (loopTimeline w)
               (appUniforms w) (lightingUniforms w) (buffers w) (commands w)).

Definition setLoopTimeline (t : option nat) : M unit :=
  w ← get;
  put (mkWorld (matrices w) (tracks w) (timelines w) t
               (appUniforms w) (lightingUniforms w) (buffers w) (commands w)).

Definition setAppUniforms (u : gmap string Matrix4) : M unit :=
  w ← get;
  put (mkWorld (matrices w) (tracks w) (timelines w) (loopTimeline w)
               u (lightingUniforms w) (buffers w) (commands w)).

Definition setLightingUniforms (u : gmap string Vector3) : M unit :=
  w ← get;
  put (mkWorld (matrices w) (tracks w) (timelines w) (loopTimeline w)
               (appUniforms w) u (buffers w) (commands w)).

Definition setBuffers (bs : list (list R)) : M unit :=
  w ← get;
  put (mkWorld (matrices w) (tracks w) (timelines w) (loopTimeline w)
               (appUniforms w) (lightingUniforms w) bs (commands w)).

Definition setCommands (cs : list Command) : M unit :=
  w ← get;
  put (mkWorld (matrices w) (tracks w) (timelines w) (loopTimeline w)
               (appUniforms w) (lightingUniforms w) (buffers w) cs).

(** *** Matrix4 objects

    Modelled from the spec: the methods of Matrix4 (@math.gl/core, not
    under src/) on objects, from the functions above.  Every method that changes a matrix changes the object it is called on
    and returns it, as in the library; [new Matrix4(other)] makes a new
    object with the elements of [other]. *)

Definition Matrix4_new (m : Matrix4) : M nat :=
  w ← get;
  _ ← setMatrices (matrices w ++ [m]);
  mret (length (matrices w)).

Definition Matrix4_read (r : nat) : M Matrix4 :=
  w ← get;
  liftOption (matrices w !! r).

Definition Matrix4_update (r : nat) (f : Matrix4 -> Matrix4) : M nat :=
  m ← Matrix4_read r;
  w ← get;
  _ ← setMatrices (<[r := f m]> (matrices w));
  mret r.

Definition Matrix4_copy (other : nat) : M nat :=
  m ← Matrix4_read other;
  Matrix4_new m.

Definition Matrix4_lookAt (r : nat) (eye : Vector3) : M nat :=
  Matrix4_update r (fun _ => lookAt eye defaultCenter defaultUp).

Definition Matrix4_perspective (r : nat) (fovy aspect : R) : M nat :=
  Matrix4_update r (fun _ => perspective fovy aspect defaultNear defaultFar).

Definition Matrix4_multiplyRight (r other : nat) : M nat :=
  b ← Matrix4_read other;
  Matrix4_update r (fun a => multiplyRight a b).

Definition Matrix4_rotateXYZ (r : nat) (angles : R * R * R) : M nat :=
  Matrix4_update r (fun a => rotateXYZ a angles).

Definition Matrix4_rotateY (r : nat) (rad : R) : M nat :=
  Matrix4_update r (fun a => rotateY a rad).

Definition Matrix4_transformAsPoint (r : nat) (v : Vector3) : M Vector3 :=
  m ← Matrix4_read r;
  mret (transformAsPoint m v).

(** *** KeyFrames objects

    Modelled from the spec: the constructor and the accessors of KeyFrames
    (@luma.gl/engine, not under src/), on objects held by reference. *)

Definition KeyFrames_new (data : list (R * R)) : M nat :=
  k ← liftOption (makeKeyFrames data);
  w ← get;
  _ ← setTracks (tracks w ++ [k]);
  mret (length (tracks w)).

Definition KeyFrames_read (r : nat) : M KeyFrames :=
  w ← get;
  liftOption (tracks w !! r).

Definition KeyFrames_setTime (r : nat) (q : R) : M unit :=
  k ← KeyFrames_read r;
  w ← get;
  setTracks (<[r := setTime q k]> (tracks w)).

Definition KeyFrames_getStartData (r : nat) : M R :=
  k ← KeyFrames_read r; mret (getStartData k).

Definition KeyFrames_getEndData (r : nat) : M R :=
  k ← KeyFrames_read r; mret (getEndData k).

Definition KeyFrames_factor (r : nat) : M R :=
  k ← KeyFrames_read r; mret (factor k).

(** *** Timeline objects

    Modelled from the spec: the methods of Timeline (section 4.3) and the
    timeline of the animation loop (@luma.gl/engine, not under src/). *)

Definition Timeline_new : M nat :=
  w ← get;
  _ ← setTimelines (timelines w ++ [emptyTimeline]);
  mret (length (timelines w)).

Definition Timeline_read (r : nat) : M Timeline :=
  w ← get;
  liftOption (timelines w !! r).

Definition Timeline_write (r : nat) (t : Timeline) : M unit :=
  w ← get;
  setTimelines (<[r := t]> (timelines w)).

(** [addChannel(options)]: a duration or a rate that is not positive is a
    ConfigurationError.  The handle is the channel's position. *)
Definition Timeline_addChannel (r : nat) (o : ChannelOptions) : M nat :=
  t ← Timeline_read r;
  let rate := default 1 (opt_rate o) in
  if JS.ltb 0 (opt_duration o) && JS.ltb 0 rate then
    _ ← Timeline_write r
          (mkTimeline
             (channels t ++ [mkChannel (opt_duration o) (opt_repeat o) rate 0])
             (animations t) (playing t));
    mret (length (channels t))
  else throw.

(** [attachAnimation(track, channel)]: the track sees the channel's time
    from now on. *)
Definition Timeline_attachAnimation (r track channel : nat) : M nat :=
  t ← Timeline_read r;
  c ← liftOption (channels t !! channel);
  _ ← KeyFrames_setTime track (channelTime c);
  _ ← Timeline_write r
        (mkTimeline (channels t) (animations t ++ [(track, channel)])
                    (playing t));
  mret (length (animations t)).

Definition Timeline_play (r : nat) : M unit :=
  t ← Timeline_read r;
  Timeline_write r (mkTimeline (channels t) (animations t) true).

Definition Timeline_pause (r : nat) : M unit :=
  t ← Timeline_read r;
  Timeline_write r (mkTimeline (channels t) (animations t) false).

(** Every attached track is given the time of its channel. *)
Fixpoint syncTracks (cs : list Channel) (atts : list (nat * nat)) : M unit :=
  match atts with
  | [] => mret tt
  | (track, channel) :: rest =>
      c ← liftOption (cs !! channel);
      _ ← KeyFrames_setTime track (channelTime c);
      syncTracks cs rest
  end.

(** [advance(deltaMs)]: nothing when paused; otherwise every channel
    advances, in creation order, and the tracks follow. *)
Definition Timeline_advance (r : nat) (deltaMs : R) : M unit :=
  t ← Timeline_read r;
  if playing t then
    let cs := advanceChannel deltaMs <$> channels t in
    _ ← Timeline_write r (mkTimeline cs (animations t) (playing t));
    syncTracks cs (animations t)
  else mret tt.

(** [animationLoop.attachTimeline(timeline)] returns the timeline. *)
Definition AnimationLoop_attachTimeline (timeline : nat) : M nat :=
  _ ← setLoopTimeline (Some timeline);
  mret timeline.

(** Between two frames the animation loop advances its timeline by the
    time that passed. *)
Definition AnimationLoop_tick (deltaMs : R) : M unit :=
  w ← get;
  match loopTimeline w with
  | Some timeline => Timeline_advance timeline deltaMs
  | None => mret tt
  end.

(** *** The uniform store and the device

    Modelled from the spec: UniformStore, Device, Model and RenderPass
    (@luma.gl/core and @luma.gl/engine, the spec's GraphicsBackend of
    section 6) are not under src/; [setUniforms], [createBuffer],
    [beginRenderPass], [draw] and [end] are recorded as what they are
    asked to do. *)

(** The values of the matrices at the time of the call, by key. *)
Fixpoint readUniforms (kvs : list (string * nat)) : M (list (string * Matrix4)) :=
  match kvs with
  | [] => mret []
  | (key, r) :: rest =>
      m ← Matrix4_read r;
      vs ← readUniforms rest;
      mret ((key, m) :: vs)
  end.

(** [uniformStore.setUniforms({app: {...}, lighting: {...}})]: the keys
    given are set, the others keep their values. *)
Definition UniformStore_setUniforms
    (app : list (string * nat)) (lighting : list (string * Vector3)) : M unit :=
  vs ← readUniforms app;
  w ← get;
  _ ← setAppUniforms (list_to_map vs ∪ appUniforms w);
  setLightingUniforms (list_to_map lighting ∪ lightingUniforms w).

Definition Device_createBuffer (data : list R) : M nat :=
  w ← get;
  _ ← setBuffers (buffers w ++ [data]);
  mret (length (buffers w)).

Definition emit (c : Command) : M unit :=
  w ← get;
  setCommands (commands w ++ [c]).

Definition Device_beginRenderPass (clearColor : list R) : M unit :=
  emit (BeginRenderPass clearColor).

Definition Model_draw (m : Model) : M unit := emit (Draw m).

Definition RenderPass_end : M unit := emit EndRenderPass.

End Luma.

(** ** src/main.ts, first program: the tetrahedron with an MVP matrix *)

Module MainTetra.
Import MathGL Luma.

Definition eyePosition : Vector3 := mkVector3 0 0 4.
Definition lightPosition : Vector3 := mkVector3 (-2) 2 4.

(** The fields of [MyAnimationLoopTemplate] (the uniform store is the one
    of the world). *)
Record App := mkApp {
  mvpMatrix : nat;
  viewMatrix : nat;
  positionBuffer : nat;
  vertexNormalBuffer : nat;
  model : Model;
  keyFramesX : nat;
  keyFramesY : nat
}.

Definition v1 : Vector3 := mkVector3 0 0 0.
Definition v2 : Vector3 := mkVector3 1 0 0.
Definition v3 : Vector3 := mkVector3 0 1 0.
Definition v4 : Vector3 := mkVector3 0 0 1.

(** [new Vector3(p2).subtract(p1)] and [new Vector3(p3).subtract(p2)] work
    on copies, so [p1], [p2] and [p3] keep their values. *)
Definition surfaceNormal (p1 p2 p3 : Vector3) : Vector3 :=
  let u := subtract p2 p1 in
  let v := subtract p3 p2 in
  normalize (cross u v).

Definition fn1 : Vector3 := surfaceNormal v1 v3 v2.
Definition fn2 : Vector3 := surfaceNormal v1 v4 v3.
Definition fn3 : Vector3 := surfaceNormal v1 v2 v4.
Definition fn4 : Vector3 := surfaceNormal v2 v3 v4.

Definition positionData : list R :=
  JS.Float32Array
    (spread v1 ++ spread v3 ++ spread v2 ++
     spread v1 ++ spread v4 ++ spread v3 ++
     spread v1 ++ spread v2 ++ spread v4 ++
     spread v2 ++ spread v3 ++ spread v4).

Definition vertexNormalData : list R :=
  JS.Float32Array
    (spread fn1 ++ spread fn1 ++ spread fn1 ++
     spread fn2 ++ spread fn2 ++ spread fn2 ++
     spread fn3 ++ spread fn3 ++ spread fn3 ++
     spread fn4 ++ spread fn4 ++ spread fn4).

Definition modelParameters : Parameters :=
  mkParameters cull_back true cmp_less_equal.

Definition keyFrameData : list (R * R) := [(0, 0); (2000, 2 * PI)].

(** [{ duration: 2000, repeat: Infinity }]. *)
Definition channelXOptions : ChannelOptions :=
  mkChannelOptions None 2000 Infinite.

(** [{ rate: 0.7, duration: 2000 / 0.7, repeat: Infinity }]; 0.7 is
    written [7 / 10]. *)
Definition channelYOptions : ChannelOptions :=
  mkChannelOptions (Some (7 / 10)) (2000 / (7 / 10)) Infinite.

(** The field initialisers, then the constructor's body. *)
Definition construct : M App :=
  mvpMatrix ← Matrix4_new identity;
  viewMatrix ← (m ← Matrix4_new identity; Matrix4_lookAt m eyePosition);
  positionBuffer ← Device_createBuffer positionData;
  vertexNormalBuffer ← Device_createBuffer vertexNormalData;
  let model :=
    mkModel triangle_list (4 * 3)
      [PackedLayout "position" float32x3;
       PackedLayout "vertexNormal" float32x3]
      [("position", positionBuffer); ("vertexNormal", vertexNormalBuffer)]
      ["app"; "lighting"]
      modelParameters in
  light ← Matrix4_transformAsPoint viewMatrix lightPosition;
  _ ← UniformStore_setUniforms [] [("lightPosition", light)];
  timeline ← Timeline_new;
  keyFramesX ← KeyFrames_new keyFrameData;
  keyFramesY ← KeyFrames_new keyFrameData;
  channelX ← Timeline_addChannel timeline channelXOptions;
  channelY ← Timeline_addChannel timeline channelYOptions;
  _ ← Timeline_attachAnimation timeline keyFramesX channelX;
  _ ← Timeline_attachAnimation timeline keyFramesY channelY;
  _ ← AnimationLoop_attachTimeline timeline;
  _ ← Timeline_play timeline;
  mret (mkApp mvpMatrix viewMatrix positionBuffer vertexNormalBuffer model
              keyFramesX keyFramesY).

(** The first six lines of [onRender]: the two angles. *)
Definition rotations (this : App) : M (R * R) :=
  startRotationX ← KeyFrames_getStartData (keyFramesX this);
  endRotationX ← KeyFrames_getEndData (keyFramesX this);
  factorX ← KeyFrames_factor (keyFramesX this);
  let rotationX := startRotationX + factorX * (endRotationX - startRotationX) in
  startRotationY ← KeyFrames_getStartData (keyFramesY this);
  endRotationY ← KeyFrames_getEndData (keyFramesY this);
  factorY ← KeyFrames_factor (keyFramesY this);
  let rotationY := startRotationY + factorY * (endRotationY - startRotationX) in
  mret (rotationX, rotationY).

(** The rest of [onRender]. *)
Definition onRender (this : App) (aspect : R) : M unit :=
  '(rotationX, rotationY) ← rotations this;
  mvMatrix ← (m ← Matrix4_copy (viewMatrix this);
              Matrix4_rotateXYZ m (rotationX, rotationY, 0));
  _ ← (m ← Matrix4_perspective (mvpMatrix this) (PI / 3) aspect;
       Matrix4_multiplyRight m mvMatrix);
  _ ← UniformStore_setUniforms
        [("mvpMatrix", mvpMatrix this); ("mvMatrix", mvMatrix)] [];
  _ ← Device_beginRenderPass [1; 1; 1; 1];
  _ ← Model_draw (model this);
  RenderPass_end.

(** The states the program goes through: constructed, then any number of
    timeline advances and frames. *)
Inductive Reachable : App -> World -> Prop :=
| reach_construct this w :
    construct emptyWorld = Some (this, w) -> Reachable this w
| reach_tick this w deltaMs w' :
    Reachable this w ->
    AnimationLoop_tick deltaMs w = Some (tt, w') -> Reachable this w'
| reach_frame this w aspect w' :
    Reachable this w ->
    onRender this aspect w = Some (tt, w') -> Reachable this w'.

End MainTetra.

(** ** unnamed/part_001: the tetrahedron with one interleaved buffer *)

Module Part001.
Import MathGL Luma.

Definition eyePosition : Vector3 := mkVector3 0 0 4.
Definition lightPosition : Vector3 := mkVector3 (-2) 2 4.

Record App := mkApp {
  viewMatrix : nat;
  projectionMatrix : nat;
  vertexDataBuffer : nat;
  model : Model;
  keyFramesX : nat;
  keyFramesY : nat
}.

Definition v1 : Vector3 := mkVector3 0 0 0.
Definition v2 : Vector3 := mkVector3 1 0 0.
Definition v3 : Vector3 := mkVector3 0 1 0.
Definition v4 : Vector3 := mkVector3 0 0 1.

Definition calculateSurfaceNormal (p1 p2 p3 : Vector3) : Vector3 :=
  let u := subtract p2 p1 in
  let v := subtract p3 p2 in
  normalize (cross u v).

Definition fn1 : Vector3 := calculateSurfaceNormal v1 v3 v2.
Definition fn2 : Vector3 := calculateSurfaceNormal v1 v4 v3.
Definition fn3 : Vector3 := calculateSurfaceNormal v1 v2 v4.
Definition fn4 : Vector3 := calculateSurfaceNormal v2 v3 v4.

Definition vertexData : list R :=
  JS.Float32Array
    (spread v1 ++ spread fn1 ++ spread v3 ++ spread fn1 ++ spread v2 ++ spread fn1 ++
     spread v1 ++ spread fn2 ++ spread v4 ++ spread fn2 ++ spread v3 ++ spread fn2 ++
     spread v1 ++ spread fn3 ++ spread v2 ++ spread fn3 ++ spread v4 ++ spread fn3 ++
     spread v2 ++ spread fn4 ++ spread v3 ++ spread fn4 ++ spread v4 ++ spread fn4).

Definition modelParameters : Parameters :=
  mkParameters cull_back true cmp_less_equal.

Definition keyFrameData : list (R * R) := [(0, 0); (2000, 2 * PI)].

(** [{ duration: 2000, repeat: Infinity }]. *)
Definition channelXOptions : ChannelOptions :=
  mkChannelOptions None 2000 Infinite.

(** [{ rate: 0.7, duration: 2000 / 0.7, repeat: Infinity }]; 0.7 is
    written [7 / 10]. *)
Definition channelYOptions : ChannelOptions :=
  mkChannelOptions (Some (7 / 10)) (2000 / (7 / 10)) Infinite.

Definition construct : M App :=
  viewMatrix ← (m ← Matrix4_new identity; Matrix4_lookAt m eyePosition);
  projectionMatrix ← Matrix4_new identity;
  vertexDataBuffer ← Device_createBuffer vertexData;
  let model :=
    mkModel triangle_list (4 * 3)
      [InterleavedLayout "vertexData" 24
         [mkAttributeLayout "position" float32x3 0;
          mkAttributeLayout "normal" float32x3 12]]
      [("vertexData", vertexDataBuffer)]
      ["app"; "lighting"]
      modelParameters in
  light ← Matrix4_transformAsPoint viewMatrix lightPosition;
  _ ← UniformStore_setUniforms [] [("lightPosition", light)];
  timeline ← Timeline_new;
  keyFramesX ← KeyFrames_new keyFrameData;
  keyFramesY ← KeyFrames_new keyFrameData;
  channelX ← Timeline_addChannel timeline channelXOptions;
  channelY ← Timeline_addChannel timeline channelYOptions;
  _ ← Timeline_attachAnimation timeline keyFramesX channelX;
  _ ← Timeline_attachAnimation timeline keyFramesY channelY;
  _ ← AnimationLoop_attachTimeline timeline;
  _ ← Timeline_play timeline;
  mret (mkApp viewMatrix projectionMatrix vertexDataBuffer model
              keyFramesX keyFramesY).

(** The first six lines of [onRender]: the two angles. *)
Definition rotations (this : App) : M (R * R) :=
  startRotationX ← KeyFrames_getStartData (keyFramesX this);
  endRotationX ← KeyFrames_getEndData (keyFramesX this);
  factorX ← KeyFrames_factor (keyFramesX this);
  let rotationX := startRotationX + factorX * (endRotationX - startRotationX) in
  startRotationY ← KeyFrames_getStartData (keyFramesY this);
  endRotationY ← KeyFrames_getEndData (keyFramesY this);
  factorY ← KeyFrames_factor (keyFramesY this);
  let rotationY := startRotationY + factorY * (endRotationY - startRotationX) in
  mret (rotationX, rotationY).

(** The rest of [onRender]. *)
Definition onRender (this : App) (aspect : R) : M unit :=
  '(rotationX, rotationY) ← rotations this;
  modelViewMatrix ← (m ← Matrix4_copy (viewMatrix this);
                     Matrix4_rotateXYZ m (rotationX, rotationY, 0));
  _ ← Matrix4_perspective (projectionMatrix this) (PI / 3) aspect;
  _ ← UniformStore_setUniforms
        [("modelViewMatrix", modelViewMatrix);
         ("projectionMatrix", projectionMatrix this)] [];
  _ ← Device_beginRenderPass [1; 1; 1; 1];
  _ ← Model_draw (model this);
  RenderPass_end.

Inductive Reachable : App -> World -> Prop :=
| reach_construct this w :
    construct emptyWorld = Some (this, w) -> Reachable this w
| reach_tick this w deltaMs w' :
    Reachable this w ->
    AnimationLoop_tick deltaMs w = Some (tt, w') -> Reachable this w'
| reach_frame this w aspect w' :
    Reachable this w ->
    onRender this aspect w = Some (tt, w') -> Reachable this w'.

End Part001.

(** ** The icosphere mesh (./icoSphereFlat) *)

Module IcoSphereFlat.

(** Modelled from the spec: the module ./icoSphereFlat that both icosphere
    programs import is not under src/.  It is the spec's MeshSource: vertex
    positions and normals, and one entry [[i, j]] per vertex to draw, with
    the 1-based indices of its position and of its normal.  The programs
    below take the mesh as a parameter. *)
Record Mesh := mkMesh {
  vertices : list (list R);
  normals : list (list R);
  faces : list (Z * Z)
}.

(** What the spec asks of a MeshSource: three floats per position and per
    normal, and indices that name one of them. *)
Definition wellFormed (mesh : Mesh) : Prop :=
  Forall (fun v => length v = 3%nat) (vertices mesh) /\
  Forall (fun n => length n = 3%nat) (normals mesh) /\
  Forall (fun ij => (1 <= fst ij <= Z.of_nat (length (vertices mesh)))%Z /\
                    (1 <= snd ij <= Z.of_nat (length (normals mesh)))%Z)
         (faces mesh).

End IcoSphereFlat.

(** ** unnamed/part_000: the icosphere, built in the constructor *)

Module Part000.
Import MathGL Luma IcoSphereFlat.

Definition eyePosition : Vector3 := mkVector3 0 1 4.
Definition lightPosition : Vector3 := mkVector3 (-2) 3 4.

Record ModelNode := mkModelNode {
  node_model : Model;
  managedResources : list nat
}.

Record App := mkApp {
  viewMatrix : nat;
  projectionMatrix : nat;
  modelNode : ModelNode;
  rotationKeyFrames : nat
}.

Definition modelParameters : Parameters :=
  mkParameters cull_back true cmp_less_equal.

Definition rotationKeyFrameData : list (R * R) := [(0, 0); (5000, 2 * PI)].

Definition rotationChannelOptions : ChannelOptions :=
  mkChannelOptions None 5000 Infinite.

Section WithMesh.
Variable icoSphereFlat : Mesh.

(** [mesh.faces.flatMap(([i, j]) => [...mesh.vertices[i - 1],
    ...mesh.normals[j - 1]])]: spreading [undefined] throws. *)
Definition vertexData : option (list R) :=
  let mesh := icoSphereFlat in
  JS.Float32Array <$>
    (@concat R <$>
       mapM (fun '(i, j) =>
               v ← JS.index (vertices mesh) (i - 1);
               n ← JS.index (normals mesh) (j - 1);
               Some (v ++ n))
            (faces mesh)).

Definition construct : M App :=
  viewMatrix ← (m ← Matrix4_new identity; Matrix4_lookAt m eyePosition);
  projectionMatrix ← Matrix4_new identity;
  light ← Matrix4_transformAsPoint viewMatrix lightPosition;
  _ ← UniformStore_setUniforms [] [("lightPosition", light)];
  let mesh := icoSphereFlat in
  vertexData ← liftOption vertexData;
  vertexDataBuffer ← Device_createBuffer vertexData;
  let model :=
    mkModel triangle_list (length (faces mesh))
      [InterleavedLayout "vertexData" 24
         [mkAttributeLayout "position" float32x3 0;
          mkAttributeLayout "normal" float32x3 12]]
      [("vertexData", vertexDataBuffer)]
      ["app"; "lighting"]
      modelParameters in
  let modelNode := mkModelNode model [vertexDataBuffer] in
  timeline ← Timeline_new;
  rotationKeyFrames ← KeyFrames_new rotationKeyFrameData;
  rotationChannel ← Timeline_addChannel timeline rotationChannelOptions;
  _ ← Timeline_attachAnimation timeline rotationKeyFrames rotationChannel;
  _ ← (t ← AnimationLoop_attachTimeline timeline; Timeline_play t);
  mret (mkApp viewMatrix projectionMatrix modelNode rotationKeyFrames).

End WithMesh.

(** The first three lines of [onRender]: the angle. *)
Definition rotationOf (this : App) : M R :=
  startRotation ← KeyFrames_getStartData (rotationKeyFrames this);
  endRotation ← KeyFrames_getEndData (rotationKeyFrames this);
  factor ← KeyFrames_factor (rotationKeyFrames this);
  mret (startRotation + factor * (endRotation - startRotation)).

Definition ModelNode_draw (n : ModelNode) : M unit :=
  Model_draw (node_model n).

Definition onRender (this : App) (aspect : R) : M unit :=
  rotation ← rotationOf this;
  modelViewMatrix ← (m ← Matrix4_copy (viewMatrix this);
                     Matrix4_rotateY m rotation);
  _ ← Matrix4_perspective (projectionMatrix this) (PI / 3) aspect;
  _ ← UniformStore_setUniforms
        [("modelViewMatrix", modelViewMatrix);
         ("projectionMatrix", projectionMatrix this)] [];
  _ ← Device_beginRenderPass [1; 1; 1; 1];
  _ ← ModelNode_draw (modelNode this);
  RenderPass_end.

Inductive Reachable (mesh : Mesh) : App -> World -> Prop :=
| reach_construct this w :
    construct mesh emptyWorld = Some (this, w) -> Reachable mesh this w
| reach_tick this w deltaMs w' :
    Reachable mesh this w ->
    AnimationLoop_tick deltaMs w = Some (tt, w') -> Reachable mesh this w'
| reach_frame this w aspect w' :
    Reachable mesh this w ->
    onRender this aspect w = Some (tt, w') -> Reachable mesh this w'.

End Part000.

(** ** src/main.ts, second program: the icosphere, built in [onInitialize] *)

Module MainIco.
Import MathGL Luma IcoSphereFlat.

Definition eyePosition : Vector3 := mkVector3 0 1 4.
Definition lightPosition : Vector3 := mkVector3 (-2) 3 4.

Record ModelNode := mkModelNode {
  node_model : Model;
  managedResources : list nat
}.

(** [modelNode] is optional: it is set by [onInitialize]. *)
Record App := mkApp {
  viewMatrix : nat;
  projectionMatrix : nat;
  modelNode : option ModelNode;
  rotationKeyFrames : nat
}.

(** What [new GPUGeometry({...})] holds; the model takes it over. *)
Record GPUGeometry := mkGPUGeometry {
  g_topology : Topology;
  g_vertexCount : nat;
  g_bufferLayout : list BufferLayout;
  g_attributes : list (string * nat)
}.

Definition modelParameters : Parameters :=
  mkParameters cull_back true cmp_less_equal.

Definition rotationKeyFrameData : list (R * R) := [(0, 0); (5000, 2 * PI)].

Definition rotationChannelOptions : ChannelOptions :=
  mkChannelOptions None 5000 Infinite.

Definition construct : M App :=
  viewMatrix ← (m ← Matrix4_new identity; Matrix4_lookAt m eyePosition);
  projectionMatrix ← Matrix4_new identity;
  light ← Matrix4_transformAsPoint viewMatrix lightPosition;
  _ ← UniformStore_setUniforms [] [("lightPosition", light)];
  timeline ← Timeline_new;
  rotationKeyFrames ← KeyFrames_new rotationKeyFrameData;
  rotationChannel ← Timeline_addChannel timeline rotationChannelOptions;
  _ ← Timeline_attachAnimation timeline rotationKeyFrames rotationChannel;
  _ ← (t ← AnimationLoop_attachTimeline timeline; Timeline_play t);
  mret (mkApp viewMatrix projectionMatrix None rotationKeyFrames).

Section WithMesh.
Variable icoSphereFlat : Mesh.

Definition vertexData : option (list R) :=
  let mesh := icoSphereFlat in
  JS.Float32Array <$>
    (@concat R <$>
       mapM (fun '(i, j) =>
               v ← JS.index (vertices mesh) (i - 1);
               n ← JS.index (normals mesh) (j - 1);
               Some (v ++ n))
            (faces mesh)).

(** [onInitialize] sets [this.modelNode]; it returns the object with the
    field set. *)
Definition onInitialize (this : App) : M App :=
  let mesh := icoSphereFlat in
  vertexData ← liftOption vertexData;
  vertexDataBuffer ← Device_createBuffer vertexData;
  let geometry :=
    mkGPUGeometry triangle_list (length (faces mesh))
      [InterleavedLayout "vertexData" 24
         [mkAttributeLayout "position" float32x3 0;
          mkAttributeLayout "normal" float32x3 12]]
      [("vertexData", vertexDataBuffer)] in
  let model :=
    mkModel (g_topology geometry) (g_vertexCount geometry)
            (g_bufferLayout geometry) (g_attributes geometry)
            ["app"; "lighting"] modelParameters in
  mret (mkApp (viewMatrix this) (projectionMatrix this)
              (Some (mkModelNode model [vertexDataBuffer]))
              (rotationKeyFrames this)).

End WithMesh.

(** The first three lines of [onRender]: the angle. *)
Definition rotationOf (this : App) : M R :=
  startRotation ← KeyFrames_getStartData (rotationKeyFrames this);
  endRotation ← KeyFrames_getEndData (rotationKeyFrames this);
  factor ← KeyFrames_factor (rotationKeyFrames this);
  mret (startRotation + factor * (endRotation - startRotation)).

(** [this.modelNode?.draw(renderPass)]: nothing when there is no node. *)
Definition ModelNode_draw (n : option ModelNode) : M unit :=
  match n with
  | Some node => Model_draw (node_model node)
  | None => mret tt
  end.

Definition onRender (this : App) (aspect : R) : M unit :=
  rotation ← rotationOf this;
  modelViewMatrix ← (m ← Matrix4_copy (viewMatrix this);
                     Matrix4_rotateY m rotation);
  _ ← Matrix4_perspective (projectionMatrix this) (PI / 3) aspect;
  _ ← UniformStore_setUniforms
        [("modelViewMatrix", modelViewMatrix);
         ("projectionMatrix", projectionMatrix this)] [];
  _ ← Device_beginRenderPass [1; 1; 1; 1];
  _ ← ModelNode_draw (modelNode this);
  RenderPass_end.

(** The animation loop constructs the template and awaits [onInitialize]
    before the first frame. *)
Inductive Reachable (mesh : Mesh) : App -> World -> Prop :=
| reach_initialize this0 w0 this w :
    construct emptyWorld = Some (this0, w0) ->
    onInitialize mesh this0 w0 = Some (this, w) ->
    Reachable mesh this w
| reach_tick this w deltaMs w' :
    Reachable mesh this w ->
    AnimationLoop_tick deltaMs w = Some (tt, w') -> Reachable mesh this w'
| reach_frame this w aspect w' :
    Reachable mesh this w ->
    onRender this aspect w = Some (tt, w') -> Reachable mesh this w'.

End MainIco.

(** ** Observations on a world *)

Module Observe.
Import MathGL Luma.

(** What the vertex stage reads for vertex [i] of an attribute of format
    float32x3: the three floats at byte [byteStride * i + byteOffset] of
    the buffer (four bytes per float). *)
Definition fetch (data : list R) (byteStride byteOffset i : nat)
  : option Vector3 :=
  let o := ((byteStride * i + byteOffset) / 4)%nat in
  x ← data !! o;
  y ← data !! (o + 1)%nat;
  z ← data !! (o + 2)%nat;
  Some (mkVector3 x y z).

(** The read of attribute [a] for vertex [i] ends within [byteSize]. *)
Definition readInBounds (byteStride : nat) (a : AttributeLayout)
    (i byteSize : nat) : Prop :=
  (byteStride * i + byteOffset a + byteLength (format a) <= byteSize)%nat.

Definition isDraw (c : Command) : bool :=
  match c with Draw _ => true | _ => false end.

(** The number of draw calls among the commands. *)
Definition drawCalls (cs : list Command) : nat :=
  length (List.filter isDraw cs).

(** Every buffer the model's attributes name is a buffer of the device. *)
Definition buffersBound (m : Model) (w : World) : Prop :=
  forall name b, In (name, b) (attributes m) -> is_Some (buffers w !! b).

(** What a track reports: start value, end value and factor. *)
Definition reading (k : KeyFrames) : R * R * R :=
  (getStartData k, getEndData k, factor k).

(** The interpolation formula on a track's own accessors. *)
Definition interpolated (k : KeyFrames) : R :=
  getStartData k + factor k * (getEndData k - getStartData k).

(** Track [k] is attached to channel [c] of the loop's timeline. *)
Definition attached (w : World) (k : KeyFrames) (c : Channel) : Prop :=
  exists tl t track ch,
    loopTimeline w = Some tl /\ timelines w !! tl = Some t /\
    In (track, ch) (animations t) /\
    tracks w !! track = Some k /\ channels t !! ch = Some c.

(** Every attached track runs from value 0 at time 0 to value [2π] at the
    time [endTime] of its channel: these are its first and its last
    keyframe, and its values at the two times. *)
Definition cycleIsFullTurn (endTime : Channel -> R) (w : World) : Prop :=
  forall k c, attached w k c ->
    kf_first k = (0, 0) /\
    List.last (kf_rest k) (kf_first k) = (endTime c, 2 * PI) /\
    evaluate k 0 = 0 /\
    evaluate k (endTime c) = 2 * PI.

(** The phase of a channel (section 4.2): its position in the current
    cycle as a fraction of the cycle. *)
Definition phase (c : Channel) : R := cyclePosition c / durationMs c.

(** Track [k], attached to channel [c] of the loop's timeline in [w], makes
    one full turn per cycle of the channel.  The channel repeats for ever;
    the track has the keyframes [(0, 0)] and [(duration * rate, 2π)] and is
    at the time of the channel; the phase of the channel is in [0, 1) and
    the track's angle is [2π] times the phase; advancing the channel by its
    duration leaves the phase as it was; and advancing the loop's timeline
    by [deltaMs] advances the channel by [deltaMs] and sets the track to
    the channel's time. *)
Definition turnsOncePerCycle (w : World) (k : KeyFrames) (c : Channel) : Prop :=
  attached w k c /\
  repeatCount c = Infinite /\
  keyframesOf k = [(0, 0); (durationMs c * rate c, 2 * PI)] /\
  kf_time k = channelTime c /\
  0 <= phase c < 1 /\
  interpolated k = 2 * PI * phase c /\
  phase (advanceChannel (durationMs c) c) = phase c /\
  forall deltaMs, exists w',
    AnimationLoop_tick deltaMs w = Some (tt, w') /\
    attached w' (setTime (channelTime (advanceChannel deltaMs c)) k)
                (advanceChannel deltaMs c).

(** From [w] to [w'] the matrix object [view], the lighting block, the
    tracks and the timeline are the same. *)
Definition sameScene (view : nat) (w w' : World) : Prop :=
  matrices w' !! view = matrices w !! view /\
  lightingUniforms w' = lightingUniforms w /\
  tracks w' = tracks w /\
  timelines w' = timelines w /\
  loopTimeline w' = loopTimeline w.

(** No key of the app block other than the two given. *)
Definition onlyKeys (k1 k2 : string) (u : gmap string Matrix4) : Prop :=
  forall k, k <> k1 -> k <> k2 -> u !! k = None.

End Observe.

(** ** The worlds each program goes through, in closed form

    After construction a program's world differs from frame to frame only in
    the elements of its projection (or MVP) matrix, the matrices allocated
    by earlier frames, the times of its tracks and channels, the app block
    of the uniform store and the commands issued so far. *)

Module TetraShape.
Import MathGL Luma MainTetra.

Definition view : Matrix4 := lookAt eyePosition defaultCenter defaultUp.

Definition light : Vector3 := transformAsPoint view lightPosition.

Definition theModel : Model :=
  mkModel triangle_list 12
    [PackedLayout "position" float32x3;
     PackedLayout "vertexNormal" float32x3]
    [("position", 0%nat); ("vertexNormal", 1%nat)]
    ["app"; "lighting"] modelParameters.

Definition theApp : App := mkApp 0 1 0 1 theModel 0 1.

Definition trackAt (q : R) : KeyFrames :=
  mkKeyFrames (0, 0) [(2000, 2 * PI)] q.

Definition channelX (e : R) : Channel := mkChannel 2000 Infinite 1 e.

Definition channelY (e : R) : Channel :=
  mkChannel (2000 / (7 / 10)) Infinite (7 / 10) e.

Definition shape (P : Matrix4) (rest : list Matrix4) (tX tY eX eY : R)
    (au : gmap string Matrix4) (cs : list Command) : World :=
  mkWorld (P :: view :: rest) [trackAt tX; trackAt tY]
    [mkTimeline [channelX eX; channelY eY] [(0, 0); (1, 1)]%nat true]
    (Some 0%nat) au {[ "lightPosition" := light ]}
    [positionData; vertexNormalData] cs.

Definition Inv (this : App) (w : World) : Prop :=
  this = theApp /\
  exists P rest tX tY eX eY au cs,
    w = shape P rest tX tY eX eY au cs /\
    Observe.onlyKeys "mvpMatrix" "mvMatrix" au.

(** The angles [onRender] computes from tracks at times [tX] and [tY]. *)
Definition angleX (tX : R) : R :=
  getStartData (trackAt tX)
  + factor (trackAt tX) * (getEndData (trackAt tX) - getStartData (trackAt tX)).

Definition angleY (tX tY : R) : R :=
  getStartData (trackAt tY)
  + factor (trackAt tY) * (getEndData (trackAt tY) - getStartData (trackAt tX)).

(** A world the program does not reach with the keyframes it ships: the
    tracks as they are with the keyframe [[1000, 0.5 * Math.PI]] (the line
    commented out in [keyFrameData]) in place, 1200 ms into the run, so
    that the X track is at 1200 and the Y track (rate 0.7) at 840. *)
Definition threeKeyFrames (q : R) : KeyFrames :=
  mkKeyFrames (0, 0) [(1000, (1 / 2) * PI); (2000, 2 * PI)] q.

Definition threeKeyWorld : World :=
  mkWorld [identity; view] [threeKeyFrames 1200; threeKeyFrames 840]
    [mkTimeline [channelX 1200; channelY 1200] [(0, 0); (1, 1)]%nat true]
    (Some 0%nat) ∅ {[ "lightPosition" := light ]}
    [positionData; vertexNormalData] [].

End TetraShape.

Module Part001Shape.
Import MathGL Luma Part001.

Definition view : Matrix4 := lookAt eyePosition defaultCenter defaultUp.

Definition light : Vector3 := transformAsPoint view lightPosition.

Definition theModel : Model :=
  mkModel triangle_list 12
    [InterleavedLayout "vertexData" 24
       [mkAttributeLayout "position" float32x3 0;
        mkAttributeLayout "normal" float32x3 12]]
    [("vertexData", 0%nat)]
    ["app"; "lighting"] modelParameters.

Definition theApp : App := mkApp 0 1 0 theModel 0 1.

Definition trackAt (q : R) : KeyFrames :=
  mkKeyFrames (0, 0) [(2000, 2 * PI)] q.

Definition channelX (e : R) : Channel := mkChannel 2000 Infinite 1 e.

Definition channelY (e : R) : Channel :=
  mkChannel (2000 / (7 / 10)) Infinite (7 / 10) e.

Definition shape (P : Matrix4) (rest : list Matrix4) (tX tY eX eY : R)
    (au : gmap string Matrix4) (cs : list Command) : World :=
  mkWorld (view :: P :: rest) [trackAt tX; trackAt tY]
    [mkTimeline [channelX eX; channelY eY] [(0, 0); (1, 1)]%nat true]
    (Some 0%nat) au {[ "lightPosition" := light ]}
    [vertexData] cs.

Definition Inv (this : App) (w : World) : Prop :=
  this = theApp /\
  exists P rest tX tY eX eY au cs,
    w = shape P rest tX tY eX eY au cs /\
    Observe.onlyKeys "modelViewMatrix" "projectionMatrix" au.

Definition angleX (tX : R) : R :=
  getStartData (trackAt tX)
  + factor (trackAt tX) * (getEndData (trackAt tX) - getStartData (trackAt tX)).

Definition angleY (tX tY : R) : R :=
  getStartData (trackAt tY)
  + factor (trackAt tY) * (getEndData (trackAt tY) - getStartData (trackAt tX)).

Definition threeKeyFrames (q : R) : KeyFrames :=
  mkKeyFrames (0, 0) [(1000, (1 / 2) * PI); (2000, 2 * PI)] q.

Definition threeKeyWorld : World :=
  mkWorld [view; identity] [threeKeyFrames 1200; threeKeyFrames 840]
    [mkTimeline [channelX 1200; channelY 1200] [(0, 0); (1, 1)]%nat true]
    (Some 0%nat) ∅ {[ "lightPosition" := light ]}
    [vertexData] [].

End Part001Shape.

Module IcoShape.
Import MathGL Luma IcoSphereFlat.

Definition view : Matrix4 :=
  lookAt Part000.eyePosition defaultCenter defaultUp.

Definition light : Vector3 := transformAsPoint view Part000.lightPosition.

Definition theModel (mesh : Mesh) : Model :=
  mkModel triangle_list (length (faces mesh))
    [InterleavedLayout "vertexData" 24
       [mkAttributeLayout "position" float32x3 0;
        mkAttributeLayout "normal" float32x3 12]]
    [("vertexData", 0%nat)]
    ["app"; "lighting"] Part000.modelParameters.

Definition trackAt (q : R) : KeyFrames :=
  mkKeyFrames (0, 0) [(5000, 2 * PI)] q.

Definition rotationChannel (e : R) : Channel := mkChannel 5000 Infinite 1 e.

(** Both icosphere programs go through the same worlds; [data] is the
    content of the vertex buffer. *)
Definition shape (data : list R) (P : Matrix4) (rest : list Matrix4)
    (t e : R) (au : gmap string Matrix4) (cs : list Command) : World :=
  mkWorld (view :: P :: rest) [trackAt t]
    [mkTimeline [rotationChannel e] [(0, 0)]%nat true]
    (Some 0%nat) au {[ "lightPosition" := light ]}
    [data] cs.

Definition angle (t : R) : R :=
  getStartData (trackAt t)
  + factor (trackAt t) * (getEndData (trackAt t) - getStartData (trackAt t)).

(** The app objects of the two programs. *)
Definition app000 (mesh : Mesh) : Part000.App :=
  Part000.mkApp 0 1 (Part000.mkModelNode (theModel mesh) [0%nat]) 0.

Definition appIco (mesh : Mesh) : MainIco.App :=
  MainIco.mkApp 0 1 (Some (MainIco.mkModelNode (theModel mesh) [0%nat])) 0.

Definition Inv000 (mesh : Mesh) (this : Part000.App) (w : World) : Prop :=
  this = app000 mesh /\
  exists data P rest t e au cs,
    Part000.vertexData mesh = Some data /\
    w = shape data P rest t e au cs /\
    Observe.onlyKeys "modelViewMatrix" "projectionMatrix" au.

Definition InvIco (mesh : Mesh) (this : MainIco.App) (w : World) : Prop :=
  this = appIco mesh /\
  exists data P rest t e au cs,
    MainIco.vertexData mesh = Some data /\
    w = shape data P rest t e au cs /\
    Observe.onlyKeys "modelViewMatrix" "projectionMatrix" au.

(** The second program of src/main.ts between its constructor and its
    [onInitialize]: no buffer and no model node yet. *)
Definition constructedIco : MainIco.App := MainIco.mkApp 0 1 None 0.

Definition uninitialized (P : Matrix4) (rest : list Matrix4)
    (t e : R) (au : gmap string Matrix4) (cs : list Command) : World :=
  mkWorld (view :: P :: rest) [trackAt t]
    [mkTimeline [rotationChannel e] [(0, 0)]%nat true]
    (Some 0%nat) au {[ "lightPosition" := light ]}
    [] cs.

(** The floats one entry [[i, j]] of [faces] contributes. *)
Definition corner (mesh : Mesh) (ij : Z * Z) : option (list R) :=
  let '(i, j) := ij in
  v ← JS.index (vertices mesh) (i - 1);
  n ← JS.index (normals mesh) (j - 1);
  Some (v ++ n).

(** A mesh to run the programs on: one triangle with one normal. *)
Definition oneTriangle : Mesh :=
  mkMesh [[0; 0; 0]; [1; 0; 0]; [0; 1; 0]] [[0; 0; 1]]
         [(1, 1); (2, 1); (3, 1)]%Z.

End IcoShape.

(** ** The shading language of the programs' shaders (GLSL ES 3.00) *)

Module GLSL.
Import MathGL.

(** A [vec3] is a [Vector3] and a [mat4] a [Matrix4], column-major as the
    uniform buffer holds it; a [vec4] has the components [x], [y], [z] and
    [w]. *)
Record vec4 := mkVec4 { cx : R; cy : R; cz : R; cw : R }.

(** The constructors [vec4(v, w)], [vec3(v)] of a [vec4] (its first three
    components) and [vec3(s)] of a float (three times [s]). *)
Definition vec4_of (v : Vector3) (w : R) : vec4 :=
  mkVec4 (vx v) (vy v) (vz v) w.

Definition vec3_of (v : vec4) : Vector3 :=
  mkVector3 (cx v) (cy v) (cz v).

Definition vec3_splat (s : R) : Vector3 := mkVector3 s s s.

(** [m * v] for a [mat4] and a [vec4]. *)
Definition mul (m : Matrix4) (v : vec4) : vec4 :=
  mkVec4 (e0 m * cx v + e4 m * cy v + e8 m * cz v + e12 m * cw v)
         (e1 m * cx v + e5 m * cy v + e9 m * cz v + e13 m * cw v)
         (e2 m * cx v + e6 m * cy v + e10 m * cz v + e14 m * cw v)
         (e3 m * cx v + e7 m * cy v + e11 m * cz v + e15 m * cw v).

(** [a * b] on two [vec3] is componentwise. *)
Definition times (a b : Vector3) : Vector3 :=
  mkVector3 (vx a * vx b) (vy a * vy b) (vz a * vz b).

Definition dot (a b : Vector3) : R :=
  vx a * vx b + vy a * vy b + vz a * vz b.

Definition length (v : Vector3) : R := sqrt (dot v v).

(** [normalize(v)] is [v / length(v)]; the language leaves the result
    undefined for a vector of length 0, and the statements on a colour
    below ask for vectors that are not null wherever the shader
    normalizes. *)
Definition normalize (v : Vector3) : Vector3 :=
  mkVector3 (vx v / length v) (vy v / length v) (vz v / length v).

(** [clamp(x, minVal, maxVal)] is [min(max(x, minVal), maxVal)]. *)
Definition clamp (x minVal maxVal : R) : R := Rmin (Rmax x minVal) maxVal.

(** What a vertex shader of the programs writes: its two [out] variables
    and [gl_Position]. *)
Record VertexOutput := mkVertexOutput {
  vVertex : Vector3;
  vNormal : Vector3;
  gl_Position : vec4
}.

End GLSL.

(** ** src/main.ts, first program: the shaders and [onFinalize] *)

Module MainTetraShaders.
Import MathGL.

(** The block [appUniforms] of [vs] and the block [lightingUniforms] of
    [fs]. *)
Record AppBlock := mkAppBlock {
  modelViewProjectionMatrix : Matrix4;
  modelViewMatrix : Matrix4
}.

Record LightingBlock := mkLightingBlock { lightPosition : Vector3 }.

(** [main] of [vs]. *)
Definition vs (app : AppBlock) (position vertexNormal : Vector3)
  : GLSL.VertexOutput :=
  let vVertex :=
    GLSL.vec3_of (GLSL.mul (modelViewMatrix app) (GLSL.vec4_of position 1)) in
  let vNormal :=
    GLSL.vec3_of (GLSL.mul (modelViewMatrix app) (GLSL.vec4_of vertexNormal 0)) in
  let gl_Position :=
    GLSL.mul (modelViewProjectionMatrix app) (GLSL.vec4_of position 1) in
  GLSL.mkVertexOutput vVertex vNormal gl_Position.

(** [main] of [fs]; the result is [fragColor]. *)
Definition fs (lighting : LightingBlock) (vVertex vNormal : Vector3)
  : GLSL.vec4 :=
  let toLight := GLSL.normalize (subtract (lightPosition lighting) vVertex) in
  let cosAngle := GLSL.dot (GLSL.normalize vNormal) toLight in
  let cosAngle := GLSL.clamp cosAngle 0 1 in
  GLSL.vec4_of (GLSL.vec3_splat cosAngle) 1.

(** The keys of [app.uniformTypes] and of [lighting.uniformTypes], in
    order, with their types. *)
Definition app_uniformTypes : list (string * string) :=
  [("mvpMatrix", "mat4x4<f32>"); ("mvMatrix", "mat4x4<f32>")].

Definition lighting_uniformTypes : list (string * string) :=
  [("lightPosition", "vec3<f32>")].

(** Modelled from the spec: the uniform store (the spec's uniform storage
    of the GraphicsBackend, section 6) is code of @luma.gl/core.  It lays
    the uniforms of a block out in the order of [uniformTypes], and a
    shader reads the members of its block in the order it declares them,
    so the first member is the first uniform whatever the two are called:
    here [modelViewProjectionMatrix] is [mvpMatrix] and [modelViewMatrix]
    is [mvMatrix].  A block is read once all its uniforms have a value. *)
Definition appBlock (w : Luma.World) : option AppBlock :=
  mvp ← Luma.appUniforms w !! "mvpMatrix";
  mv ← Luma.appUniforms w !! "mvMatrix";
  Some (mkAppBlock mvp mv).

Definition lightingBlock (w : Luma.World) : option LightingBlock :=
  l ← Luma.lightingUniforms w !! "lightPosition";
  Some (mkLightingBlock l).

(** The colour the two stages give at a vertex with the attributes
    [position] and [vertexNormal], with the uniforms of the world [w]. *)
Definition shade (w : Luma.World) (position vertexNormal : Vector3)
  : option GLSL.vec4 :=
  app ← appBlock w;
  lighting ← lightingBlock w;
  let out := vs app position vertexNormal in
  Some (fs lighting (GLSL.vVertex out) (GLSL.vNormal out)).

End MainTetraShaders.

(** ** Releasing the resources of the device *)

Module Release.

(** Modelled from the spec: [destroy] of Buffer, GPUGeometry, Model,
    ModelNode and UniformStore (the spec's destroyBuffer and
    destroyUniformStorage of the GraphicsBackend, section 6) is code of
    @luma.gl/core and @luma.gl/engine; section 6 names the operations and
    the engine fixes who releases what.  A call is recorded as the
    resources it releases, in order, whether or not they were released
    before.  [ReleasedModel] stands for the model and what it created
    itself.  A model given its buffers by the [attributes] option does not
    release them; a model constructed from a geometry keeps the geometry
    and destroys it with itself, and a geometry destroys the buffers of its
    attributes.  A model node releases its model and then its managed
    resources. *)
Inductive Released :=
| ReleasedBuffer (b : nat)
| ReleasedModel (m : Luma.Model)
| ReleasedUniformStore.

Definition Buffer_destroy (b : nat) : list Released := [ReleasedBuffer b].

(** [attributes]: the buffers of the geometry's attributes, by name. *)
Definition GPUGeometry_destroy (attributes : list (string * nat))
  : list Released :=
  attributes ≫= (fun a => Buffer_destroy (snd a)).

(** [gpuGeometry]: the attributes of the geometry the model was constructed
    from, if it was constructed from one. *)
Definition Model_destroy (m : Luma.Model)
    (gpuGeometry : option (list (string * nat))) : list Released :=
  ReleasedModel m ::
  match gpuGeometry with
  | Some attributes => GPUGeometry_destroy attributes
  | None => []
  end.

Definition UniformStore_destroy : list Released := [ReleasedUniformStore].

Definition ModelNode_destroy (m : Luma.Model)
    (gpuGeometry : option (list (string * nat)))
    (managedResources : list nat) : list Released :=
  Model_destroy m gpuGeometry ++ (managedResources ≫= Buffer_destroy).

(** The buffers among the resources released, in order. *)
Definition releasedBuffers (rs : list Released) : list nat :=
  rs ≫= (fun r => match r with ReleasedBuffer b => [b] | _ => [] end).

Definition releasedModels (rs : list Released) : list Luma.Model :=
  rs ≫= (fun r => match r with ReleasedModel m => [m] | _ => [] end).

Definition isStore (r : Released) : bool :=
  match r with ReleasedUniformStore => true | _ => false end.

(** How often the uniform store is released. *)
Definition storeReleases (rs : list Released) : nat :=
  List.length (List.filter isStore rs).

End Release.

Module MainTetraFinalize.
Import Release.

Definition onFinalize (this : MainTetra.App) : list Released :=
  Buffer_destroy (MainTetra.positionBuffer this)
  ++ Buffer_destroy (MainTetra.vertexNormalBuffer this)
  ++ Model_destroy (MainTetra.model this) None
  ++ UniformStore_destroy.

End MainTetraFinalize.

(** ** unnamed/part_001: the shaders and [onFinalize] *)

Module Part001Shaders.
Import MathGL.

Record AppBlock := mkAppBlock {
  modelViewMatrix : Matrix4;
  projectionMatrix : Matrix4
}.

Record LightingBlock := mkLightingBlock { lightPosition : Vector3 }.

(** [main] of [vs]. *)
Definition vs (app : AppBlock) (position normal : Vector3)
  : GLSL.VertexOutput :=
  let viewSpaceVertexPosition :=
    GLSL.mul (modelViewMatrix app) (GLSL.vec4_of position 1) in
  let vVertex := GLSL.vec3_of viewSpaceVertexPosition in
  let vNormal :=
    GLSL.vec3_of (GLSL.mul (modelViewMatrix app) (GLSL.vec4_of normal 0)) in
  let gl_Position := GLSL.mul (projectionMatrix app) viewSpaceVertexPosition in
  GLSL.mkVertexOutput vVertex vNormal gl_Position.

(** [main] of [fs]; the result is [fragColor]. *)
Definition fs (lighting : LightingBlock) (vVertex vNormal : Vector3)
  : GLSL.vec4 :=
  let toLight := GLSL.normalize (subtract (lightPosition lighting) vVertex) in
  let cosAngle := GLSL.dot (GLSL.normalize vNormal) toLight in
  let cosAngle := GLSL.clamp cosAngle 0 1 in
  GLSL.vec4_of (GLSL.vec3_splat cosAngle) 1.

Definition app_uniformTypes : list (string * string) :=
  [("modelViewMatrix", "mat4x4<f32>"); ("projectionMatrix", "mat4x4<f32>")].

Definition lighting_uniformTypes : list (string * string) :=
  [("lightPosition", "vec3<f32>")].

(** Modelled from the spec: the blocks as the uniform store (code of
    @luma.gl/core, the spec's section 6) hands them to the shaders; the
    members and the uniforms have the same names in the same order. *)
Definition appBlock (w : Luma.World) : option AppBlock :=
  mv ← Luma.appUniforms w !! "modelViewMatrix";
  p ← Luma.appUniforms w !! "projectionMatrix";
  Some (mkAppBlock mv p).

Definition lightingBlock (w : Luma.World) : option LightingBlock :=
  l ← Luma.lightingUniforms w !! "lightPosition";
  Some (mkLightingBlock l).

Definition shade (w : Luma.World) (position normal : Vector3)
  : option GLSL.vec4 :=
  app ← appBlock w;
  lighting ← lightingBlock w;
  let out := vs app position normal in
  Some (fs lighting (GLSL.vVertex out) (GLSL.vNormal out)).

End Part001Shaders.

Module Part001Finalize.
Import Release.

Definition onFinalize (this : Part001.App) : list Released :=
  Buffer_destroy (Part001.vertexDataBuffer this)
  ++ Model_destroy (Part001.model this) None
  ++ UniformStore_destroy.

End Part001Finalize.

(** ** The icosphere programs: the shaders and [onFinalize]

    unnamed/part_000 and the second program of src/main.ts have the same
    two shaders and the same uniform types. *)

Module IcoShaders.
Import MathGL.

Record AppBlock := mkAppBlock {
  modelViewMatrix : Matrix4;
  projectionMatrix : Matrix4
}.

Record LightingBlock := mkLightingBlock { lightPosition : Vector3 }.

(** [main] of [vs]. *)
Definition vs (app : AppBlock) (position normal : Vector3)
  : GLSL.VertexOutput :=
  let viewSpaceVertexPosition :=
    GLSL.mul (modelViewMatrix app) (GLSL.vec4_of position 1) in
  let vVertex := GLSL.vec3_of viewSpaceVertexPosition in
  let vNormal :=
    GLSL.vec3_of (GLSL.mul (modelViewMatrix app) (GLSL.vec4_of normal 0)) in
  let gl_Position := GLSL.mul (projectionMatrix app) viewSpaceVertexPosition in
  GLSL.mkVertexOutput vVertex vNormal gl_Position.

(** [main] of [fs]: the grey level is tinted by [vec3(0.9, 1.0, 1.0)]; 0.9
    is written [9 / 10]. *)
Definition fs (lighting : LightingBlock) (vVertex vNormal : Vector3)
  : GLSL.vec4 :=
  let toLight := GLSL.normalize (subtract (lightPosition lighting) vVertex) in
  let cosAngle := GLSL.dot (GLSL.normalize vNormal) toLight in
  let cosAngle := GLSL.clamp cosAngle 0 1 in
  GLSL.vec4_of
    (GLSL.times (GLSL.vec3_splat cosAngle) (mkVector3 (9 / 10) 1 1)) 1.

Definition app_uniformTypes : list (string * string) :=
  [("modelViewMatrix", "mat4x4<f32>"); ("projectionMatrix", "mat4x4<f32>")].

Definition lighting_uniformTypes : list (string * string) :=
  [("lightPosition", "vec3<f32>")].

(** Modelled from the spec: the blocks as the uniform store (code of
    @luma.gl/core, the spec's section 6) hands them to the shaders; the
    members and the uniforms have the same names in the same order. *)
Definition appBlock (w : Luma.World) : option AppBlock :=
  mv ← Luma.appUniforms w !! "modelViewMatrix";
  p ← Luma.appUniforms w !! "projectionMatrix";
  Some (mkAppBlock mv p).

Definition lightingBlock (w : Luma.World) : option LightingBlock :=
  l ← Luma.lightingUniforms w !! "lightPosition";
  Some (mkLightingBlock l).

Definition shade (w : Luma.World) (position normal : Vector3)
  : option GLSL.vec4 :=
  app ← appBlock w;
  lighting ← lightingBlock w;
  let out := vs app position normal in
  Some (fs lighting (GLSL.vVertex out) (GLSL.vNormal out)).

End IcoShaders.

Module Part000Finalize.
Import Release.

Definition onFinalize (this : Part000.App) : list Released :=
  ModelNode_destroy (Part000.node_model (Part000.modelNode this)) None
                    (Part000.managedResources (Part000.modelNode this))
  ++ UniformStore_destroy.

End Part000Finalize.

Module MainIcoFinalize.
Import Release.

(** The model of the node is the one [onInitialize] constructs from a
    GPUGeometry (the [geometry] option, where the other three programs pass
    [attributes]): the model holds the geometry's topology, vertex count,
    buffer layout and attributes. *)
Definition geometryOf (m : Luma.Model) : MainIco.GPUGeometry :=
  MainIco.mkGPUGeometry (Luma.topology m) (Luma.vertexCount m)
    (Luma.bufferLayout m) (Luma.attributes m).

(** [this.modelNode?.destroy()]: nothing when there is no node. *)
Definition onFinalize (this : MainIco.App) : list Released :=
  match MainIco.modelNode this with
  | Some node =>
      ModelNode_destroy (MainIco.node_model node)
        (Some (MainIco.g_attributes (geometryOf (MainIco.node_model node))))
        (MainIco.managedResources node)
  | None => []
  end
  ++ UniformStore_destroy.

End MainIcoFinalize.

(** ** The vocabulary of the statements on vectors, matrices and meshes *)

Module Geometry.
Import MathGL.

Definition add (a b : Vector3) : Vector3 :=
  mkVector3 (vx a + vx b) (vy a + vy b) (vz a + vz b).

Definition scale (k : R) (a : Vector3) : Vector3 :=
  mkVector3 (k * vx a) (k * vy a) (k * vz a).


(** The point [a p1 + b p2 + c p3] of the triangle [p1 p2 p3]. *)
Definition combine (a b c : R) (p1 p2 p3 : Vector3) : Vector3 :=
  add (add (scale a p1) (scale b p2)) (scale c p3).

Definition combine4 (a b c : R) (p1 p2 p3 : GLSL.vec4) : GLSL.vec4 :=
  GLSL.mkVec4
    (a * GLSL.cx p1 + b * GLSL.cx p2 + c * GLSL.cx p3)
    (a * GLSL.cy p1 + b * GLSL.cy p2 + c * GLSL.cy p3)
    (a * GLSL.cz p1 + b * GLSL.cz p2 + c * GLSL.cz p3)
    (a * GLSL.cw p1 + b * GLSL.cw p2 + c * GLSL.cw p3).

(** The matrix [m] applied to the point [p] and to the direction [d]. *)
Definition point (m : Matrix4) (p : Vector3) : Vector3 :=
  GLSL.vec3_of (GLSL.mul m (GLSL.vec4_of p 1)).

Definition direction (m : Matrix4) (d : Vector3) : Vector3 :=
  GLSL.vec3_of (GLSL.mul m (GLSL.vec4_of d 0)).

(** The last row of [m] is [0 0 0 1]: [m] maps points to points. *)
Definition affine (m : Matrix4) : Prop :=
  e3 m = 0 /\ e7 m = 0 /\ e11 m = 0 /\ e15 m = 1.

(** [m] keeps the lengths of directions and the angles between them. *)
Definition isometry (m : Matrix4) : Prop :=
  forall a b, GLSL.dot (direction m a) (direction m b) = GLSL.dot a b.

(** The rotation of the model in a frame of a tetrahedron program and of
    an icosphere program. *)
Definition modelXYZ (rx ry rz : R) : Matrix4 :=
  mmul (mmul (Rx rx) (Ry ry)) (Rz rz).

(** The diffuse term of a surface point at [p] with the normal [n], lit
    from [light]: the cosine of the angle between the normal and the
    direction to the light, and 0 when the light is behind. *)
Definition lambert (light p n : Vector3) : R :=
  GLSL.clamp
    (GLSL.dot (GLSL.normalize n) (GLSL.normalize (subtract light p))) 0 1.

(** A clip-space position within the view volume: in front of the camera
    and, after the division by [w], within [-1, 1] on the three axes. *)
Definition insideViewVolume (c : GLSL.vec4) : Prop :=
  0 < GLSL.cw c /\
  - GLSL.cw c <= GLSL.cx c <= GLSL.cw c /\
  - GLSL.cw c <= GLSL.cy c <= GLSL.cw c /\
  - GLSL.cw c <= GLSL.cz c <= GLSL.cw c.

(** The entry [[i, j]] of [faces] names a position and a normal. *)
Definition inRange (mesh : IcoSphereFlat.Mesh) (ij : Z * Z) : Prop :=
  (1 <= fst ij <= Z.of_nat (List.length (IcoSphereFlat.vertices mesh)))%Z /\
  (1 <= snd ij <= Z.of_nat (List.length (IcoSphereFlat.normals mesh)))%Z.

(** The commands of [n] frames that draw the model [m]. *)
Definition frames (n : nat) (m : Luma.Model) : list Luma.Command :=
  concat (replicate n [Luma.BeginRenderPass [1; 1; 1; 1]; Luma.Draw m;
                       Luma.EndRenderPass]).

End Geometry.

(** ** Facts on JavaScript numbers *)

#[local] Arguments IZR : simpl never.

Lemma ltb_true a b : a < b -> JS.ltb a b = true.
Proof.
  intros H. unfold JS.ltb.
  destruct (Rlt_dec a b); [reflexivity | contradiction].
Qed.

Lemma ltb_false a b : b <= a -> JS.ltb a b = false.
Proof.
  intros H. unfold JS.ltb.
  destruct (Rlt_dec a b); [lra | reflexivity].
Qed.

Lemma eqb_false a b : a <> b -> JS.eqb a b = false.
Proof.
  intros H. unfold JS.eqb.
  destruct (Req_dec_T a b); [contradiction | reflexivity].
Qed.

Lemma floor_unit x : 0 <= x < 1 -> JS.floor x = 0%Z.
Proof.
  intros [H0 H1]. unfold JS.floor.
  symmetry. apply Int_part_spec. simpl. lra.
Qed.

(** [a % b] is [a] when [0 <= a < b]. *)
Lemma rem_small a b : 0 <= a < b -> JS.rem a b = a.
Proof.
  intros [H0 H1]. unfold JS.rem.
  rewrite floor_unit.
  - simpl. lra.
  - split.
    + apply Rmult_le_pos; [lra |]. left. apply Rinv_0_lt_compat. lra.
    + apply Rmult_lt_reg_r with b; [lra |].
      unfold Rdiv. rewrite Rmult_assoc, Rinv_l by lra. lra.
Qed.

(** ** Facts on the math library *)

Section MathFacts.
Import MathGL.

(** The library's unrolled product is the matrix product. *)
Lemma multiplyRight_mmul a b : multiplyRight a b = mmul a b.
Proof.
  unfold multiplyRight, mmul, tabulate, entry, elem. simpl.
  f_equal; ring.
Qed.

Lemma rotateX_mmul a t : rotateX a t = mmul a (Rx t).
Proof.
  destruct a. unfold rotateX, mmul, tabulate, entry, elem, Rx. simpl.
  f_equal; ring.
Qed.

Lemma rotateY_mmul a t : rotateY a t = mmul a (Ry t).
Proof.
  destruct a. unfold rotateY, mmul, tabulate, entry, elem, Ry. simpl.
  f_equal; ring.
Qed.

Lemma rotateZ_mmul a t : rotateZ a t = mmul a (Rz t).
Proof.
  destruct a. unfold rotateZ, mmul, tabulate, entry, elem, Rz. simpl.
  f_equal; ring.
Qed.

Lemma rotateXYZ_mmul a rx ry rz :
  rotateXYZ a (rx, ry, rz) = mmul (mmul (mmul a (Rx rx)) (Ry ry)) (Rz rz).
Proof.
  unfold rotateXYZ.
  now rewrite rotateZ_mmul, rotateY_mmul, rotateX_mmul.
Qed.

(** A rotation by the angle 0 changes nothing. *)
Lemma rotateX_zero a : rotateX a 0 = a.
Proof.
  destruct a. unfold rotateX. simpl. rewrite sin_0, cos_0. f_equal; ring.
Qed.

Lemma rotateY_zero a : rotateY a 0 = a.
Proof.
  destruct a. unfold rotateY. simpl. rewrite sin_0, cos_0. f_equal; ring.
Qed.

Lemma rotateZ_zero a : rotateZ a 0 = a.
Proof.
  destruct a. unfold rotateZ. simpl. rewrite sin_0, cos_0. f_equal; ring.
Qed.

Lemma rotateXYZ_zero a : rotateXYZ a (0, 0, 0) = a.
Proof.
  unfold rotateXYZ. now rewrite rotateX_zero, rotateY_zero, rotateZ_zero.
Qed.

Lemma lengthSquared_nonneg v : 0 <= lengthSquared v.
Proof. unfold lengthSquared. nra. Qed.

(** A vector that is not null is normalized to a vector of length 1. *)
Lemma normalize_lengthSquared v :
  lengthSquared v <> 0 -> lengthSquared (normalize v) = 1.
Proof.
  intros H. unfold normalize, magnitude.
  pose proof (lengthSquared_nonneg v) as Hp.
  assert (Hs : sqrt (lengthSquared v) <> 0).
  { intros E. apply sqrt_eq_0 in E; auto. }
  rewrite eqb_false by exact Hs.
  pose proof (sqrt_sqrt _ Hp) as Hq.
  set (l := sqrt (lengthSquared v)) in *.
  unfold lengthSquared at 1. simpl.
  transitivity (lengthSquared v / (l * l)).
  - unfold lengthSquared. field. exact Hs.
  - rewrite Hq. field. exact H.
Qed.

Lemma normalize_magnitude v :
  lengthSquared v <> 0 -> magnitude (normalize v) = 1.
Proof.
  intros H. unfold magnitude.
  rewrite normalize_lengthSquared by exact H. apply sqrt_1.
Qed.

Lemma Vector3_eta v : mkVector3 (vx v) (vy v) (vz v) = v.
Proof. now destruct v. Qed.

End MathFacts.

(** ** Facts on tracks and channels *)

Section TrackFacts.
Import MathGL Luma.

Lemma reading_parts k s e f :
  Observe.reading k = (s, e, f) ->
  getStartData k = s /\ getEndData k = e /\ factor k = f.
Proof. unfold Observe.reading. intros H. now inversion H. Qed.

(** A two-keyframe track from [(0, 0)] to [(T, v)], at a time within its
    range. *)
Lemma two_keyframes_reading T v q :
  0 < T -> 0 <= q <= T ->
  Observe.reading (mkKeyFrames (0, 0) [(T, v)] q) = (0, v, q / T).
Proof.
  intros HT Hq.
  unfold Observe.reading, getStartData, getEndData, factor, factorAt,
    bracketAt, clampTime, firstKeyframeTime, lastKeyframeTime.
  simpl.
  rewrite eqb_false by lra.
  rewrite (Rmin_left q T) by lra. rewrite (Rmax_right 0 q) by lra.
  f_equal. field. lra.
Qed.

(** Its value at a time within its range, whatever its own time. *)
Lemma two_keyframes_evaluate T v t q :
  0 < T -> 0 <= q <= T ->
  evaluate (mkKeyFrames (0, 0) [(T, v)] t) q = q / T * v.
Proof.
  intros HT Hq.
  destruct (reading_parts _ _ _ _ (two_keyframes_reading T v q HT Hq))
    as (S & E & F).
  change (evaluate (mkKeyFrames (0, 0) [(T, v)] t) q)
    with (Observe.interpolated (mkKeyFrames (0, 0) [(T, v)] q)).
  unfold Observe.interpolated. rewrite S, E, F. ring.
Qed.

(** Whatever the time, such a track starts at 0. *)
Lemma two_keyframes_start T v q :
  getStartData (mkKeyFrames (0, 0) [(T, v)] q) = 0.
Proof. reflexivity. Qed.

Lemma advanceChannel_infinite d dur r e :
  advanceChannel d (mkChannel dur Infinite r e)
  = mkChannel dur Infinite r (e + d).
Proof. reflexivity. Qed.

Lemma channelTime_infinite dur r e :
  channelTime (mkChannel dur Infinite r e) = JS.rem e dur * r.
Proof. reflexivity. Qed.

End TrackFacts.

(** ** Running the programs *)

(** Unfolds the monad and the operations of the engine on a world whose
    lists are known up to their tails. *)
Ltac run :=
  lazy [mbind Luma.M_bind mret Luma.M_ret Luma.get Luma.put Luma.liftOption
        Luma.throw
        Luma.setMatrices Luma.setTracks Luma.setTimelines Luma.setLoopTimeline
        Luma.setAppUniforms Luma.setLightingUniforms Luma.setBuffers
        Luma.setCommands
        Luma.matrices Luma.tracks Luma.timelines Luma.loopTimeline
        Luma.appUniforms Luma.lightingUniforms Luma.buffers Luma.commands
        Luma.emptyWorld
        Luma.Matrix4_new Luma.Matrix4_read Luma.Matrix4_update
        Luma.Matrix4_copy Luma.Matrix4_lookAt Luma.Matrix4_perspective
        Luma.Matrix4_multiplyRight Luma.Matrix4_rotateXYZ
        Luma.Matrix4_rotateY Luma.Matrix4_transformAsPoint
        Luma.KeyFrames_new Luma.KeyFrames_read Luma.KeyFrames_setTime
        Luma.KeyFrames_getStartData Luma.KeyFrames_getEndData
        Luma.KeyFrames_factor Luma.makeKeyFrames
        Luma.Timeline_new Luma.Timeline_read Luma.Timeline_write
        Luma.Timeline_addChannel Luma.Timeline_attachAnimation
        Luma.Timeline_play Luma.Timeline_pause Luma.syncTracks
        Luma.Timeline_advance Luma.AnimationLoop_attachTimeline
        Luma.AnimationLoop_tick
        Luma.emptyTimeline Luma.channels Luma.animations Luma.playing
        Luma.opt_rate Luma.opt_duration Luma.opt_repeat default
        Luma.readUniforms Luma.UniformStore_setUniforms
        Luma.Device_createBuffer Luma.emit
        Luma.Device_beginRenderPass Luma.Model_draw Luma.RenderPass_end];
  simpl.

Lemma snoc_lookup {A} (l : list A) x : (l ++ [x]) !! length l = Some x.
Proof. by apply list_lookup_middle. Qed.

Lemma snoc_insert {A} (l : list A) x y :
  <[length l := y]> (l ++ [x]) = l ++ [y].
Proof. induction l; simpl; [done | by f_equal]. Qed.

Ltac run_frame := repeat (run; rewrite ?snoc_lookup, ?snoc_insert).

Lemma onlyKeys_empty k1 k2 : Observe.onlyKeys k1 k2 ∅.
Proof. intros k _ _. apply lookup_empty. Qed.

Lemma onlyKeys_insert k1 k2 a b (u : gmap string MathGL.Matrix4) :
  Observe.onlyKeys k1 k2 u ->
  Observe.onlyKeys k1 k2 (<[k1 := a]> (<[k2 := b]> u)).
Proof.
  intros H k Hk1 Hk2.
  rewrite lookup_insert_ne by congruence.
  rewrite lookup_insert_ne by congruence.
  now apply H.
Qed.

(** Setting both keys of the block leaves nothing of what it held. *)
Lemma onlyKeys_overwritten k1 k2 a b (u1 u2 : gmap string MathGL.Matrix4) :
  Observe.onlyKeys k1 k2 u1 -> Observe.onlyKeys k1 k2 u2 ->
  <[k1 := a]> (<[k2 := b]> u1) = <[k1 := a]> (<[k2 := b]> u2).
Proof.
  intros H1 H2. apply map_eq. intros k.
  destruct (decide (k1 = k)) as [-> | Hk1].
  - now rewrite !lookup_insert_eq.
  - rewrite !(lookup_insert_ne _ k1) by exact Hk1.
    destruct (decide (k2 = k)) as [-> | Hk2].
    + now rewrite !lookup_insert_eq.
    + rewrite !(lookup_insert_ne _ k2) by exact Hk2.
      rewrite H1, H2; congruence.
Qed.

Lemma two_inserts_union (k1 k2 : string) (a b : MathGL.Matrix4)
    (u : gmap string MathGL.Matrix4) :
  <[k1 := a]> (<[k2 := b]> ∅) ∪ u = <[k1 := a]> (<[k2 := b]> u).
Proof.
  rewrite <- !insert_union_l. now rewrite (left_id_L ∅ (∪)).
Qed.

Lemma drawCalls_app cs1 cs2 :
  Observe.drawCalls (cs1 ++ cs2)
  = (Observe.drawCalls cs1 + Observe.drawCalls cs2)%nat.
Proof.
  unfold Observe.drawCalls. rewrite List.filter_app. apply length_app.
Qed.

(** ** src/main.ts, first program: the worlds it goes through *)

Section TetraFacts.
Import MathGL Luma MainTetra TetraShape.

Lemma tetra_construct :
  construct emptyWorld
  = Some (theApp, shape identity [] (JS.rem 0 2000 * 1) (JS.rem 0 (2000 / (7 / 10)) * (7 / 10))
                        0 0 ∅ []).
Proof.
  unfold construct, channelXOptions, channelYOptions, keyFrameData.
  run.
  rewrite (ltb_true 0 2000) by lra. rewrite (ltb_true 0 1) by lra.
  run.
  rewrite (ltb_true 0 (2000 / (7 / 10))) by lra.
  rewrite (ltb_true 0 (7 / 10)) by lra.
  run.
  rewrite !(left_id_L ∅ (∪)). rewrite insert_empty.
  reflexivity.
Qed.

Lemma tetra_tick P rest tX tY eX eY au cs d :
  AnimationLoop_tick d (shape P rest tX tY eX eY au cs)
  = Some (tt, shape P rest (JS.rem (eX + d) 2000 * 1)
                    (JS.rem (eY + d) (2000 / (7 / 10)) * (7 / 10))
                    (eX + d) (eY + d) au cs).
Proof. unfold shape. run. reflexivity. Qed.

Lemma tetra_rotations P rest tX tY eX eY au cs :
  rotations theApp (shape P rest tX tY eX eY au cs)
  = Some ((angleX tX, angleY tX tY), shape P rest tX tY eX eY au cs).
Proof. unfold shape, rotations, theApp. run. reflexivity. Qed.

Lemma tetra_frame P rest tX tY eX eY au cs aspect :
  let MV := rotateXYZ view (angleX tX, angleY tX tY, 0) in
  let MVP := multiplyRight (perspective (PI / 3) aspect defaultNear defaultFar) MV in
  onRender theApp aspect (shape P rest tX tY eX eY au cs)
  = Some (tt, shape MVP (rest ++ [MV]) tX tY eX eY
                    (<["mvpMatrix" := MVP]> (<["mvMatrix" := MV]> au))
                    (cs ++ [BeginRenderPass [1; 1; 1; 1]; Draw theModel;
                            EndRenderPass])).
Proof.
  intros MV MVP. unfold shape, onRender, rotations, theApp.
  run_frame.
  rewrite two_inserts_union, (left_id_L ∅ (∪)), <- !app_assoc.
  reflexivity.
Qed.

Lemma tetra_reachable_inv this w : Reachable this w -> Inv this w.
Proof.
  induction 1 as [this w Hc | this w d w' _ IH Ht | this w a w' _ IH Hf].
  - rewrite tetra_construct in Hc. inversion Hc; subst.
    split; [reflexivity |]. do 8 eexists. split; [reflexivity |].
    apply onlyKeys_empty.
  - destruct IH as [-> (P & rest & tX & tY & eX & eY & au & cs & -> & Hk)].
    rewrite tetra_tick in Ht. inversion Ht; subst.
    split; [reflexivity |]. do 8 eexists. split; [reflexivity | exact Hk].
  - destruct IH as [-> (P & rest & tX & tY & eX & eY & au & cs & -> & Hk)].
    rewrite tetra_frame in Hf. inversion Hf; subst.
    split; [reflexivity |]. do 8 eexists. split; [reflexivity |].
    now apply onlyKeys_insert.
Qed.

End TetraFacts.

(** ** unnamed/part_001: the worlds it goes through *)

Section Part001Facts.
Import MathGL Luma Part001 Part001Shape.

Lemma p001_construct :
  construct emptyWorld
  = Some (theApp, shape identity [] (JS.rem 0 2000 * 1) (JS.rem 0 (2000 / (7 / 10)) * (7 / 10))
                        0 0 ∅ []).
Proof.
  unfold construct, channelXOptions, channelYOptions, keyFrameData.
  run.
  rewrite (ltb_true 0 2000) by lra. rewrite (ltb_true 0 1) by lra.
  run.
  rewrite (ltb_true 0 (2000 / (7 / 10))) by lra.
  rewrite (ltb_true 0 (7 / 10)) by lra.
  run.
  rewrite !(left_id_L ∅ (∪)). rewrite insert_empty.
  reflexivity.
Qed.

Lemma p001_tick P rest tX tY eX eY au cs d :
  AnimationLoop_tick d (shape P rest tX tY eX eY au cs)
  = Some (tt, shape P rest (JS.rem (eX + d) 2000 * 1)
                    (JS.rem (eY + d) (2000 / (7 / 10)) * (7 / 10))
                    (eX + d) (eY + d) au cs).
Proof. unfold shape. run. reflexivity. Qed.

Lemma p001_rotations P rest tX tY eX eY au cs :
  rotations theApp (shape P rest tX tY eX eY au cs)
  = Some ((angleX tX, angleY tX tY), shape P rest tX tY eX eY au cs).
Proof. unfold shape, rotations, theApp. run. reflexivity. Qed.

Lemma p001_frame P rest tX tY eX eY au cs aspect :
  let MV := rotateXYZ view (angleX tX, angleY tX tY, 0) in
  let PM := perspective (PI / 3) aspect defaultNear defaultFar in
  onRender theApp aspect (shape P rest tX tY eX eY au cs)
  = Some (tt, shape PM (rest ++ [MV]) tX tY eX eY
                    (<["modelViewMatrix" := MV]> (<["projectionMatrix" := PM]> au))
                    (cs ++ [BeginRenderPass [1; 1; 1; 1]; Draw theModel;
                            EndRenderPass])).
Proof.
  intros MV PM. unfold shape, onRender, rotations, theApp.
  run_frame.
  rewrite two_inserts_union, (left_id_L ∅ (∪)), <- !app_assoc.
  reflexivity.
Qed.

Lemma p001_reachable_inv this w : Reachable this w -> Inv this w.
Proof.
  induction 1 as [this w Hc | this w d w' _ IH Ht | this w a w' _ IH Hf].
  - rewrite p001_construct in Hc. inversion Hc; subst.
    split; [reflexivity |]. do 8 eexists. split; [reflexivity |].
    apply onlyKeys_empty.
  - destruct IH as [-> (P & rest & tX & tY & eX & eY & au & cs & -> & Hk)].
    rewrite p001_tick in Ht. inversion Ht; subst.
    split; [reflexivity |]. do 8 eexists. split; [reflexivity | exact Hk].
  - destruct IH as [-> (P & rest & tX & tY & eX & eY & au & cs & -> & Hk)].
    rewrite p001_frame in Hf. inversion Hf; subst.
    split; [reflexivity |]. do 8 eexists. split; [reflexivity |].
    now apply onlyKeys_insert.
Qed.

End Part001Facts.

(** ** The icosphere programs: the worlds they go through *)

Section IcoFacts.
Import MathGL Luma IcoSphereFlat IcoShape.

Variable mesh : Mesh.

Lemma ico_tick data P rest t e au cs d :
  AnimationLoop_tick d (shape data P rest t e au cs)
  = Some (tt, shape data P rest (JS.rem (e + d) 5000 * 1) (e + d) au cs).
Proof. unfold shape. run. reflexivity. Qed.

Lemma p000_construct data :
  Part000.vertexData mesh = Some data ->
  Part000.construct mesh emptyWorld
  = Some (app000 mesh, shape data identity [] (JS.rem 0 5000 * 1) 0 ∅ []).
Proof.
  intros Hd.
  unfold Part000.construct, Part000.rotationChannelOptions,
    Part000.rotationKeyFrameData.
  rewrite Hd.
  run.
  rewrite (ltb_true 0 5000) by lra. rewrite (ltb_true 0 1) by lra.
  run.
  rewrite !(left_id_L ∅ (∪)). rewrite insert_empty.
  reflexivity.
Qed.

Lemma p000_construct_data this w :
  Part000.construct mesh emptyWorld = Some (this, w) ->
  exists data, Part000.vertexData mesh = Some data.
Proof.
  intros Hc. destruct (Part000.vertexData mesh) as [data |] eqn:Hd.
  - now exists data.
  - exfalso. revert Hc.
    unfold Part000.construct. rewrite Hd. run. discriminate.
Qed.

Lemma p000_rotationOf data P rest t e au cs :
  Part000.rotationOf (app000 mesh) (shape data P rest t e au cs)
  = Some (angle t, shape data P rest t e au cs).
Proof. unfold shape, Part000.rotationOf, app000. run. reflexivity. Qed.

Lemma p000_frame data P rest t e au cs aspect :
  let MV := rotateY view (angle t) in
  let PM := perspective (PI / 3) aspect defaultNear defaultFar in
  Part000.onRender (app000 mesh) aspect (shape data P rest t e au cs)
  = Some (tt, shape data PM (rest ++ [MV]) t e
                    (<["modelViewMatrix" := MV]> (<["projectionMatrix" := PM]> au))
                    (cs ++ [BeginRenderPass [1; 1; 1; 1]; Draw (theModel mesh);
                            EndRenderPass])).
Proof.
  intros MV PM.
  unfold shape, Part000.onRender, Part000.rotationOf, Part000.ModelNode_draw,
    app000.
  run_frame.
  rewrite two_inserts_union, (left_id_L ∅ (∪)), <- !app_assoc.
  reflexivity.
Qed.

Lemma p000_reachable_inv this w :
  Part000.Reachable mesh this w -> Inv000 mesh this w.
Proof.
  induction 1 as [this w Hc | this w d w' _ IH Ht | this w a w' _ IH Hf].
  - destruct (p000_construct_data _ _ Hc) as [data Hd].
    rewrite (p000_construct _ Hd) in Hc. inversion Hc; subst.
    split; [reflexivity |]. exists data. do 6 eexists.
    split; [exact Hd |]. split; [reflexivity |]. apply onlyKeys_empty.
  - destruct IH as [-> (data & P & rest & t & e & au & cs & Hd & -> & Hk)].
    rewrite ico_tick in Ht. inversion Ht; subst.
    split; [reflexivity |]. exists data. do 6 eexists.
    split; [exact Hd |]. split; [reflexivity | exact Hk].
  - destruct IH as [-> (data & P & rest & t & e & au & cs & Hd & -> & Hk)].
    rewrite p000_frame in Hf. inversion Hf; subst.
    split; [reflexivity |]. exists data. do 6 eexists.
    split; [exact Hd |]. split; [reflexivity |]. now apply onlyKeys_insert.
Qed.

Lemma ico_construct :
  MainIco.construct emptyWorld
  = Some (constructedIco, uninitialized identity [] (JS.rem 0 5000 * 1) 0 ∅ []).
Proof.
  unfold MainIco.construct, MainIco.rotationChannelOptions,
    MainIco.rotationKeyFrameData.
  run.
  rewrite (ltb_true 0 5000) by lra. rewrite (ltb_true 0 1) by lra.
  run.
  rewrite !(left_id_L ∅ (∪)). rewrite insert_empty.
  reflexivity.
Qed.

Lemma ico_initialize data P rest t e au cs :
  MainIco.vertexData mesh = Some data ->
  MainIco.onInitialize mesh constructedIco (uninitialized P rest t e au cs)
  = Some (appIco mesh, shape data P rest t e au cs).
Proof.
  intros Hd. unfold MainIco.onInitialize. rewrite Hd.
  run. reflexivity.
Qed.

(** Before [onInitialize] the optional model node is absent and a frame
    would draw nothing; the animation loop renders no frame then. *)
Lemma ico_frame_uninitialized P rest t e au cs aspect :
  exists w',
    MainIco.onRender constructedIco aspect (uninitialized P rest t e au cs)
    = Some (tt, w') /\
    commands w' = cs ++ [BeginRenderPass [1; 1; 1; 1]; EndRenderPass].
Proof.
  eexists. split.
  - unfold uninitialized, MainIco.onRender, MainIco.rotationOf,
      MainIco.ModelNode_draw, constructedIco.
    run_frame. reflexivity.
  - simpl. now rewrite <- app_assoc.
Qed.

Lemma ico_initialize_data this0 w0 this w :
  MainIco.onInitialize mesh this0 w0 = Some (this, w) ->
  exists data, MainIco.vertexData mesh = Some data.
Proof.
  intros Hc. destruct (MainIco.vertexData mesh) as [data |] eqn:Hd.
  - now exists data.
  - exfalso. revert Hc.
    unfold MainIco.onInitialize. rewrite Hd. run. discriminate.
Qed.

Lemma ico_rotationOf data P rest t e au cs :
  MainIco.rotationOf (appIco mesh) (shape data P rest t e au cs)
  = Some (angle t, shape data P rest t e au cs).
Proof. unfold shape, MainIco.rotationOf, appIco. run. reflexivity. Qed.

Lemma ico_frame data P rest t e au cs aspect :
  let MV := rotateY view (angle t) in
  let PM := perspective (PI / 3) aspect defaultNear defaultFar in
  MainIco.onRender (appIco mesh) aspect (shape data P rest t e au cs)
  = Some (tt, shape data PM (rest ++ [MV]) t e
                    (<["modelViewMatrix" := MV]> (<["projectionMatrix" := PM]> au))
                    (cs ++ [BeginRenderPass [1; 1; 1; 1]; Draw (theModel mesh);
                            EndRenderPass])).
Proof.
  intros MV PM.
  unfold shape, MainIco.onRender, MainIco.rotationOf, MainIco.ModelNode_draw,
    appIco.
  run_frame.
  rewrite two_inserts_union, (left_id_L ∅ (∪)), <- !app_assoc.
  reflexivity.
Qed.

Lemma ico_reachable_inv this w :
  MainIco.Reachable mesh this w -> InvIco mesh this w.
Proof.
  induction 1 as [this0 w0 this w Hc Hi | this w d w' _ IH Ht
                 | this w a w' _ IH Hf].
  - rewrite ico_construct in Hc. inversion Hc; subst.
    destruct (ico_initialize_data _ _ _ _ Hi) as [data Hd].
    rewrite (ico_initialize _ _ _ _ _ _ _ Hd) in Hi. inversion Hi; subst.
    split; [reflexivity |]. exists data. do 6 eexists.
    split; [exact Hd |]. split; [reflexivity |]. apply onlyKeys_empty.
  - destruct IH as [-> (data & P & rest & t & e & au & cs & Hd & -> & Hk)].
    rewrite ico_tick in Ht. inversion Ht; subst.
    split; [reflexivity |]. exists data. do 6 eexists.
    split; [exact Hd |]. split; [reflexivity | exact Hk].
  - destruct IH as [-> (data & P & rest & t & e & au & cs & Hd & -> & Hk)].
    rewrite ico_frame in Hf. inversion Hf; subst.
    split; [reflexivity |]. exists data. do 6 eexists.
    split; [exact Hd |]. split; [reflexivity |]. now apply onlyKeys_insert.
Qed.

End IcoFacts.

(** ** The tetrahedron's buffers *)

Section TetraBufferFacts.
Import MathGL Luma.

Lemma fn1_magnitude : magnitude MainTetra.fn1 = 1.
Proof.
  apply normalize_magnitude.
  unfold lengthSquared, cross, subtract, MainTetra.v1, MainTetra.v2,
    MainTetra.v3; simpl. lra.
Qed.

Lemma fn2_magnitude : magnitude MainTetra.fn2 = 1.
Proof.
  apply normalize_magnitude.
  unfold lengthSquared, cross, subtract, MainTetra.v1, MainTetra.v3,
    MainTetra.v4; simpl. lra.
Qed.

Lemma fn3_magnitude : magnitude MainTetra.fn3 = 1.
Proof.
  apply normalize_magnitude.
  unfold lengthSquared, cross, subtract, MainTetra.v1, MainTetra.v2,
    MainTetra.v4; simpl. lra.
Qed.

Lemma fn4_magnitude : magnitude MainTetra.fn4 = 1.
Proof.
  apply normalize_magnitude.
  unfold lengthSquared, cross, subtract, MainTetra.v2, MainTetra.v3,
    MainTetra.v4; simpl. lra.
Qed.

(** The vertices and the normals the two tetrahedron programs store, one
    per vertex drawn. *)
Lemma tetra_position_fetch i :
  (i < 12)%nat ->
  Observe.fetch MainTetra.positionData 12 0 i
  = [MainTetra.v1; MainTetra.v3; MainTetra.v2;
     MainTetra.v1; MainTetra.v4; MainTetra.v3;
     MainTetra.v1; MainTetra.v2; MainTetra.v4;
     MainTetra.v2; MainTetra.v3; MainTetra.v4] !! i.
Proof.
  intros Hi.
  do 12 (destruct i as [| i]; [reflexivity |]). lia.
Qed.

Lemma tetra_normal_fetch i :
  (i < 12)%nat ->
  Observe.fetch MainTetra.vertexNormalData 12 0 i
  = [MainTetra.fn1; MainTetra.fn1; MainTetra.fn1;
     MainTetra.fn2; MainTetra.fn2; MainTetra.fn2;
     MainTetra.fn3; MainTetra.fn3; MainTetra.fn3;
     MainTetra.fn4; MainTetra.fn4; MainTetra.fn4] !! i.
Proof.
  intros Hi.
  do 12 (destruct i as [| i];
         [unfold Observe.fetch, MainTetra.vertexNormalData, JS.Float32Array,
            spread; simpl; now rewrite Vector3_eta |]).
  lia.
Qed.

Lemma p001_position_fetch i :
  (i < 12)%nat ->
  Observe.fetch Part001.vertexData 24 0 i
  = [Part001.v1; Part001.v3; Part001.v2;
     Part001.v1; Part001.v4; Part001.v3;
     Part001.v1; Part001.v2; Part001.v4;
     Part001.v2; Part001.v3; Part001.v4] !! i.
Proof.
  intros Hi.
  do 12 (destruct i as [| i]; [reflexivity |]). lia.
Qed.

Lemma p001_normal_fetch i :
  (i < 12)%nat ->
  Observe.fetch Part001.vertexData 24 12 i
  = [Part001.fn1; Part001.fn1; Part001.fn1;
     Part001.fn2; Part001.fn2; Part001.fn2;
     Part001.fn3; Part001.fn3; Part001.fn3;
     Part001.fn4; Part001.fn4; Part001.fn4] !! i.
Proof.
  intros Hi.
  do 12 (destruct i as [| i];
         [unfold Observe.fetch, Part001.vertexData, JS.Float32Array,
            spread; simpl; now rewrite Vector3_eta |]).
  lia.
Qed.

End TetraBufferFacts.

(** ** The icosphere's vertex buffer *)

Section VertexDataFacts.
Import MathGL Luma IcoSphereFlat IcoShape.

Variable mesh : Mesh.

Lemma p000_vertexData_corners :
  Part000.vertexData mesh
  = JS.Float32Array <$> (@concat R <$> mapM (corner mesh) (faces mesh)).
Proof.
  unfold Part000.vertexData. do 2 f_equal.
Qed.

Lemma ico_vertexData_same : MainIco.vertexData mesh = Part000.vertexData mesh.
Proof. reflexivity. Qed.

(** A 1-based index within the list names an element. *)
Lemma index_in_range {A} (l : list A) (i : Z) :
  (1 <= i <= Z.of_nat (length l))%Z -> is_Some (JS.index l (i - 1)).
Proof.
  intros Hi. unfold JS.index.
  destruct (Z.ltb_spec (i - 1) 0) as [Hneg | _]; [lia |].
  apply lookup_lt_is_Some. lia.
Qed.

Lemma index_elem {A} (l : list A) (i : Z) x :
  JS.index l i = Some x -> In x l.
Proof.
  unfold JS.index. destruct (i <? 0)%Z; [discriminate |].
  intros H. apply list_elem_of_In. eapply list_elem_of_lookup_2, H.
Qed.

Lemma corner_wellFormed ij :
  wellFormed mesh -> In ij (faces mesh) ->
  exists v n,
    JS.index (vertices mesh) (fst ij - 1) = Some v /\
    JS.index (normals mesh) (snd ij - 1) = Some n /\
    length v = 3%nat /\ length n = 3%nat /\
    corner mesh ij = Some (v ++ n).
Proof.
  intros (Hv & Hn & Hf) Hin.
  rewrite List.Forall_forall in Hv, Hn, Hf.
  destruct (Hf _ Hin) as [Hi Hj]. destruct ij as [i j]. simpl in *.
  destruct (index_in_range _ _ Hi) as [v Ev].
  destruct (index_in_range _ _ Hj) as [n En].
  exists v, n. repeat split; try assumption.
  - apply Hv. eapply index_elem, Ev.
  - apply Hn. eapply index_elem, En.
  - now rewrite Ev, En.
Qed.

(** Every entry contributes its floats, so the mapping succeeds. *)
Lemma corners_total (fs : list (Z * Z)) :
  (forall ij, In ij fs -> is_Some (corner mesh ij)) ->
  exists rows, mapM (corner mesh) fs = Some rows.
Proof.
  induction fs as [| ij fs IH]; intros H.
  - now exists [].
  - destruct (H ij (or_introl eq_refl)) as [row Hrow].
    destruct IH as [rows Hrows]; [intros; apply H; now right |].
    exists (row :: rows). simpl. now rewrite Hrow, Hrows.
Qed.

Lemma corners_lookup (fs : list (Z * Z)) rows k ij :
  mapM (corner mesh) fs = Some rows -> fs !! k = Some ij ->
  exists row, rows !! k = Some row /\ corner mesh ij = Some row.
Proof.
  intros Hm Hk. apply mapM_Some in Hm.
  destruct (Forall2_lookup_l _ _ _ _ _ Hm Hk) as (row & ? & ?).
  now exists row.
Qed.

(** Rows of six floats laid end to end: row [k] starts at float [6k]. *)
Lemma concat_rows_length (rows : list (list R)) :
  Forall (fun row => length row = 6%nat) rows ->
  length (concat rows) = (6 * length rows)%nat.
Proof.
  induction 1 as [| row rows Hrow _ IH]; [reflexivity |].
  simpl concat. rewrite length_app, IH, Hrow. simpl. lia.
Qed.

Lemma concat_rows_lookup (rows : list (list R)) k row :
  Forall (fun row => length row = 6%nat) rows ->
  rows !! k = Some row ->
  take 6 (drop (6 * k) (concat rows)) = row.
Proof.
  intros Hall. revert k. induction Hall as [| r rows Hr _ IH]; intros k Hk.
  - discriminate.
  - destruct k as [| k].
    + injection Hk as ->. simpl concat. rewrite Nat.mul_0_r, drop_0.
      rewrite take_app_length'; [reflexivity | now rewrite Hr].
    + simpl in Hk. simpl concat.
      replace (6 * S k)%nat with (length r + 6 * k)%nat by lia.
      rewrite drop_app_add'; [| reflexivity]. now apply IH.
Qed.

Lemma rows_have_six (rows : list (list R)) :
  wellFormed mesh ->
  mapM (corner mesh) (faces mesh) = Some rows ->
  Forall (fun row => length row = 6%nat) rows.
Proof.
  intros Hwf Hm. apply mapM_Some in Hm.
  apply List.Forall_forall. intros row Hin.
  apply list_elem_of_In, list_elem_of_lookup_1 in Hin.
  destruct Hin as [k Hk].
  destruct (Forall2_lookup_r _ _ _ _ _ Hm Hk) as (ij & Hij & Hc).
  apply list_elem_of_lookup_2, list_elem_of_In in Hij.
  destruct (corner_wellFormed ij Hwf Hij) as (v & n & _ & _ & Lv & Ln & Hc').
  rewrite Hc in Hc'. injection Hc' as ->. rewrite length_app. lia.
Qed.

(** The vertex buffer of a well-formed mesh. *)
Lemma vertexData_wellFormed :
  wellFormed mesh ->
  exists data,
    Part000.vertexData mesh = Some data /\
    length data = (6 * length (faces mesh))%nat /\
    forall k i j, faces mesh !! k = Some (i, j) ->
      exists v n,
        JS.index (vertices mesh) (i - 1) = Some v /\
        JS.index (normals mesh) (j - 1) = Some n /\
        length v = 3%nat /\ length n = 3%nat /\
        take 6 (drop (6 * k) data) = v ++ n.
Proof.
  intros Hwf.
  destruct (corners_total (faces mesh)) as [rows Hrows].
  { intros ij Hin.
    destruct (corner_wellFormed ij Hwf Hin) as (v & n & _ & _ & _ & _ & Hc).
    now rewrite Hc. }
  pose proof (rows_have_six rows Hwf Hrows) as Hsix.
  exists (concat rows). split; [| split].
  - rewrite p000_vertexData_corners, Hrows. reflexivity.
  - rewrite (concat_rows_length _ Hsix). f_equal.
    apply mapM_Some in Hrows. symmetry. eapply Forall2_length, Hrows.
  - intros k i j Hk.
    destruct (corners_lookup _ _ _ _ Hrows Hk) as (row & Hrow & Hc).
    destruct (corner_wellFormed (i, j) Hwf) as (v & n & Ev & En & Lv & Ln & Hc').
    { apply list_elem_of_In. eapply list_elem_of_lookup_2, Hk. }
    simpl in Ev, En. exists v, n. repeat split; try assumption.
    rewrite (concat_rows_lookup _ _ _ Hsix Hrow). congruence.
Qed.

End VertexDataFacts.

Lemma oneTriangle_wellFormed : IcoSphereFlat.wellFormed IcoShape.oneTriangle.
Proof.
  unfold IcoSphereFlat.wellFormed, IcoShape.oneTriangle. simpl.
  repeat split; repeat constructor; simpl; lia.
Qed.

(** ** The rotation angles (claims C1, C2) *)

Section AngleFacts.
Import MathGL Luma.

(** With the keyframes the programs ship, [onRender]'s two angles are the
    interpolation on each track's own accessors: both tracks start at the
    value 0 at every time, so reading the X track's start value for the Y
    angle gives the same number. *)
Lemma tetra_angles_on_shipped_keyframes tX tY :
  TetraShape.angleX tX = Observe.interpolated (TetraShape.trackAt tX) /\
  TetraShape.angleY tX tY = Observe.interpolated (TetraShape.trackAt tY).
Proof. split; reflexivity. Qed.

Lemma three_keyframes_at_1200 :
  Observe.reading (TetraShape.threeKeyFrames 1200)
  = (1 / 2 * PI, 2 * PI, (1200 - 1000) / (2000 - 1000)).
Proof.
  unfold Observe.reading, getStartData, getEndData, factor, factorAt,
    bracketAt, clampTime, firstKeyframeTime, lastKeyframeTime,
    TetraShape.threeKeyFrames.
  simpl.
  rewrite (Rmin_left 1200 2000) by lra. rewrite (Rmax_right 0 1200) by lra.
  rewrite (ltb_false 1200 1000) by lra.
  rewrite eqb_false by lra.
  reflexivity.
Qed.

Lemma three_keyframes_at_840 :
  Observe.reading (TetraShape.threeKeyFrames 840)
  = (0, 1 / 2 * PI, (840 - 0) / (1000 - 0)).
Proof.
  unfold Observe.reading, getStartData, getEndData, factor, factorAt,
    bracketAt, clampTime, firstKeyframeTime, lastKeyframeTime,
    TetraShape.threeKeyFrames.
  simpl.
  rewrite (Rmin_left 840 2000) by lra. rewrite (Rmax_right 0 840) by lra.
  rewrite (ltb_true 840 1000) by lra.
  rewrite eqb_false by lra.
  reflexivity.
Qed.

End AngleFacts.

(** In [MainTetra.rotations] and [Part001.rotations] the Y angle subtracts
    the X track's start value ([startRotationX], where the X angle and the
    angle of the icosphere programs subtract the start value of their own
    track).  On tracks whose start values differ, here the tracks with the
    keyframe [[1000, 0.5 * Math.PI]] in place, X at 1200 ms and Y at 840 ms,
    the Y angle computed is 0 while the interpolation on the Y track is
    [21/50 * π]. *)
Lemma rotationY_reads_the_X_start :
  MainTetra.rotations TetraShape.theApp TetraShape.threeKeyWorld
    = Some ((Observe.interpolated (TetraShape.threeKeyFrames 1200), 0),
            TetraShape.threeKeyWorld) /\
  Part001.rotations Part001Shape.theApp Part001Shape.threeKeyWorld
    = Some ((Observe.interpolated (Part001Shape.threeKeyFrames 1200), 0),
            Part001Shape.threeKeyWorld) /\
  Observe.interpolated (TetraShape.threeKeyFrames 840) = 21 / 50 * PI /\
  Observe.interpolated (TetraShape.threeKeyFrames 840) <> 0.
Proof.
  destruct (reading_parts _ _ _ _ three_keyframes_at_1200) as (SX & EX & FX).
  destruct (reading_parts _ _ _ _ three_keyframes_at_840) as (SY & EY & FY).
  assert (HY : Observe.interpolated (TetraShape.threeKeyFrames 840) = 21 / 50 * PI).
  { unfold Observe.interpolated. rewrite SY, EY, FY. field. }
  repeat split.
  - unfold MainTetra.rotations, TetraShape.theApp, TetraShape.threeKeyWorld.
    run. unfold Observe.interpolated.
    rewrite SX, SY, EY, FY, EX, FX.
    do 3 f_equal. field.
  - unfold Part001.rotations, Part001Shape.theApp, Part001Shape.threeKeyWorld.
    run. unfold Observe.interpolated.
    change (Part001Shape.threeKeyFrames 1200) with (TetraShape.threeKeyFrames 1200).
    change (Part001Shape.threeKeyFrames 840) with (TetraShape.threeKeyFrames 840).
    rewrite SX, SY, EY, FY, EX, FX.
    do 3 f_equal. field.
  - exact HY.
  - rewrite HY. pose proof PI_RGT_0. lra.
Qed.

(** No run of the two programs reaches such a world: the tracks of a run
    have the two keyframes of [keyFrameData]. *)
Lemma threeKeyWorld_unreachable :
  (forall this, ~ MainTetra.Reachable this TetraShape.threeKeyWorld) /\
  (forall this, ~ Part001.Reachable this Part001Shape.threeKeyWorld).
Proof.
  split; intros this Hr.
  - destruct (tetra_reachable_inv _ _ Hr)
      as [-> (P & rest & tX & tY & eX & eY & au & cs & E & Hk)].
    apply (f_equal Luma.tracks) in E. discriminate E.
  - destruct (p001_reachable_inv _ _ Hr)
      as [-> (P & rest & tX & tY & eX & eY & au & cs & E & Hk)].
    apply (f_equal Luma.tracks) in E. discriminate E.
Qed.



(** C2: the X track of the first program has the keyframes
    [(0, 0), (2000, 2π)] and is attached to a channel of duration 2000 that
    repeats for ever; once the timeline has advanced by 1000 ms from the
    start, the track is at time 1000 and its interpolated value, the
    [evaluate] of the spec and the X angle of [onRender] alike, is [π]
    (so within 1e-6 of it). *)
Theorem C2_half_way_is_pi :
  exists w0 w1 k c ry,
    MainTetra.construct Luma.emptyWorld = Some (TetraShape.theApp, w0) /\
    Luma.AnimationLoop_tick 1000 w0 = Some (tt, w1) /\
    Luma.tracks w1 !! MainTetra.keyFramesX TetraShape.theApp = Some k /\
    Observe.attached w1 k c /\
    Luma.keyframesOf k = [(0, 0); (2000, 2 * PI)] /\
    Luma.durationMs c = 2000 /\ Luma.repeatCount c = Luma.Infinite /\
    Luma.kf_time k = 1000 /\
    Luma.evaluate k (Luma.kf_time k) = PI /\
    Rabs (Luma.evaluate k (Luma.kf_time k) - PI) <= 1 / 1000000 /\
    MainTetra.rotations TetraShape.theApp w1 = Some ((PI, ry), w1) /\
    Rabs (Observe.interpolated k - PI) <= 1 / 1000000.
Proof.
  assert (Ht : JS.rem (0 + 1000) 2000 * 1 = 1000).
  { replace (0 + 1000) with 1000 by lra. rewrite rem_small; lra. }
  destruct (reading_parts _ _ _ _
              (two_keyframes_reading 2000 (2 * PI) 1000 ltac:(lra) ltac:(lra)))
    as (S & E & F).
  assert (Hi : Observe.interpolated (TetraShape.trackAt 1000) = PI).
  { unfold Observe.interpolated, TetraShape.trackAt. rewrite S, E, F. field. }
  assert (He : Luma.evaluate (TetraShape.trackAt 1000) 1000 = PI).
  { exact Hi. }
  eexists. eexists. exists (TetraShape.trackAt 1000), (TetraShape.channelX (0 + 1000)).
  eexists.
  split; [apply tetra_construct |].
  split; [apply tetra_tick |].
  rewrite Ht.
  split; [reflexivity |].
  split.
  { exists 0%nat. eexists. exists 0%nat, 0%nat.
    repeat split; try reflexivity. simpl. now left. }
  split; [reflexivity |].
  split; [reflexivity |].
  split; [reflexivity |].
  split; [reflexivity |].
  simpl Luma.kf_time. rewrite He.
  split; [reflexivity |].
  split; [rewrite Rminus_diag, Rabs_R0; lra |].
  split.
  - rewrite tetra_rotations. do 2 f_equal.
    destruct (tetra_angles_on_shipped_keyframes 1000
                (JS.rem (0 + 1000) (2000 / (7 / 10)) * (7 / 10))) as [HX _].
    rewrite HX, Hi. reflexivity.
  - rewrite Hi, Rminus_diag, Rabs_R0. lra.
Qed.

(** ** Camera, light and animation state (claim C3) *)

(** C3: in each of the four programs, every world the program reaches holds
    the view matrix and the camera-space light position computed by the
    constructor ([lookAt] from the eye position; [lightPosition] transformed
    by the view matrix as a point); [onRender] succeeds there and leaves
    the view matrix, the lighting block, the tracks and the timeline as they
    were, so that rendering the frame again gives the same uniforms. *)
Theorem C3_frame_keeps_camera_light_and_animation :
  (forall this w, MainTetra.Reachable this w ->
     let view := MathGL.lookAt MainTetra.eyePosition MathGL.defaultCenter
                   MathGL.defaultUp in
     Luma.matrices w !! MainTetra.viewMatrix this = Some view /\
     Luma.lightingUniforms w
       = {[ "lightPosition" := MathGL.transformAsPoint view MainTetra.lightPosition ]} /\
     forall aspect, exists w',
       MainTetra.onRender this aspect w = Some (tt, w') /\
       Observe.sameScene (MainTetra.viewMatrix this) w w' /\
       exists w'', MainTetra.onRender this aspect w' = Some (tt, w'') /\
                   Luma.appUniforms w'' = Luma.appUniforms w') /\
  (forall this w, Part001.Reachable this w ->
     let view := MathGL.lookAt Part001.eyePosition MathGL.defaultCenter
                   MathGL.defaultUp in
     Luma.matrices w !! Part001.viewMatrix this = Some view /\
     Luma.lightingUniforms w
       = {[ "lightPosition" := MathGL.transformAsPoint view Part001.lightPosition ]} /\
     forall aspect, exists w',
       Part001.onRender this aspect w = Some (tt, w') /\
       Observe.sameScene (Part001.viewMatrix this) w w' /\
       exists w'', Part001.onRender this aspect w' = Some (tt, w'') /\
                   Luma.appUniforms w'' = Luma.appUniforms w') /\
  (forall mesh this w, Part000.Reachable mesh this w ->
     let view := MathGL.lookAt Part000.eyePosition MathGL.defaultCenter
                   MathGL.defaultUp in
     Luma.matrices w !! Part000.viewMatrix this = Some view /\
     Luma.lightingUniforms w
       = {[ "lightPosition" := MathGL.transformAsPoint view Part000.lightPosition ]} /\
     forall aspect, exists w',
       Part000.onRender this aspect w = Some (tt, w') /\
       Observe.sameScene (Part000.viewMatrix this) w w' /\
       exists w'', Part000.onRender this aspect w' = Some (tt, w'') /\
                   Luma.appUniforms w'' = Luma.appUniforms w') /\
  (forall mesh this w, MainIco.Reachable mesh this w ->
     let view := MathGL.lookAt MainIco.eyePosition MathGL.defaultCenter
                   MathGL.defaultUp in
     Luma.matrices w !! MainIco.viewMatrix this = Some view /\
     Luma.lightingUniforms w
       = {[ "lightPosition" := MathGL.transformAsPoint view MainIco.lightPosition ]} /\
     forall aspect, exists w',
       MainIco.onRender this aspect w = Some (tt, w') /\
       Observe.sameScene (MainIco.viewMatrix this) w w' /\
       exists w'', MainIco.onRender this aspect w' = Some (tt, w'') /\
                   Luma.appUniforms w'' = Luma.appUniforms w').
Proof.
  split; [| split; [| split]].
  - intros this w Hr view.
    destruct (tetra_reachable_inv _ _ Hr)
      as [-> (P & rest & tX & tY & eX & eY & au & cs & -> & Hk)].
    split; [reflexivity |]. split; [reflexivity |].
    intros aspect. eexists. split; [apply tetra_frame |].
    split; [repeat split |].
    eexists. split; [apply tetra_frame |].
    simpl. apply onlyKeys_overwritten; [now apply onlyKeys_insert | exact Hk].
  - intros this w Hr view.
    destruct (p001_reachable_inv _ _ Hr)
      as [-> (P & rest & tX & tY & eX & eY & au & cs & -> & Hk)].
    split; [reflexivity |]. split; [reflexivity |].
    intros aspect. eexists. split; [apply p001_frame |].
    split; [repeat split |].
    eexists. split; [apply p001_frame |].
    simpl. apply onlyKeys_overwritten; [now apply onlyKeys_insert | exact Hk].
  - intros mesh this w Hr view.
    destruct (p000_reachable_inv _ _ _ Hr)
      as [-> (data & P & rest & t & e & au & cs & Hd & -> & Hk)].
    split; [reflexivity |]. split; [reflexivity |].
    intros aspect. eexists. split; [apply p000_frame |].
    split; [repeat split |].
    eexists. split; [apply p000_frame |].
    simpl. apply onlyKeys_overwritten; [now apply onlyKeys_insert | exact Hk].
  - intros mesh this w Hr view.
    destruct (ico_reachable_inv _ _ _ Hr)
      as [-> (data & P & rest & t & e & au & cs & Hd & -> & Hk)].
    split; [reflexivity |]. split; [reflexivity |].
    intros aspect. eexists. split; [apply ico_frame |].
    split; [repeat split |].
    eexists. split; [apply ico_frame |].
    simpl. apply onlyKeys_overwritten; [now apply onlyKeys_insert | exact Hk].
Qed.

(** ** The matrices of a frame (claims C4, C5) *)

(** C4: in the program that computes a model-view-projection matrix, every
    frame uploads [mvpMatrix = projection * modelView], where [projection]
    is the perspective matrix of that frame's aspect ratio and [modelView]
    is the view matrix times the rotations about X, Y and Z by the angles
    of the frame (the matrix uploaded as [mvMatrix]). *)
Theorem C4_mvp_is_projection_times_modelview :
  forall this w aspect, MainTetra.Reachable this w ->
    exists rx ry w',
      MainTetra.rotations this w = Some ((rx, ry), w) /\
      MainTetra.onRender this aspect w = Some (tt, w') /\
      let view := MathGL.lookAt MainTetra.eyePosition MathGL.defaultCenter
                    MathGL.defaultUp in
      let projection :=
        MathGL.perspective (PI / 3) aspect MathGL.defaultNear MathGL.defaultFar in
      let modelView :=
        MathGL.mmul (MathGL.mmul (MathGL.mmul view (MathGL.Rx rx)) (MathGL.Ry ry))
                    (MathGL.Rz 0) in
      Luma.appUniforms w' !! "mvMatrix" = Some modelView /\
      Luma.appUniforms w' !! "mvpMatrix" = Some (MathGL.mmul projection modelView).
Proof.
  intros this w aspect Hr.
  destruct (tetra_reachable_inv _ _ Hr)
    as [-> (P & rest & tX & tY & eX & eY & au & cs & -> & Hk)].
  exists (TetraShape.angleX tX), (TetraShape.angleY tX tY). eexists.
  split; [apply tetra_rotations |].
  split; [apply tetra_frame |].
  cbv beta zeta iota delta [TetraShape.shape Luma.appUniforms]. split.
  - rewrite lookup_insert_ne by discriminate. rewrite lookup_insert_eq.
    now rewrite rotateXYZ_mmul.
  - rewrite lookup_insert_eq.
    now rewrite multiplyRight_mmul, rotateXYZ_mmul.
Qed.

(** C4 at the first frame of a run, with the aspect ratio 16/9. *)
Lemma C4_witness :
  exists rx ry w',
    MainTetra.rotations TetraShape.theApp
      (TetraShape.shape MathGL.identity [] (JS.rem 0 2000 * 1)
         (JS.rem 0 (2000 / (7 / 10)) * (7 / 10)) 0 0 ∅ []) = Some ((rx, ry), 
      TetraShape.shape MathGL.identity [] (JS.rem 0 2000 * 1)
         (JS.rem 0 (2000 / (7 / 10)) * (7 / 10)) 0 0 ∅ []) /\
    MainTetra.onRender TetraShape.theApp (16 / 9)
      (TetraShape.shape MathGL.identity [] (JS.rem 0 2000 * 1)
         (JS.rem 0 (2000 / (7 / 10)) * (7 / 10)) 0 0 ∅ []) = Some (tt, w') /\
    Luma.appUniforms w' !! "mvMatrix"
      = Some (MathGL.mmul (MathGL.mmul (MathGL.mmul TetraShape.view (MathGL.Rx rx))
                                       (MathGL.Ry ry)) (MathGL.Rz 0)) /\
    Luma.appUniforms w' !! "mvpMatrix"
      = Some (MathGL.mmul
                (MathGL.perspective (PI / 3) (16 / 9) MathGL.defaultNear
                   MathGL.defaultFar)
                (MathGL.mmul (MathGL.mmul (MathGL.mmul TetraShape.view (MathGL.Rx rx))
                                          (MathGL.Ry ry)) (MathGL.Rz 0))).
Proof.
  apply (C4_mvp_is_projection_times_modelview TetraShape.theApp).
  apply MainTetra.reach_construct. exact tetra_construct.
Defined.

(** At the start of a run both tracks are at time 0 and both angles are 0. *)
Lemma angles_at_start :
  TetraShape.angleX (JS.rem 0 2000 * 1) = 0 /\
  TetraShape.angleY (JS.rem 0 2000 * 1) (JS.rem 0 (2000 / (7 / 10)) * (7 / 10)) = 0 /\
  IcoShape.angle (JS.rem 0 5000 * 1) = 0.
Proof.
  rewrite !rem_small by lra. rewrite !Rmult_0_l.
  destruct (reading_parts _ _ _ _
              (two_keyframes_reading 2000 (2 * PI) 0 ltac:(lra) ltac:(lra)))
    as (S2 & E2 & F2).
  destruct (reading_parts _ _ _ _
              (two_keyframes_reading 5000 (2 * PI) 0 ltac:(lra) ltac:(lra)))
    as (S5 & E5 & F5).
  unfold TetraShape.angleX, TetraShape.angleY, IcoShape.angle,
    TetraShape.trackAt, IcoShape.trackAt.
  rewrite S2, E2, F2, S5, E5, F5. repeat split; field.
Qed.

(** C5: in every frame in which the angles read from the tracks are all 0,
    the model-view matrix the frame uploads is the look-at matrix of the
    program's eye position. *)
Theorem C5_zero_rotation_gives_the_view_matrix :
  (forall this w aspect, MainTetra.Reachable this w ->
     MainTetra.rotations this w = Some ((0, 0), w) ->
     exists w', MainTetra.onRender this aspect w = Some (tt, w') /\
       Luma.appUniforms w' !! "mvMatrix"
       = Some (MathGL.lookAt MainTetra.eyePosition MathGL.defaultCenter
                 MathGL.defaultUp)) /\
  (forall this w aspect, Part001.Reachable this w ->
     Part001.rotations this w = Some ((0, 0), w) ->
     exists w', Part001.onRender this aspect w = Some (tt, w') /\
       Luma.appUniforms w' !! "modelViewMatrix"
       = Some (MathGL.lookAt Part001.eyePosition MathGL.defaultCenter
                 MathGL.defaultUp)) /\
  (forall mesh this w aspect, Part000.Reachable mesh this w ->
     Part000.rotationOf this w = Some (0, w) ->
     exists w', Part000.onRender this aspect w = Some (tt, w') /\
       Luma.appUniforms w' !! "modelViewMatrix"
       = Some (MathGL.lookAt Part000.eyePosition MathGL.defaultCenter
                 MathGL.defaultUp)) /\
  (forall mesh this w aspect, MainIco.Reachable mesh this w ->
     MainIco.rotationOf this w = Some (0, w) ->
     exists w', MainIco.onRender this aspect w = Some (tt, w') /\
       Luma.appUniforms w' !! "modelViewMatrix"
       = Some (MathGL.lookAt MainIco.eyePosition MathGL.defaultCenter
                 MathGL.defaultUp)).
Proof.
  split; [| split; [| split]].
  - intros this w aspect Hr H0.
    destruct (tetra_reachable_inv _ _ Hr)
      as [-> (P & rest & tX & tY & eX & eY & au & cs & -> & Hk)].
    rewrite tetra_rotations in H0. injection H0 as HX HY.
    eexists. split; [apply tetra_frame |].
    cbv beta zeta iota delta [TetraShape.shape Luma.appUniforms].
    rewrite lookup_insert_ne by discriminate. rewrite lookup_insert_eq.
    now rewrite HX, HY, rotateXYZ_zero.
  - intros this w aspect Hr H0.
    destruct (p001_reachable_inv _ _ Hr)
      as [-> (P & rest & tX & tY & eX & eY & au & cs & -> & Hk)].
    rewrite p001_rotations in H0. injection H0 as HX HY.
    eexists. split; [apply p001_frame |].
    cbv beta zeta iota delta [Part001Shape.shape Luma.appUniforms].
    rewrite lookup_insert_eq.
    now rewrite HX, HY, rotateXYZ_zero.
  - intros mesh this w aspect Hr H0.
    destruct (p000_reachable_inv _ _ _ Hr)
      as [-> (data & P & rest & t & e & au & cs & Hd & -> & Hk)].
    rewrite p000_rotationOf in H0. injection H0 as HA.
    eexists. split; [apply p000_frame |].
    cbv beta zeta iota delta [IcoShape.shape Luma.appUniforms].
    rewrite lookup_insert_eq.
    now rewrite HA, rotateY_zero.
  - intros mesh this w aspect Hr H0.
    destruct (ico_reachable_inv _ _ _ Hr)
      as [-> (data & P & rest & t & e & au & cs & Hd & -> & Hk)].
    rewrite ico_rotationOf in H0. injection H0 as HA.
    eexists. split; [apply ico_frame |].
    cbv beta zeta iota delta [IcoShape.shape Luma.appUniforms].
    rewrite lookup_insert_eq.
    now rewrite HA, rotateY_zero.
Qed.

(** The programs run on the one-triangle mesh. *)
Lemma oneTriangle_data :
  exists data, Part000.vertexData IcoShape.oneTriangle = Some data.
Proof.
  destruct (vertexData_wellFormed _ oneTriangle_wellFormed) as (data & Hd & _).
  now exists data.
Qed.

Lemma tetra_reachable_start :
  MainTetra.Reachable TetraShape.theApp
    (TetraShape.shape MathGL.identity [] (JS.rem 0 2000 * 1)
       (JS.rem 0 (2000 / (7 / 10)) * (7 / 10)) 0 0 ∅ []).
Proof. apply MainTetra.reach_construct, tetra_construct. Qed.

Lemma p001_reachable_start :
  Part001.Reachable Part001Shape.theApp
    (Part001Shape.shape MathGL.identity [] (JS.rem 0 2000 * 1)
       (JS.rem 0 (2000 / (7 / 10)) * (7 / 10)) 0 0 ∅ []).
Proof. apply Part001.reach_construct, p001_construct. Qed.

Lemma p000_reachable_start data :
  Part000.vertexData IcoShape.oneTriangle = Some data ->
  Part000.Reachable IcoShape.oneTriangle (IcoShape.app000 IcoShape.oneTriangle)
    (IcoShape.shape data MathGL.identity [] (JS.rem 0 5000 * 1) 0 ∅ []).
Proof. intros Hd. apply Part000.reach_construct, p000_construct, Hd. Qed.

Lemma ico_reachable_start data :
  Part000.vertexData IcoShape.oneTriangle = Some data ->
  MainIco.Reachable IcoShape.oneTriangle (IcoShape.appIco IcoShape.oneTriangle)
    (IcoShape.shape data MathGL.identity [] (JS.rem 0 5000 * 1) 0 ∅ []).
Proof.
  intros Hd.
  eapply MainIco.reach_initialize; [apply ico_construct | apply ico_initialize, Hd].
Qed.

(** C5 at the first frame of a run of each program, where the tracks are at
    time 0 and the angles are 0. *)
Lemma C5_witness :
  exists data w1 w2 w3 w4,
    (MainTetra.onRender TetraShape.theApp 1
       (TetraShape.shape MathGL.identity [] (JS.rem 0 2000 * 1)
          (JS.rem 0 (2000 / (7 / 10)) * (7 / 10)) 0 0 ∅ []) = Some (tt, w1) /\
     Luma.appUniforms w1 !! "mvMatrix" = Some TetraShape.view) /\
    (Part001.onRender Part001Shape.theApp 1
       (Part001Shape.shape MathGL.identity [] (JS.rem 0 2000 * 1)
          (JS.rem 0 (2000 / (7 / 10)) * (7 / 10)) 0 0 ∅ []) = Some (tt, w2) /\
     Luma.appUniforms w2 !! "modelViewMatrix" = Some Part001Shape.view) /\
    (Part000.onRender (IcoShape.app000 IcoShape.oneTriangle) 1
       (IcoShape.shape data MathGL.identity [] (JS.rem 0 5000 * 1) 0 ∅ [])
       = Some (tt, w3) /\
     Luma.appUniforms w3 !! "modelViewMatrix" = Some IcoShape.view) /\
    (MainIco.onRender (IcoShape.appIco IcoShape.oneTriangle) 1
       (IcoShape.shape data MathGL.identity [] (JS.rem 0 5000 * 1) 0 ∅ [])
       = Some (tt, w4) /\
     Luma.appUniforms w4 !! "modelViewMatrix" = Some IcoShape.view).
Proof.
  destruct oneTriangle_data as [data Hd].
  destruct angles_at_start as (AX & AY & AI).
  destruct C5_zero_rotation_gives_the_view_matrix as (H1 & H2 & H3 & H4).
  destruct (H1 _ _ 1 tetra_reachable_start) as (w1 & E1 & U1).
  { rewrite tetra_rotations, AX, AY. reflexivity. }
  destruct (H2 _ _ 1 p001_reachable_start) as (w2 & E2 & U2).
  { rewrite p001_rotations. change Part001Shape.angleX with TetraShape.angleX.
    change Part001Shape.angleY with TetraShape.angleY.
    rewrite AX, AY. reflexivity. }
  destruct (H3 _ _ _ 1 (p000_reachable_start data Hd)) as (w3 & E3 & U3).
  { rewrite p000_rotationOf, AI. reflexivity. }
  destruct (H4 _ _ _ 1 (ico_reachable_start data Hd)) as (w4 & E4 & U4).
  { rewrite ico_rotationOf, AI. reflexivity. }
  exists data, w1, w2, w3, w4. repeat split; assumption.
Defined.

(** ** Keyframes and channels (claim C6) *)

Section AttachedFacts.
Import Luma.

Lemma tetra_attached P rest tX tY eX eY au cs k c :
  Observe.attached (TetraShape.shape P rest tX tY eX eY au cs) k c ->
  (k = TetraShape.trackAt tX /\ c = TetraShape.channelX eX) \/
  (k = TetraShape.trackAt tY /\ c = TetraShape.channelY eY).
Proof.
  intros (tl & t & track & ch & Hl & Ht & Hin & Hk & Hc).
  simpl in Hl. injection Hl as <-. simpl in Ht. injection Ht as <-.
  simpl in Hin. destruct Hin as [E | [E | []]]; injection E as <- <-;
    simpl in Hk, Hc; injection Hk as <-; injection Hc as <-; auto.
Qed.

Lemma p001_attached P rest tX tY eX eY au cs k c :
  Observe.attached (Part001Shape.shape P rest tX tY eX eY au cs) k c ->
  (k = Part001Shape.trackAt tX /\ c = Part001Shape.channelX eX) \/
  (k = Part001Shape.trackAt tY /\ c = Part001Shape.channelY eY).
Proof.
  intros (tl & t & track & ch & Hl & Ht & Hin & Hk & Hc).
  simpl in Hl. injection Hl as <-. simpl in Ht. injection Ht as <-.
  simpl in Hin. destruct Hin as [E | [E | []]]; injection E as <- <-;
    simpl in Hk, Hc; injection Hk as <-; injection Hc as <-; auto.
Qed.

Lemma ico_attached data P rest t e au cs k c :
  Observe.attached (IcoShape.shape data P rest t e au cs) k c ->
  k = IcoShape.trackAt t /\ c = IcoShape.rotationChannel e.
Proof.
  intros (tl & tm & track & ch & Hl & Ht & Hin & Hk & Hc).
  simpl in Hl. injection Hl as <-. simpl in Ht. injection Ht as <-.
  simpl in Hin. destruct Hin as [E | []]; injection E as <- <-;
    simpl in Hk, Hc; injection Hk as <-; injection Hc as <-; auto.
Qed.

(** The tracks of each program are attached: X to the first channel, Y to
    the second. *)
Lemma tetra_attached_X P rest tX tY eX eY au cs :
  Observe.attached (TetraShape.shape P rest tX tY eX eY au cs)
    (TetraShape.trackAt tX) (TetraShape.channelX eX).
Proof.
  exists 0%nat. eexists. exists 0%nat, 0%nat.
  repeat split; try reflexivity. simpl. now left.
Qed.

Lemma tetra_attached_Y P rest tX tY eX eY au cs :
  Observe.attached (TetraShape.shape P rest tX tY eX eY au cs)
    (TetraShape.trackAt tY) (TetraShape.channelY eY).
Proof.
  exists 0%nat. eexists. exists 1%nat, 1%nat.
  repeat split; try reflexivity. simpl. right. now left.
Qed.

Lemma p001_attached_X P rest tX tY eX eY au cs :
  Observe.attached (Part001Shape.shape P rest tX tY eX eY au cs)
    (Part001Shape.trackAt tX) (Part001Shape.channelX eX).
Proof.
  exists 0%nat. eexists. exists 0%nat, 0%nat.
  repeat split; try reflexivity. simpl. now left.
Qed.

Lemma p001_attached_Y P rest tX tY eX eY au cs :
  Observe.attached (Part001Shape.shape P rest tX tY eX eY au cs)
    (Part001Shape.trackAt tY) (Part001Shape.channelY eY).
Proof.
  exists 0%nat. eexists. exists 1%nat, 1%nat.
  repeat split; try reflexivity. simpl. right. now left.
Qed.

Lemma ico_attached_track data P rest t e au cs :
  Observe.attached (IcoShape.shape data P rest t e au cs)
    (IcoShape.trackAt t) (IcoShape.rotationChannel e).
Proof.
  exists 0%nat. eexists. exists 0%nat, 0%nat.
  repeat split; try reflexivity. simpl. now left.
Qed.

(** A track from [(0, 0)] to [(T, 2π)], on a channel whose duration times
    its rate is [T]. *)
Lemma full_turn T r d t e :
  0 < T -> d * r = T ->
  kf_first (mkKeyFrames (0, 0) [(T, 2 * PI)] t) = (0, 0) /\
  List.last (kf_rest (mkKeyFrames (0, 0) [(T, 2 * PI)] t))
            (kf_first (mkKeyFrames (0, 0) [(T, 2 * PI)] t))
    = (durationMs (mkChannel d Infinite r e) * rate (mkChannel d Infinite r e),
       2 * PI) /\
  evaluate (mkKeyFrames (0, 0) [(T, 2 * PI)] t) 0 = 0 /\
  evaluate (mkKeyFrames (0, 0) [(T, 2 * PI)] t)
           (durationMs (mkChannel d Infinite r e) * rate (mkChannel d Infinite r e))
    = 2 * PI.
Proof.
  intros HT Hd. simpl durationMs. simpl rate. rewrite Hd.
  split; [reflexivity |]. split; [reflexivity |].
  rewrite !two_keyframes_evaluate by lra.
  split; field; lra.
Qed.

Lemma full_turn_2000 t :
  (forall e,
     kf_first (TetraShape.trackAt t) = (0, 0) /\
     List.last (kf_rest (TetraShape.trackAt t)) (kf_first (TetraShape.trackAt t))
       = (durationMs (TetraShape.channelX e) * rate (TetraShape.channelX e),
          2 * PI) /\
     evaluate (TetraShape.trackAt t) 0 = 0 /\
     evaluate (TetraShape.trackAt t)
              (durationMs (TetraShape.channelX e) * rate (TetraShape.channelX e))
       = 2 * PI) /\
  (forall e,
     kf_first (TetraShape.trackAt t) = (0, 0) /\
     List.last (kf_rest (TetraShape.trackAt t)) (kf_first (TetraShape.trackAt t))
       = (durationMs (TetraShape.channelY e) * rate (TetraShape.channelY e),
          2 * PI) /\
     evaluate (TetraShape.trackAt t) 0 = 0 /\
     evaluate (TetraShape.trackAt t)
              (durationMs (TetraShape.channelY e) * rate (TetraShape.channelY e))
       = 2 * PI).
Proof.
  split; intros e.
  - apply (full_turn 2000 1); lra.
  - apply (full_turn 2000 (7 / 10)); [lra | field].
Qed.

(** [a % b] is in [0, b), and adding [b] does not change it. *)
Lemma rem_range a b : 0 < b -> 0 <= JS.rem a b < b.
Proof.
  intros Hb. unfold JS.rem, JS.floor.
  destruct (base_Int_part (a / b)) as [H1 H2].
  assert (E : a / b * b = a) by (field; lra).
  set (x := a / b) in *. set (q := IZR (Int_part x)) in *.
  split.
  - assert (q * b <= x * b) by (apply Rmult_le_compat_r; lra). lra.
  - assert ((x - q) * b < 1 * b) by (apply Rmult_lt_compat_r; lra). lra.
Qed.

Lemma rem_period a b : 0 < b -> JS.rem (a + b) b = JS.rem a b.
Proof.
  intros Hb. unfold JS.rem, JS.floor.
  assert (E : (a + b) / b = a / b + 1) by (field; lra).
  rewrite E.
  assert (Z : Int_part (a / b + 1) = (Int_part (a / b) + 1)%Z).
  { symmetry. apply Int_part_spec. rewrite plus_IZR.
    destruct (base_Int_part (a / b)). simpl. lra. }
  rewrite Z, plus_IZR. simpl. ring.
Qed.

(** A channel that repeats for ever, of duration [dur] and rate [r], and a
    track from [(0, 0)] to [(T, 2π)] at the channel's time, where
    [dur * r = T]: the track's angle is [2π] times the channel's phase, and
    the phase is the same one duration later. *)
Lemma angle_is_phase T dur r e :
  0 < dur -> 0 < r -> dur * r = T ->
  0 <= Observe.phase (mkChannel dur Infinite r e) < 1 /\
  Observe.interpolated (mkKeyFrames (0, 0) [(T, 2 * PI)] (JS.rem e dur * r))
    = 2 * PI * Observe.phase (mkChannel dur Infinite r e) /\
  Observe.phase (advanceChannel dur (mkChannel dur Infinite r e))
    = Observe.phase (mkChannel dur Infinite r e).
Proof.
  intros Hd Hr HT.
  rewrite advanceChannel_infinite.
  unfold Observe.phase, cyclePosition. simpl durationMs. simpl elapsedMs.
  destruct (rem_range e dur Hd) as [R0 R1].
  rewrite rem_period by exact Hd.
  set (x := JS.rem e dur) in *.
  assert (Hq : 0 <= x * r <= T).
  { split; [apply Rmult_le_pos; lra |].
    rewrite <- HT. apply Rmult_le_compat_r; lra. }
  assert (HTp : 0 < T) by (rewrite <- HT; apply Rmult_lt_0_compat; lra).
  split; [| split; [| reflexivity]].
  - split.
    + apply Rmult_le_pos; [lra |]. left. apply Rinv_0_lt_compat. lra.
    + apply Rmult_lt_reg_r with dur; [lra |].
      unfold Rdiv. rewrite Rmult_assoc, Rinv_l by lra. lra.
  - destruct (reading_parts _ _ _ _
                (two_keyframes_reading T (2 * PI) (x * r) HTp Hq))
      as (S & E & F).
    unfold Observe.interpolated. rewrite S, E, F. subst T. field. lra.
Qed.

(** The same for a track attached in a world. *)
Lemma turns_once w T dur r e :
  0 < dur -> 0 < r -> dur * r = T ->
  Observe.attached w (mkKeyFrames (0, 0) [(T, 2 * PI)] (JS.rem e dur * r))
    (mkChannel dur Infinite r e) ->
  (forall d, exists w',
     AnimationLoop_tick d w = Some (tt, w') /\
     Observe.attached w'
       (mkKeyFrames (0, 0) [(T, 2 * PI)] (JS.rem (e + d) dur * r))
       (mkChannel dur Infinite r (e + d))) ->
  Observe.turnsOncePerCycle w
    (mkKeyFrames (0, 0) [(T, 2 * PI)] (JS.rem e dur * r))
    (mkChannel dur Infinite r e).
Proof.
  intros Hd Hr HT Ha Hadv.
  destruct (angle_is_phase T dur r e Hd Hr HT) as (Hp & Hi & Hper).
  split; [exact Ha |]. split; [reflexivity |].
  split; [simpl; now rewrite HT |].
  split; [reflexivity |].
  split; [exact Hp |]. split; [exact Hi |]. split; [exact Hper |].
  exact Hadv.
Qed.

End AttachedFacts.

(** In every world of a run the tracks are at the times of their
    channels. *)
Lemma tetra_reachable_times this w :
  MainTetra.Reachable this w ->
  this = TetraShape.theApp /\
  exists P rest eX eY au cs,
    w = TetraShape.shape P rest (JS.rem eX 2000 * 1)
          (JS.rem eY (2000 / (7 / 10)) * (7 / 10)) eX eY au cs.
Proof.
  induction 1 as [this w Hc | this w d w' Hr IH Ht | this w a w' Hr IH Hf].
  - rewrite tetra_construct in Hc. inversion Hc; subst.
    split; [reflexivity |]. now do 6 eexists.
  - destruct IH as [-> (P & rest & eX & eY & au & cs & ->)].
    rewrite tetra_tick in Ht. inversion Ht; subst.
    split; [reflexivity |]. now do 6 eexists.
  - destruct IH as [-> (P & rest & eX & eY & au & cs & ->)].
    rewrite tetra_frame in Hf. inversion Hf; subst.
    split; [reflexivity |]. now do 6 eexists.
Qed.

Lemma p001_reachable_times this w :
  Part001.Reachable this w ->
  this = Part001Shape.theApp /\
  exists P rest eX eY au cs,
    w = Part001Shape.shape P rest (JS.rem eX 2000 * 1)
          (JS.rem eY (2000 / (7 / 10)) * (7 / 10)) eX eY au cs.
Proof.
  induction 1 as [this w Hc | this w d w' Hr IH Ht | this w a w' Hr IH Hf].
  - rewrite p001_construct in Hc. inversion Hc; subst.
    split; [reflexivity |]. now do 6 eexists.
  - destruct IH as [-> (P & rest & eX & eY & au & cs & ->)].
    rewrite p001_tick in Ht. inversion Ht; subst.
    split; [reflexivity |]. now do 6 eexists.
  - destruct IH as [-> (P & rest & eX & eY & au & cs & ->)].
    rewrite p001_frame in Hf. inversion Hf; subst.
    split; [reflexivity |]. now do 6 eexists.
Qed.

Lemma p000_reachable_times mesh this w :
  Part000.Reachable mesh this w ->
  this = IcoShape.app000 mesh /\
  exists data P rest e au cs,
    w = IcoShape.shape data P rest (JS.rem e 5000 * 1) e au cs.
Proof.
  induction 1 as [this w Hc | this w d w' Hr IH Ht | this w a w' Hr IH Hf].
  - destruct (p000_construct_data _ _ _ Hc) as [data Hd].
    rewrite (p000_construct _ _ Hd) in Hc. inversion Hc; subst.
    split; [reflexivity |]. now do 6 eexists.
  - destruct IH as [-> (data & P & rest & e & au & cs & ->)].
    rewrite ico_tick in Ht. inversion Ht; subst.
    split; [reflexivity |]. now do 6 eexists.
  - destruct IH as [-> (data & P & rest & e & au & cs & ->)].
    rewrite p000_frame in Hf. inversion Hf; subst.
    split; [reflexivity |]. now do 6 eexists.
Qed.

Lemma ico_reachable_times mesh this w :
  MainIco.Reachable mesh this w ->
  this = IcoShape.appIco mesh /\
  exists data P rest e au cs,
    w = IcoShape.shape data P rest (JS.rem e 5000 * 1) e au cs.
Proof.
  induction 1 as [this0 w0 this w Hc Hi | this w d w' Hr IH Ht
                 | this w a w' Hr IH Hf].
  - rewrite ico_construct in Hc. inversion Hc; subst.
    destruct (ico_initialize_data _ _ _ _ _ Hi) as [data Hd].
    rewrite (ico_initialize _ _ _ _ _ _ _ _ Hd) in Hi. inversion Hi; subst.
    split; [reflexivity |]. now do 6 eexists.
  - destruct IH as [-> (data & P & rest & e & au & cs & ->)].
    rewrite ico_tick in Ht. inversion Ht; subst.
    split; [reflexivity |]. now do 6 eexists.
  - destruct IH as [-> (data & P & rest & e & au & cs & ->)].
    rewrite ico_frame in Hf. inversion Hf; subst.
    split; [reflexivity |]. now do 6 eexists.
Qed.

(** The tracks of each program in the closed form of its worlds. *)
Lemma tetra_turns P rest eX eY au cs :
  let w := TetraShape.shape P rest (JS.rem eX 2000 * 1)
             (JS.rem eY (2000 / (7 / 10)) * (7 / 10)) eX eY au cs in
  Observe.turnsOncePerCycle w (TetraShape.trackAt (JS.rem eX 2000 * 1))
    (TetraShape.channelX eX) /\
  Observe.turnsOncePerCycle w
    (TetraShape.trackAt (JS.rem eY (2000 / (7 / 10)) * (7 / 10)))
    (TetraShape.channelY eY).
Proof.
  intros w. split.
  - apply (turns_once w 2000 2000 1 eX); [lra | lra | lra | |].
    + apply tetra_attached_X.
    + intros d. eexists. split; [apply tetra_tick |]. apply tetra_attached_X.
  - apply (turns_once w 2000 (2000 / (7 / 10)) (7 / 10) eY);
      [lra | lra | field | |].
    + apply tetra_attached_Y.
    + intros d. eexists. split; [apply tetra_tick |]. apply tetra_attached_Y.
Qed.

Lemma p001_turns P rest eX eY au cs :
  let w := Part001Shape.shape P rest (JS.rem eX 2000 * 1)
             (JS.rem eY (2000 / (7 / 10)) * (7 / 10)) eX eY au cs in
  Observe.turnsOncePerCycle w (Part001Shape.trackAt (JS.rem eX 2000 * 1))
    (Part001Shape.channelX eX) /\
  Observe.turnsOncePerCycle w
    (Part001Shape.trackAt (JS.rem eY (2000 / (7 / 10)) * (7 / 10)))
    (Part001Shape.channelY eY).
Proof.
  intros w. split.
  - apply (turns_once w 2000 2000 1 eX); [lra | lra | lra | |].
    + apply p001_attached_X.
    + intros d. eexists. split; [apply p001_tick |]. apply p001_attached_X.
  - apply (turns_once w 2000 (2000 / (7 / 10)) (7 / 10) eY);
      [lra | lra | field | |].
    + apply p001_attached_Y.
    + intros d. eexists. split; [apply p001_tick |]. apply p001_attached_Y.
Qed.

Lemma ico_turns data P rest e au cs :
  Observe.turnsOncePerCycle
    (IcoShape.shape data P rest (JS.rem e 5000 * 1) e au cs)
    (IcoShape.trackAt (JS.rem e 5000 * 1)) (IcoShape.rotationChannel e).
Proof.
  apply (turns_once _ 5000 5000 1 e); [lra | lra | lra | |].
  - apply ico_attached_track.
  - intros d. eexists. split; [apply ico_tick |]. apply ico_attached_track.
Qed.

(** C6, as stated, fails: in the first program the Y track ends at the
    keyframe time 2000, which is not the duration [2000 / 0.7] configured
    for its channel. *)
Lemma C6_counterexample :
  exists this w,
    MainTetra.construct Luma.emptyWorld = Some (this, w) /\
    ~ Observe.cycleIsFullTurn Luma.durationMs w.
Proof.
  eexists. eexists. split; [apply tetra_construct |].
  intros H.
  destruct (H _ _ (tetra_attached_Y _ _ _ _ _ _ _ _)) as (_ & Hlast & _).
  simpl in Hlast. injection Hlast as E. lra.
Qed.

(** C6, amended: in every world each of the four programs reaches, every
    rotation track of the program is attached to a channel of the loop's
    timeline that repeats for ever, and no other track is attached: the X
    and the Y track of the tetrahedron programs to channels of duration
    2000 and rate 1 and of duration 2000 / 0.7 and rate 0.7, the rotation
    track of the icosphere programs to a channel of duration 5000 and
    rate 1.  Each track runs from value 0 at time 0 to value [2π] at the
    keyframe time [duration * rate] of its channel (2000 * 1,
    (2000 / 0.7) * 0.7 and 5000 * 1; for the Y track this is not the
    duration of its channel) and is at the time of its channel; the angle
    [onRender] computes from it is [2π] times the phase of the channel, the
    position in the current cycle divided by the duration, which is in
    [0, 1); advancing the timeline advances every channel by the same time,
    and advancing a channel by its duration leaves its phase as it was: one
    cycle of the channel is one full turn. *)
Theorem C6_cycle_is_a_full_turn :
  (forall this w, MainTetra.Reachable this w ->
     exists kx ky cx cy,
       Luma.tracks w !! MainTetra.keyFramesX this = Some kx /\
       Luma.tracks w !! MainTetra.keyFramesY this = Some ky /\
       Observe.turnsOncePerCycle w kx cx /\
       Observe.turnsOncePerCycle w ky cy /\
       (Luma.durationMs cx, Luma.rate cx) = (2000, 1) /\
       (Luma.durationMs cy, Luma.rate cy) = (2000 / (7 / 10), 7 / 10) /\
       Luma.durationMs cy * Luma.rate cy <> Luma.durationMs cy /\
       (forall k c, Observe.attached w k c ->
          (k, c) = (kx, cx) \/ (k, c) = (ky, cy)) /\
       Observe.cycleIsFullTurn (fun c => Luma.durationMs c * Luma.rate c) w /\
       MainTetra.rotations this w
       = Some ((2 * PI * Observe.phase cx, 2 * PI * Observe.phase cy), w)) /\
  (forall this w, Part001.Reachable this w ->
     exists kx ky cx cy,
       Luma.tracks w !! Part001.keyFramesX this = Some kx /\
       Luma.tracks w !! Part001.keyFramesY this = Some ky /\
       Observe.turnsOncePerCycle w kx cx /\
       Observe.turnsOncePerCycle w ky cy /\
       (Luma.durationMs cx, Luma.rate cx) = (2000, 1) /\
       (Luma.durationMs cy, Luma.rate cy) = (2000 / (7 / 10), 7 / 10) /\
       Luma.durationMs cy * Luma.rate cy <> Luma.durationMs cy /\
       (forall k c, Observe.attached w k c ->
          (k, c) = (kx, cx) \/ (k, c) = (ky, cy)) /\
       Observe.cycleIsFullTurn (fun c => Luma.durationMs c * Luma.rate c) w /\
       Part001.rotations this w
       = Some ((2 * PI * Observe.phase cx, 2 * PI * Observe.phase cy), w)) /\
  (forall mesh this w, Part000.Reachable mesh this w ->
     exists k c,
       Luma.tracks w !! Part000.rotationKeyFrames this = Some k /\
       Observe.turnsOncePerCycle w k c /\
       (Luma.durationMs c, Luma.rate c) = (5000, 1) /\
       (forall k' c', Observe.attached w k' c' -> (k', c') = (k, c)) /\
       Observe.cycleIsFullTurn (fun c => Luma.durationMs c * Luma.rate c) w /\
       Part000.rotationOf this w = Some (2 * PI * Observe.phase c, w)) /\
  (forall mesh this w, MainIco.Reachable mesh this w ->
     exists k c,
       Luma.tracks w !! MainIco.rotationKeyFrames this = Some k /\
       Observe.turnsOncePerCycle w k c /\
       (Luma.durationMs c, Luma.rate c) = (5000, 1) /\
       (forall k' c', Observe.attached w k' c' -> (k', c') = (k, c)) /\
       Observe.cycleIsFullTurn (fun c => Luma.durationMs c * Luma.rate c) w /\
       MainIco.rotationOf this w = Some (2 * PI * Observe.phase c, w)).
Proof.
  split; [| split; [| split]].
  - intros this w Hr.
    destruct (tetra_reachable_times _ _ Hr)
      as [-> (P & rest & eX & eY & au & cs & ->)].
    destruct (tetra_turns P rest eX eY au cs) as [HX HY].
    exists (TetraShape.trackAt (JS.rem eX 2000 * 1)),
      (TetraShape.trackAt (JS.rem eY (2000 / (7 / 10)) * (7 / 10))),
      (TetraShape.channelX eX), (TetraShape.channelY eY).
    split; [reflexivity |]. split; [reflexivity |].
    split; [exact HX |]. split; [exact HY |].
    split; [reflexivity |]. split; [reflexivity |].
    split; [simpl; lra |].
    split.
    { intros k c Ha.
      destruct (tetra_attached _ _ _ _ _ _ _ _ _ _ Ha) as [[-> ->] | [-> ->]];
        auto. }
    split.
    { intros k c Ha.
      destruct (tetra_attached _ _ _ _ _ _ _ _ _ _ Ha) as [[-> ->] | [-> ->]];
        apply full_turn_2000. }
    rewrite tetra_rotations.
    destruct (tetra_angles_on_shipped_keyframes (JS.rem eX 2000 * 1)
                (JS.rem eY (2000 / (7 / 10)) * (7 / 10))) as [AX AY].
    destruct HX as (_ & _ & _ & _ & _ & IX & _).
    destruct HY as (_ & _ & _ & _ & _ & IY & _).
    rewrite AX, AY, IX, IY. reflexivity.
  - intros this w Hr.
    destruct (p001_reachable_times _ _ Hr)
      as [-> (P & rest & eX & eY & au & cs & ->)].
    destruct (p001_turns P rest eX eY au cs) as [HX HY].
    exists (Part001Shape.trackAt (JS.rem eX 2000 * 1)),
      (Part001Shape.trackAt (JS.rem eY (2000 / (7 / 10)) * (7 / 10))),
      (Part001Shape.channelX eX), (Part001Shape.channelY eY).
    split; [reflexivity |]. split; [reflexivity |].
    split; [exact HX |]. split; [exact HY |].
    split; [reflexivity |]. split; [reflexivity |].
    split; [simpl; lra |].
    split.
    { intros k c Ha.
      destruct (p001_attached _ _ _ _ _ _ _ _ _ _ Ha) as [[-> ->] | [-> ->]];
        auto. }
    split.
    { intros k c Ha.
      destruct (p001_attached _ _ _ _ _ _ _ _ _ _ Ha) as [[-> ->] | [-> ->]];
        apply full_turn_2000. }
    rewrite p001_rotations.
    change Part001Shape.angleX with TetraShape.angleX.
    change Part001Shape.angleY with TetraShape.angleY.
    destruct (tetra_angles_on_shipped_keyframes (JS.rem eX 2000 * 1)
                (JS.rem eY (2000 / (7 / 10)) * (7 / 10))) as [AX AY].
    destruct HX as (_ & _ & _ & _ & _ & IX & _).
    destruct HY as (_ & _ & _ & _ & _ & IY & _).
    rewrite AX, AY.
    change (TetraShape.trackAt (JS.rem eX 2000 * 1))
      with (Part001Shape.trackAt (JS.rem eX 2000 * 1)).
    change (TetraShape.trackAt (JS.rem eY (2000 / (7 / 10)) * (7 / 10)))
      with (Part001Shape.trackAt (JS.rem eY (2000 / (7 / 10)) * (7 / 10))).
    rewrite IX, IY. reflexivity.
  - intros mesh this w Hr.
    destruct (p000_reachable_times _ _ _ Hr)
      as [-> (data & P & rest & e & au & cs & ->)].
    pose proof (ico_turns data P rest e au cs) as HT.
    exists (IcoShape.trackAt (JS.rem e 5000 * 1)), (IcoShape.rotationChannel e).
    split; [reflexivity |]. split; [exact HT |]. split; [reflexivity |].
    split.
    { intros k c Ha.
      destruct (ico_attached _ _ _ _ _ _ _ _ _ Ha) as [-> ->]. reflexivity. }
    split.
    { intros k c Ha.
      destruct (ico_attached _ _ _ _ _ _ _ _ _ Ha) as [-> ->].
      apply (full_turn 5000 1); lra. }
    rewrite p000_rotationOf.
    destruct HT as (_ & _ & _ & _ & _ & IT & _).
    change (IcoShape.angle (JS.rem e 5000 * 1))
      with (Observe.interpolated (IcoShape.trackAt (JS.rem e 5000 * 1))).
    rewrite IT. reflexivity.
  - intros mesh this w Hr.
    destruct (ico_reachable_times _ _ _ Hr)
      as [-> (data & P & rest & e & au & cs & ->)].
    pose proof (ico_turns data P rest e au cs) as HT.
    exists (IcoShape.trackAt (JS.rem e 5000 * 1)), (IcoShape.rotationChannel e).
    split; [reflexivity |]. split; [exact HT |]. split; [reflexivity |].
    split.
    { intros k c Ha.
      destruct (ico_attached _ _ _ _ _ _ _ _ _ Ha) as [-> ->]. reflexivity. }
    split.
    { intros k c Ha.
      destruct (ico_attached _ _ _ _ _ _ _ _ _ Ha) as [-> ->].
      apply (full_turn 5000 1); lra. }
    rewrite ico_rotationOf.
    destruct HT as (_ & _ & _ & _ & _ & IT & _).
    change (IcoShape.angle (JS.rem e 5000 * 1))
      with (Observe.interpolated (IcoShape.trackAt (JS.rem e 5000 * 1))).
    rewrite IT. reflexivity.
Qed.

Lemma ico_reachable_tick data :
  Part000.vertexData IcoShape.oneTriangle = Some data ->
  MainIco.Reachable IcoShape.oneTriangle (IcoShape.appIco IcoShape.oneTriangle)
    (IcoShape.shape data MathGL.identity [] (JS.rem (0 + 16) 5000 * 1)
       (0 + 16) ∅ []).
Proof.
  intros Hd. eapply MainIco.reach_tick; [apply ico_reachable_start, Hd |].
  apply ico_tick.
Qed.

(** C6, amended, on the world the first program starts from, and on the
    world of the second program of src/main.ts (on the one-triangle mesh)
    after a 16 ms advance. *)
Lemma C6_witness :
  (exists kx ky cx cy,
     Observe.turnsOncePerCycle
       (TetraShape.shape MathGL.identity [] (JS.rem 0 2000 * 1)
          (JS.rem 0 (2000 / (7 / 10)) * (7 / 10)) 0 0 ∅ []) kx cx /\
     Observe.turnsOncePerCycle
       (TetraShape.shape MathGL.identity [] (JS.rem 0 2000 * 1)
          (JS.rem 0 (2000 / (7 / 10)) * (7 / 10)) 0 0 ∅ []) ky cy /\
     (Luma.durationMs cx, Luma.rate cx) = (2000, 1) /\
     (Luma.durationMs cy, Luma.rate cy) = (2000 / (7 / 10), 7 / 10) /\
     Observe.cycleIsFullTurn (fun c => Luma.durationMs c * Luma.rate c)
       (TetraShape.shape MathGL.identity [] (JS.rem 0 2000 * 1)
          (JS.rem 0 (2000 / (7 / 10)) * (7 / 10)) 0 0 ∅ []) /\
     MainTetra.rotations TetraShape.theApp
       (TetraShape.shape MathGL.identity [] (JS.rem 0 2000 * 1)
          (JS.rem 0 (2000 / (7 / 10)) * (7 / 10)) 0 0 ∅ [])
     = Some ((2 * PI * Observe.phase cx, 2 * PI * Observe.phase cy),
             TetraShape.shape MathGL.identity [] (JS.rem 0 2000 * 1)
               (JS.rem 0 (2000 / (7 / 10)) * (7 / 10)) 0 0 ∅ [])) /\
  (exists data k c,
     Observe.turnsOncePerCycle
       (IcoShape.shape data MathGL.identity [] (JS.rem (0 + 16) 5000 * 1)
          (0 + 16) ∅ []) k c /\
     (Luma.durationMs c, Luma.rate c) = (5000, 1) /\
     MainIco.rotationOf (IcoShape.appIco IcoShape.oneTriangle)
       (IcoShape.shape data MathGL.identity [] (JS.rem (0 + 16) 5000 * 1)
          (0 + 16) ∅ [])
     = Some (2 * PI * Observe.phase c,
             IcoShape.shape data MathGL.identity [] (JS.rem (0 + 16) 5000 * 1)
               (0 + 16) ∅ [])).
Proof.
  destruct oneTriangle_data as [data Hd].
  destruct C6_cycle_is_a_full_turn as (H1 & _ & _ & H4).
  split.
  - destruct (H1 _ _ tetra_reachable_start)
      as (kx & ky & cx & cy & _ & _ & HX & HY & DX & DY & _ & _ & HC & HR).
    exists kx, ky, cx, cy.
    split; [exact HX |]. split; [exact HY |]. split; [exact DX |].
    split; [exact DY |]. split; [exact HC | exact HR].
  - destruct (H4 _ _ _ (ico_reachable_tick data Hd))
      as (k & c & _ & HT & D & _ & _ & HR).
    exists data, k, c.
    split; [exact HT |]. split; [exact D | exact HR].
Defined.

(** ** Rasterization state and draw calls (claim C7) *)

Lemma frame_commands_one_draw cs m :
  Observe.drawCalls
    (cs ++ [Luma.BeginRenderPass [1; 1; 1; 1]; Luma.Draw m; Luma.EndRenderPass])
  = S (Observe.drawCalls cs).
Proof.
  rewrite drawCalls_app.
  change (Observe.drawCalls
            [Luma.BeginRenderPass [1; 1; 1; 1]; Luma.Draw m; Luma.EndRenderPass])
    with 1%nat.
  lia.
Qed.

(** C7: in each of the four programs the model has the rasterization state
    [cullMode: 'back'], [depthWriteEnabled: true],
    [depthCompare: 'less-equal'], and every frame issues, between the
    beginning and the end of a render pass, exactly one draw call, of that
    model, whose attributes name buffers of the device (the mesh). *)
Theorem C7_fixed_parameters_and_one_draw_per_frame :
  (forall this w, MainTetra.Reachable this w ->
     Luma.parameters (MainTetra.model this)
       = Luma.mkParameters Luma.cull_back true Luma.cmp_less_equal /\
     forall aspect, exists w',
       MainTetra.onRender this aspect w = Some (tt, w') /\
       Luma.commands w'
         = Luma.commands w ++ [Luma.BeginRenderPass [1; 1; 1; 1];
                               Luma.Draw (MainTetra.model this);
                               Luma.EndRenderPass] /\
       Observe.drawCalls (Luma.commands w')
         = S (Observe.drawCalls (Luma.commands w)) /\
       Observe.buffersBound (MainTetra.model this) w') /\
  (forall this w, Part001.Reachable this w ->
     Luma.parameters (Part001.model this)
       = Luma.mkParameters Luma.cull_back true Luma.cmp_less_equal /\
     forall aspect, exists w',
       Part001.onRender this aspect w = Some (tt, w') /\
       Luma.commands w'
         = Luma.commands w ++ [Luma.BeginRenderPass [1; 1; 1; 1];
                               Luma.Draw (Part001.model this);
                               Luma.EndRenderPass] /\
       Observe.drawCalls (Luma.commands w')
         = S (Observe.drawCalls (Luma.commands w)) /\
       Observe.buffersBound (Part001.model this) w') /\
  (forall mesh this w, Part000.Reachable mesh this w ->
     let model := Part000.node_model (Part000.modelNode this) in
     Luma.parameters model
       = Luma.mkParameters Luma.cull_back true Luma.cmp_less_equal /\
     forall aspect, exists w',
       Part000.onRender this aspect w = Some (tt, w') /\
       Luma.commands w'
         = Luma.commands w ++ [Luma.BeginRenderPass [1; 1; 1; 1];
                               Luma.Draw model; Luma.EndRenderPass] /\
       Observe.drawCalls (Luma.commands w')
         = S (Observe.drawCalls (Luma.commands w)) /\
       Observe.buffersBound model w') /\
  (forall mesh this w, MainIco.Reachable mesh this w ->
     exists node,
       MainIco.modelNode this = Some node /\
       Luma.parameters (MainIco.node_model node)
         = Luma.mkParameters Luma.cull_back true Luma.cmp_less_equal /\
       forall aspect, exists w',
         MainIco.onRender this aspect w = Some (tt, w') /\
         Luma.commands w'
           = Luma.commands w ++ [Luma.BeginRenderPass [1; 1; 1; 1];
                                 Luma.Draw (MainIco.node_model node);
                                 Luma.EndRenderPass] /\
         Observe.drawCalls (Luma.commands w')
           = S (Observe.drawCalls (Luma.commands w)) /\
         Observe.buffersBound (MainIco.node_model node) w').
Proof.
  split; [| split; [| split]].
  - intros this w Hr.
    destruct (tetra_reachable_inv _ _ Hr)
      as [-> (P & rest & tX & tY & eX & eY & au & cs & -> & Hk)].
    split; [reflexivity |]. intros aspect.
    eexists. split; [apply tetra_frame |].
    split; [reflexivity |]. split; [apply frame_commands_one_draw |].
    intros name b Hin; simpl in Hin;
      repeat (destruct Hin as [Hin | Hin]; [injection Hin as <- <-; eexists; reflexivity |]);
      destruct Hin.
  - intros this w Hr.
    destruct (p001_reachable_inv _ _ Hr)
      as [-> (P & rest & tX & tY & eX & eY & au & cs & -> & Hk)].
    split; [reflexivity |]. intros aspect.
    eexists. split; [apply p001_frame |].
    split; [reflexivity |]. split; [apply frame_commands_one_draw |].
    intros name b Hin; simpl in Hin;
      repeat (destruct Hin as [Hin | Hin]; [injection Hin as <- <-; eexists; reflexivity |]);
      destruct Hin.
  - intros mesh this w Hr.
    destruct (p000_reachable_inv _ _ _ Hr)
      as [-> (data & P & rest & t & e & au & cs & Hd & -> & Hk)].
    split; [reflexivity |]. intros aspect.
    eexists. split; [apply p000_frame |].
    split; [reflexivity |]. split; [apply frame_commands_one_draw |].
    intros name b Hin; simpl in Hin;
      repeat (destruct Hin as [Hin | Hin]; [injection Hin as <- <-; eexists; reflexivity |]);
      destruct Hin.
  - intros mesh this w Hr.
    destruct (ico_reachable_inv _ _ _ Hr)
      as [-> (data & P & rest & t & e & au & cs & Hd & -> & Hk)].
    eexists. split; [reflexivity |].
    split; [reflexivity |]. intros aspect.
    eexists. split; [apply ico_frame |].
    split; [reflexivity |]. split; [apply frame_commands_one_draw |].
    intros name b Hin; simpl in Hin;
      repeat (destruct Hin as [Hin | Hin]; [injection Hin as <- <-; eexists; reflexivity |]);
      destruct Hin.
Qed.

(** C7 at the first frame of a run of each program. *)
Lemma C7_witness :
  exists data w1 w2 w3 w4,
    (MainTetra.onRender TetraShape.theApp 1
       (TetraShape.shape MathGL.identity [] (JS.rem 0 2000 * 1)
          (JS.rem 0 (2000 / (7 / 10)) * (7 / 10)) 0 0 ∅ []) = Some (tt, w1) /\
     Observe.drawCalls (Luma.commands w1) = 1%nat) /\
    (Part001.onRender Part001Shape.theApp 1
       (Part001Shape.shape MathGL.identity [] (JS.rem 0 2000 * 1)
          (JS.rem 0 (2000 / (7 / 10)) * (7 / 10)) 0 0 ∅ []) = Some (tt, w2) /\
     Observe.drawCalls (Luma.commands w2) = 1%nat) /\
    (Part000.onRender (IcoShape.app000 IcoShape.oneTriangle) 1
       (IcoShape.shape data MathGL.identity [] (JS.rem 0 5000 * 1) 0 ∅ [])
       = Some (tt, w3) /\
     Observe.drawCalls (Luma.commands w3) = 1%nat) /\
    (MainIco.onRender (IcoShape.appIco IcoShape.oneTriangle) 1
       (IcoShape.shape data MathGL.identity [] (JS.rem 0 5000 * 1) 0 ∅ [])
       = Some (tt, w4) /\
     Observe.drawCalls (Luma.commands w4) = 1%nat).
Proof.
  destruct oneTriangle_data as [data Hd].
  destruct C7_fixed_parameters_and_one_draw_per_frame as (H1 & H2 & H3 & H4).
  destruct (H1 _ _ tetra_reachable_start) as (_ & F1).
  destruct (F1 1) as (w1 & E1 & _ & D1 & _).
  destruct (H2 _ _ p001_reachable_start) as (_ & F2).
  destruct (F2 1) as (w2 & E2 & _ & D2 & _).
  destruct (H3 _ _ _ (p000_reachable_start data Hd)) as (_ & F3).
  destruct (F3 1) as (w3 & E3 & _ & D3 & _).
  destruct (H4 _ _ _ (ico_reachable_start data Hd)) as (node & En & _ & F4).
  destruct (F4 1) as (w4 & E4 & _ & D4 & _).
  exists data, w1, w2, w3, w4. repeat split; assumption.
Defined.

(** ** Determinism of a frame (claim C8) *)

Section ReadingFacts.

Lemma reading_eq k1 k2 :
  Observe.reading k1 = Observe.reading k2 ->
  Luma.getStartData k1 = Luma.getStartData k2 /\
  Luma.getEndData k1 = Luma.getEndData k2 /\
  Luma.factor k1 = Luma.factor k2.
Proof.
  intros H. repeat split.
  - exact (f_equal (fun r => fst (fst r)) H).
  - exact (f_equal (fun r => snd (fst r)) H).
  - exact (f_equal snd H).
Qed.

Lemma tetra_angleX_of_reading t1 t2 :
  Observe.reading (TetraShape.trackAt t1) = Observe.reading (TetraShape.trackAt t2) ->
  TetraShape.angleX t1 = TetraShape.angleX t2.
Proof.
  intros H. destruct (reading_eq _ _ H) as (HS & HE & HF).
  unfold TetraShape.angleX. now rewrite HS, HE, HF.
Qed.

Lemma tetra_angleY_of_reading tX1 tX2 tY1 tY2 :
  Observe.reading (TetraShape.trackAt tX1) = Observe.reading (TetraShape.trackAt tX2) ->
  Observe.reading (TetraShape.trackAt tY1) = Observe.reading (TetraShape.trackAt tY2) ->
  TetraShape.angleY tX1 tY1 = TetraShape.angleY tX2 tY2.
Proof.
  intros HX HY.
  destruct (reading_eq _ _ HX) as (HS & _ & _).
  destruct (reading_eq _ _ HY) as (HS' & HE' & HF').
  unfold TetraShape.angleY. now rewrite HS, HS', HE', HF'.
Qed.

Lemma ico_angle_of_reading t1 t2 :
  Observe.reading (IcoShape.trackAt t1) = Observe.reading (IcoShape.trackAt t2) ->
  IcoShape.angle t1 = IcoShape.angle t2.
Proof.
  intros H. destruct (reading_eq _ _ H) as (HS & HE & HF).
  unfold IcoShape.angle. now rewrite HS, HE, HF.
Qed.

Lemma last_two_snoc {A} (a b : A) l x : last (a :: b :: l ++ [x]) = Some x.
Proof.
  change (a :: b :: l ++ [x]) with ((a :: b :: l) ++ [x]). apply last_snoc.
Qed.

End ReadingFacts.

(** C8: the uniforms a frame produces are a function of what the tracks
    report and of the aspect ratio.  For any two worlds a program reaches
    (two runs, or two moments of one run) in which every track reports the
    same start value, end value and factor, [onRender] with the same aspect
    ratio succeeds in both and leaves the same app block (the matrices) and
    the same lighting block in the uniform store, and the same elements in
    the two matrix objects it wrote (the projection or MVP matrix, and the
    model-view matrix it allocated last), whatever the matrices and the
    uniforms held before. *)
Theorem C8_frame_is_a_function_of_tracks_and_aspect :
  (forall this w1 w2 aspect,
     MainTetra.Reachable this w1 -> MainTetra.Reachable this w2 ->
     Observe.reading <$> Luma.tracks w1 !! MainTetra.keyFramesX this
       = Observe.reading <$> Luma.tracks w2 !! MainTetra.keyFramesX this ->
     Observe.reading <$> Luma.tracks w1 !! MainTetra.keyFramesY this
       = Observe.reading <$> Luma.tracks w2 !! MainTetra.keyFramesY this ->
     exists w1' w2',
       MainTetra.onRender this aspect w1 = Some (tt, w1') /\
       MainTetra.onRender this aspect w2 = Some (tt, w2') /\
       Luma.appUniforms w1' = Luma.appUniforms w2' /\
       Luma.lightingUniforms w1' = Luma.lightingUniforms w2' /\
       Luma.matrices w1' !! MainTetra.mvpMatrix this
         = Luma.matrices w2' !! MainTetra.mvpMatrix this /\
       last (Luma.matrices w1') = last (Luma.matrices w2')) /\
  (forall this w1 w2 aspect,
     Part001.Reachable this w1 -> Part001.Reachable this w2 ->
     Observe.reading <$> Luma.tracks w1 !! Part001.keyFramesX this
       = Observe.reading <$> Luma.tracks w2 !! Part001.keyFramesX this ->
     Observe.reading <$> Luma.tracks w1 !! Part001.keyFramesY this
       = Observe.reading <$> Luma.tracks w2 !! Part001.keyFramesY this ->
     exists w1' w2',
       Part001.onRender this aspect w1 = Some (tt, w1') /\
       Part001.onRender this aspect w2 = Some (tt, w2') /\
       Luma.appUniforms w1' = Luma.appUniforms w2' /\
       Luma.lightingUniforms w1' = Luma.lightingUniforms w2' /\
       Luma.matrices w1' !! Part001.projectionMatrix this
         = Luma.matrices w2' !! Part001.projectionMatrix this /\
       last (Luma.matrices w1') = last (Luma.matrices w2')) /\
  (forall mesh this w1 w2 aspect,
     Part000.Reachable mesh this w1 -> Part000.Reachable mesh this w2 ->
     Observe.reading <$> Luma.tracks w1 !! Part000.rotationKeyFrames this
       = Observe.reading <$> Luma.tracks w2 !! Part000.rotationKeyFrames this ->
     exists w1' w2',
       Part000.onRender this aspect w1 = Some (tt, w1') /\
       Part000.onRender this aspect w2 = Some (tt, w2') /\
       Luma.appUniforms w1' = Luma.appUniforms w2' /\
       Luma.lightingUniforms w1' = Luma.lightingUniforms w2' /\
       Luma.matrices w1' !! Part000.projectionMatrix this
         = Luma.matrices w2' !! Part000.projectionMatrix this /\
       last (Luma.matrices w1') = last (Luma.matrices w2')) /\
  (forall mesh this w1 w2 aspect,
     MainIco.Reachable mesh this w1 -> MainIco.Reachable mesh this w2 ->
     Observe.reading <$> Luma.tracks w1 !! MainIco.rotationKeyFrames this
       = Observe.reading <$> Luma.tracks w2 !! MainIco.rotationKeyFrames this ->
     exists w1' w2',
       MainIco.onRender this aspect w1 = Some (tt, w1') /\
       MainIco.onRender this aspect w2 = Some (tt, w2') /\
       Luma.appUniforms w1' = Luma.appUniforms w2' /\
       Luma.lightingUniforms w1' = Luma.lightingUniforms w2' /\
       Luma.matrices w1' !! MainIco.projectionMatrix this
         = Luma.matrices w2' !! MainIco.projectionMatrix this /\
       last (Luma.matrices w1') = last (Luma.matrices w2')).
Proof.
  split; [| split; [| split]].
  - intros this w1 w2 aspect Hr1 Hr2 HX HY.
    destruct (tetra_reachable_inv _ _ Hr1)
      as [-> (P & rest & tX & tY & eX & eY & au & cs & -> & Hk)].
    destruct (tetra_reachable_inv _ _ Hr2)
      as [_ (P' & rest' & tX' & tY' & eX' & eY' & au' & cs' & -> & Hk')].
    apply (inj Some) in HX. apply (inj Some) in HY.
    do 2 eexists. split; [apply tetra_frame |]. split; [apply tetra_frame |].
    cbv beta zeta iota delta
      [TetraShape.shape Luma.appUniforms Luma.lightingUniforms Luma.matrices].
    rewrite (tetra_angleX_of_reading tX tX') by exact HX.
    rewrite (tetra_angleY_of_reading tX tX' tY tY') by assumption.
    split; [now apply onlyKeys_overwritten |].
    split; [reflexivity |]. split; [reflexivity |].
    now rewrite !last_two_snoc.
  - intros this w1 w2 aspect Hr1 Hr2 HX HY.
    destruct (p001_reachable_inv _ _ Hr1)
      as [-> (P & rest & tX & tY & eX & eY & au & cs & -> & Hk)].
    destruct (p001_reachable_inv _ _ Hr2)
      as [_ (P' & rest' & tX' & tY' & eX' & eY' & au' & cs' & -> & Hk')].
    apply (inj Some) in HX. apply (inj Some) in HY.
    do 2 eexists. split; [apply p001_frame |]. split; [apply p001_frame |].
    cbv beta zeta iota delta
      [Part001Shape.shape Luma.appUniforms Luma.lightingUniforms Luma.matrices].
    change Part001Shape.angleX with TetraShape.angleX.
    change Part001Shape.angleY with TetraShape.angleY.
    rewrite (tetra_angleX_of_reading tX tX') by exact HX.
    rewrite (tetra_angleY_of_reading tX tX' tY tY') by assumption.
    split; [now apply onlyKeys_overwritten |].
    split; [reflexivity |]. split; [reflexivity |].
    now rewrite !last_two_snoc.
  - intros mesh this w1 w2 aspect Hr1 Hr2 HA.
    destruct (p000_reachable_inv _ _ _ Hr1)
      as [-> (data & P & rest & t & e & au & cs & Hd & -> & Hk)].
    destruct (p000_reachable_inv _ _ _ Hr2)
      as [_ (data' & P' & rest' & t' & e' & au' & cs' & Hd' & -> & Hk')].
    apply (inj Some) in HA.
    do 2 eexists. split; [apply p000_frame |]. split; [apply p000_frame |].
    cbv beta zeta iota delta
      [IcoShape.shape Luma.appUniforms Luma.lightingUniforms Luma.matrices].
    rewrite (ico_angle_of_reading t t') by exact HA.
    split; [now apply onlyKeys_overwritten |].
    split; [reflexivity |]. split; [reflexivity |].
    now rewrite !last_two_snoc.
  - intros mesh this w1 w2 aspect Hr1 Hr2 HA.
    destruct (ico_reachable_inv _ _ _ Hr1)
      as [-> (data & P & rest & t & e & au & cs & Hd & -> & Hk)].
    destruct (ico_reachable_inv _ _ _ Hr2)
      as [_ (data' & P' & rest' & t' & e' & au' & cs' & Hd' & -> & Hk')].
    apply (inj Some) in HA.
    do 2 eexists. split; [apply ico_frame |]. split; [apply ico_frame |].
    cbv beta zeta iota delta
      [IcoShape.shape Luma.appUniforms Luma.lightingUniforms Luma.matrices].
    rewrite (ico_angle_of_reading t t') by exact HA.
    split; [now apply onlyKeys_overwritten |].
    split; [reflexivity |]. split; [reflexivity |].
    now rewrite !last_two_snoc.
Qed.

(** The world after the first frame is reached too. *)
Lemma tetra_reachable_after_frame :
  exists w,
    MainTetra.onRender TetraShape.theApp 1
      (TetraShape.shape MathGL.identity [] (JS.rem 0 2000 * 1)
         (JS.rem 0 (2000 / (7 / 10)) * (7 / 10)) 0 0 ∅ []) = Some (tt, w) /\
    MainTetra.Reachable TetraShape.theApp w /\
    Luma.tracks w = [TetraShape.trackAt (JS.rem 0 2000 * 1);
                     TetraShape.trackAt (JS.rem 0 (2000 / (7 / 10)) * (7 / 10))].
Proof.
  eexists. split; [apply tetra_frame |]. split; [| reflexivity].
  eapply MainTetra.reach_frame; [apply tetra_reachable_start | apply tetra_frame].
Qed.

Lemma p001_reachable_after_frame :
  exists w,
    Part001.onRender Part001Shape.theApp 1
      (Part001Shape.shape MathGL.identity [] (JS.rem 0 2000 * 1)
         (JS.rem 0 (2000 / (7 / 10)) * (7 / 10)) 0 0 ∅ []) = Some (tt, w) /\
    Part001.Reachable Part001Shape.theApp w /\
    Luma.tracks w = [Part001Shape.trackAt (JS.rem 0 2000 * 1);
                     Part001Shape.trackAt (JS.rem 0 (2000 / (7 / 10)) * (7 / 10))].
Proof.
  eexists. split; [apply p001_frame |]. split; [| reflexivity].
  eapply Part001.reach_frame; [apply p001_reachable_start | apply p001_frame].
Qed.

Lemma p000_reachable_after_frame data :
  Part000.vertexData IcoShape.oneTriangle = Some data ->
  exists w,
    Part000.onRender (IcoShape.app000 IcoShape.oneTriangle) 1
      (IcoShape.shape data MathGL.identity [] (JS.rem 0 5000 * 1) 0 ∅ [])
      = Some (tt, w) /\
    Part000.Reachable IcoShape.oneTriangle (IcoShape.app000 IcoShape.oneTriangle) w /\
    Luma.tracks w = [IcoShape.trackAt (JS.rem 0 5000 * 1)].
Proof.
  intros Hd. eexists. split; [apply p000_frame |]. split; [| reflexivity].
  eapply Part000.reach_frame; [apply p000_reachable_start, Hd | apply p000_frame].
Qed.

Lemma ico_reachable_after_frame data :
  Part000.vertexData IcoShape.oneTriangle = Some data ->
  exists w,
    MainIco.onRender (IcoShape.appIco IcoShape.oneTriangle) 1
      (IcoShape.shape data MathGL.identity [] (JS.rem 0 5000 * 1) 0 ∅ [])
      = Some (tt, w) /\
    MainIco.Reachable IcoShape.oneTriangle (IcoShape.appIco IcoShape.oneTriangle) w /\
    Luma.tracks w = [IcoShape.trackAt (JS.rem 0 5000 * 1)].
Proof.
  intros Hd. eexists. split; [apply ico_frame |]. split; [| reflexivity].
  eapply MainIco.reach_frame; [apply ico_reachable_start, Hd | apply ico_frame].
Qed.

(** C8 on the world a program starts from and the one its first frame
    leaves: other matrices and uniforms, the same tracks. *)
Lemma C8_witness :
  exists data,
    (exists w w1' w2',
       MainTetra.onRender TetraShape.theApp 1
         (TetraShape.shape MathGL.identity [] (JS.rem 0 2000 * 1)
            (JS.rem 0 (2000 / (7 / 10)) * (7 / 10)) 0 0 ∅ []) = Some (tt, w) /\
       MainTetra.onRender TetraShape.theApp (4 / 3)
         (TetraShape.shape MathGL.identity [] (JS.rem 0 2000 * 1)
            (JS.rem 0 (2000 / (7 / 10)) * (7 / 10)) 0 0 ∅ []) = Some (tt, w1') /\
       MainTetra.onRender TetraShape.theApp (4 / 3) w = Some (tt, w2') /\
       Luma.appUniforms w1' = Luma.appUniforms w2' /\
       Luma.lightingUniforms w1' = Luma.lightingUniforms w2') /\
    (exists w w1' w2',
       Part001.onRender Part001Shape.theApp 1
         (Part001Shape.shape MathGL.identity [] (JS.rem 0 2000 * 1)
            (JS.rem 0 (2000 / (7 / 10)) * (7 / 10)) 0 0 ∅ []) = Some (tt, w) /\
       Part001.onRender Part001Shape.theApp (4 / 3)
         (Part001Shape.shape MathGL.identity [] (JS.rem 0 2000 * 1)
            (JS.rem 0 (2000 / (7 / 10)) * (7 / 10)) 0 0 ∅ []) = Some (tt, w1') /\
       Part001.onRender Part001Shape.theApp (4 / 3) w = Some (tt, w2') /\
       Luma.appUniforms w1' = Luma.appUniforms w2' /\
       Luma.lightingUniforms w1' = Luma.lightingUniforms w2') /\
    (exists w w1' w2',
       Part000.onRender (IcoShape.app000 IcoShape.oneTriangle) 1
         (IcoShape.shape data MathGL.identity [] (JS.rem 0 5000 * 1) 0 ∅ [])
         = Some (tt, w) /\
       Part000.onRender (IcoShape.app000 IcoShape.oneTriangle) (4 / 3)
         (IcoShape.shape data MathGL.identity [] (JS.rem 0 5000 * 1) 0 ∅ [])
         = Some (tt, w1') /\
       Part000.onRender (IcoShape.app000 IcoShape.oneTriangle) (4 / 3) w
         = Some (tt, w2') /\
       Luma.appUniforms w1' = Luma.appUniforms w2' /\
       Luma.lightingUniforms w1' = Luma.lightingUniforms w2') /\
    (exists w w1' w2',
       MainIco.onRender (IcoShape.appIco IcoShape.oneTriangle) 1
         (IcoShape.shape data MathGL.identity [] (JS.rem 0 5000 * 1) 0 ∅ [])
         = Some (tt, w) /\
       MainIco.onRender (IcoShape.appIco IcoShape.oneTriangle) (4 / 3)
         (IcoShape.shape data MathGL.identity [] (JS.rem 0 5000 * 1) 0 ∅ [])
         = Some (tt, w1') /\
       MainIco.onRender (IcoShape.appIco IcoShape.oneTriangle) (4 / 3) w
         = Some (tt, w2') /\
       Luma.appUniforms w1' = Luma.appUniforms w2' /\
       Luma.lightingUniforms w1' = Luma.lightingUniforms w2').
Proof.
  destruct oneTriangle_data as [data Hd].
  destruct C8_frame_is_a_function_of_tracks_and_aspect as (H1 & H2 & H3 & H4).
  exists data. split; [| split; [| split]].
  - destruct tetra_reachable_after_frame as (w & Ew & Rw & Tw).
    destruct (H1 _ _ w (4 / 3) tetra_reachable_start Rw)
      as (w1' & w2' & E1 & E2 & EA & EL & _);
      [rewrite Tw; reflexivity | rewrite Tw; reflexivity |].
    exists w, w1', w2'. repeat split; assumption.
  - destruct p001_reachable_after_frame as (w & Ew & Rw & Tw).
    destruct (H2 _ _ w (4 / 3) p001_reachable_start Rw)
      as (w1' & w2' & E1 & E2 & EA & EL & _);
      [rewrite Tw; reflexivity | rewrite Tw; reflexivity |].
    exists w, w1', w2'. repeat split; assumption.
  - destruct (p000_reachable_after_frame data Hd) as (w & Ew & Rw & Tw).
    destruct (H3 _ _ _ w (4 / 3) (p000_reachable_start data Hd) Rw)
      as (w1' & w2' & E1 & E2 & EA & EL & _); [rewrite Tw; reflexivity |].
    exists w, w1', w2'. repeat split; assumption.
  - destruct (ico_reachable_after_frame data Hd) as (w & Ew & Rw & Tw).
    destruct (H4 _ _ _ w (4 / 3) (ico_reachable_start data Hd) Rw)
      as (w1' & w2' & E1 & E2 & EA & EL & _); [rewrite Tw; reflexivity |].
    exists w, w1', w2'. repeat split; assumption.
Defined.

(** C3 at the first frame of a run of each program. *)
Lemma C3_witness :
  exists data,
    (exists w' w'',
       MainTetra.onRender TetraShape.theApp 1
         (TetraShape.shape MathGL.identity [] (JS.rem 0 2000 * 1)
            (JS.rem 0 (2000 / (7 / 10)) * (7 / 10)) 0 0 ∅ []) = Some (tt, w') /\
       Luma.matrices w' !! MainTetra.viewMatrix TetraShape.theApp
         = Some TetraShape.view /\
       Luma.lightingUniforms w' = {[ "lightPosition" := TetraShape.light ]} /\
       MainTetra.onRender TetraShape.theApp 1 w' = Some (tt, w'') /\
       Luma.appUniforms w'' = Luma.appUniforms w') /\
    (exists w' w'',
       Part001.onRender Part001Shape.theApp 1
         (Part001Shape.shape MathGL.identity [] (JS.rem 0 2000 * 1)
            (JS.rem 0 (2000 / (7 / 10)) * (7 / 10)) 0 0 ∅ []) = Some (tt, w') /\
       Luma.matrices w' !! Part001.viewMatrix Part001Shape.theApp
         = Some Part001Shape.view /\
       Luma.lightingUniforms w' = {[ "lightPosition" := Part001Shape.light ]} /\
       Part001.onRender Part001Shape.theApp 1 w' = Some (tt, w'') /\
       Luma.appUniforms w'' = Luma.appUniforms w') /\
    (exists w' w'',
       Part000.onRender (IcoShape.app000 IcoShape.oneTriangle) 1
         (IcoShape.shape data MathGL.identity [] (JS.rem 0 5000 * 1) 0 ∅ [])
         = Some (tt, w') /\
       Luma.matrices w' !! Part000.viewMatrix (IcoShape.app000 IcoShape.oneTriangle)
         = Some IcoShape.view /\
       Luma.lightingUniforms w' = {[ "lightPosition" := IcoShape.light ]} /\
       Part000.onRender (IcoShape.app000 IcoShape.oneTriangle) 1 w'
         = Some (tt, w'') /\
       Luma.appUniforms w'' = Luma.appUniforms w') /\
    (exists w' w'',
       MainIco.onRender (IcoShape.appIco IcoShape.oneTriangle) 1
         (IcoShape.shape data MathGL.identity [] (JS.rem 0 5000 * 1) 0 ∅ [])
         = Some (tt, w') /\
       Luma.matrices w' !! MainIco.viewMatrix (IcoShape.appIco IcoShape.oneTriangle)
         = Some IcoShape.view /\
       Luma.lightingUniforms w' = {[ "lightPosition" := IcoShape.light ]} /\
       MainIco.onRender (IcoShape.appIco IcoShape.oneTriangle) 1 w'
         = Some (tt, w'') /\
       Luma.appUniforms w'' = Luma.appUniforms w').
Proof.
  destruct oneTriangle_data as [data Hd].
  destruct C3_frame_keeps_camera_light_and_animation as (H1 & H2 & H3 & H4).
  exists data. split; [| split; [| split]].
  - destruct (H1 _ _ tetra_reachable_start) as (V & L & F).
    destruct (F 1) as (w' & E & (SM & SL & _) & w'' & E' & U).
    exists w', w''. split; [exact E |].
    split; [rewrite SM; exact V |]. split; [rewrite SL; exact L |].
    split; assumption.
  - destruct (H2 _ _ p001_reachable_start) as (V & L & F).
    destruct (F 1) as (w' & E & (SM & SL & _) & w'' & E' & U).
    exists w', w''. split; [exact E |].
    split; [rewrite SM; exact V |]. split; [rewrite SL; exact L |].
    split; assumption.
  - destruct (H3 _ _ _ (p000_reachable_start data Hd)) as (V & L & F).
    destruct (F 1) as (w' & E & (SM & SL & _) & w'' & E' & U).
    exists w', w''. split; [exact E |].
    split; [rewrite SM; exact V |]. split; [rewrite SL; exact L |].
    split; assumption.
  - destruct (H4 _ _ _ (ico_reachable_start data Hd)) as (V & L & F).
    destruct (F 1) as (w' & E & (SM & SL & _) & w'' & E' & U).
    exists w', w''. split; [exact E |].
    split; [rewrite SM; exact V |]. split; [rewrite SL; exact L |].
    split; assumption.
Defined.

(** ** The vertex buffers (claims C9, C10) *)

(** C9: in the two tetrahedron programs, for each of the four faces and each
    of its three vertices, the normal stored for the vertex is the
    normalized cross product [(p2 - p1) × (p3 - p2)] of the face's three
    positions in buffer order, and has length 1. *)
Theorem C9_face_normals :
  forall face corner, (face < 4)%nat -> (corner < 3)%nat ->
    (exists this w positions normals p1 p2 p3 n,
       MainTetra.construct Luma.emptyWorld = Some (this, w) /\
       Luma.buffers w !! MainTetra.positionBuffer this = Some positions /\
       Luma.buffers w !! MainTetra.vertexNormalBuffer this = Some normals /\
       Observe.fetch positions 12 0 (3 * face) = Some p1 /\
       Observe.fetch positions 12 0 (3 * face + 1) = Some p2 /\
       Observe.fetch positions 12 0 (3 * face + 2) = Some p3 /\
       Observe.fetch normals 12 0 (3 * face + corner) = Some n /\
       n = MathGL.normalize
             (MathGL.cross (MathGL.subtract p2 p1) (MathGL.subtract p3 p2)) /\
       MathGL.magnitude n = 1) /\
    (exists this w data p1 p2 p3 n,
       Part001.construct Luma.emptyWorld = Some (this, w) /\
       Luma.buffers w !! Part001.vertexDataBuffer this = Some data /\
       Observe.fetch data 24 0 (3 * face) = Some p1 /\
       Observe.fetch data 24 0 (3 * face + 1) = Some p2 /\
       Observe.fetch data 24 0 (3 * face + 2) = Some p3 /\
       Observe.fetch data 24 12 (3 * face + corner) = Some n /\
       n = MathGL.normalize
             (MathGL.cross (MathGL.subtract p2 p1) (MathGL.subtract p3 p2)) /\
       MathGL.magnitude n = 1).
Proof.
  intros face corner Hf Hc.
  pose proof fn1_magnitude as M1. pose proof fn2_magnitude as M2.
  pose proof fn3_magnitude as M3. pose proof fn4_magnitude as M4.
  destruct face as [| [| [| [| ?]]]]; [| | | | lia];
    (destruct corner as [| [| [| ?]]]; [| | | lia]);
    (split;
     [ exists TetraShape.theApp; eexists;
       exists MainTetra.positionData, MainTetra.vertexNormalData;
       do 4 eexists;
       split; [apply tetra_construct |];
       split; [reflexivity |]; split; [reflexivity |];
       rewrite !tetra_position_fetch, tetra_normal_fetch by lia;
       repeat (split; [reflexivity |]); assumption
     | exists Part001Shape.theApp; eexists;
       exists Part001.vertexData;
       do 4 eexists;
       split; [apply p001_construct |];
       split; [reflexivity |];
       rewrite !p001_position_fetch, p001_normal_fetch by lia;
       repeat (split; [reflexivity |]); assumption ]).
Qed.

(** C9 at the last vertex of the last face. *)
Lemma C9_witness :
  exists p1 p2 p3 n,
    Observe.fetch MainTetra.positionData 12 0 9 = Some p1 /\
    Observe.fetch MainTetra.positionData 12 0 10 = Some p2 /\
    Observe.fetch MainTetra.positionData 12 0 11 = Some p3 /\
    Observe.fetch MainTetra.vertexNormalData 12 0 11 = Some n /\
    n = MathGL.normalize
          (MathGL.cross (MathGL.subtract p2 p1) (MathGL.subtract p3 p2)) /\
    MathGL.magnitude n = 1.
Proof.
  destruct (C9_face_normals 3 2 ltac:(lia) ltac:(lia)) as [H _].
  destruct H as (this & w & positions & normals & p1 & p2 & p3 & n
                 & Hc & Hp & Hn & F1 & F2 & F3 & F4 & En & Mn).
  rewrite tetra_construct in Hc. injection Hc as <- <-.
  simpl in Hp, Hn. injection Hp as <-. injection Hn as <-.
  exists p1, p2, p3, n. repeat split; assumption.
Defined.

(** C10: in the icosphere program, for a mesh with three floats per position
    and per normal and with indices in range, the vertex buffer holds, for
    every entry [[i, j]] of [faces] in order, the floats of
    [vertices[i - 1]] followed by those of [normals[j - 1]]; it has
    [6 * faces.length] floats, and with [vertexCount = faces.length] and a
    byte stride of 24 the reads of both attributes (12 bytes at the offsets
    0 and 12) end within the buffer for every vertex. *)
Theorem C10_interleaved_buffer :
  forall mesh, IcoSphereFlat.wellFormed mesh ->
    exists this w buffer data,
      Part000.construct mesh Luma.emptyWorld = Some (this, w) /\
      let model := Part000.node_model (Part000.modelNode this) in
      Luma.attributes model = [("vertexData", buffer)] /\
      Luma.buffers w !! buffer = Some data /\
      Luma.vertexCount model = length (IcoSphereFlat.faces mesh) /\
      Luma.bufferLayout model
        = [Luma.InterleavedLayout "vertexData" 24
             [Luma.mkAttributeLayout "position" Luma.float32x3 0;
              Luma.mkAttributeLayout "normal" Luma.float32x3 12]] /\
      length data = (6 * length (IcoSphereFlat.faces mesh))%nat /\
      (forall k i j, IcoSphereFlat.faces mesh !! k = Some (i, j) ->
         exists v n,
           JS.index (IcoSphereFlat.vertices mesh) (i - 1) = Some v /\
           JS.index (IcoSphereFlat.normals mesh) (j - 1) = Some n /\
           length v = 3%nat /\ length n = 3%nat /\
           take 6 (drop (6 * k) data) = v ++ n) /\
      (forall k a, (k < Luma.vertexCount model)%nat ->
         In a [Luma.mkAttributeLayout "position" Luma.float32x3 0;
               Luma.mkAttributeLayout "normal" Luma.float32x3 12] ->
         Observe.readInBounds 24 a k (4 * length data)).
Proof.
  intros mesh Hwf.
  destruct (vertexData_wellFormed mesh Hwf) as (data & Hd & Hlen & Hrows).
  exists (IcoShape.app000 mesh). eexists. exists 0%nat, data.
  split; [apply p000_construct, Hd |].
  cbv zeta.
  split; [reflexivity |]. split; [reflexivity |]. split; [reflexivity |].
  split; [reflexivity |]. split; [exact Hlen |]. split; [exact Hrows |].
  intros k a Hk Ha. unfold Observe.readInBounds. rewrite Hlen.
  simpl in Hk.
  destruct Ha as [<- | [<- | []]]; simpl; lia.
Qed.

(** C10 on the one-triangle mesh: 18 floats, the second vertex followed by
    the normal at the floats 6 to 11. *)
Lemma C10_witness :
  exists this w data,
    Part000.construct IcoShape.oneTriangle Luma.emptyWorld = Some (this, w) /\
    Luma.buffers w !! 0%nat = Some data /\
    length data = 18%nat /\
    take 6 (drop 6 data) = [1; 0; 0; 0; 0; 1].
Proof.
  destruct (C10_interleaved_buffer IcoShape.oneTriangle oneTriangle_wellFormed)
    as (this & w & buffer & data & Hc & Ha & Hb & _ & _ & Hlen & Hrows & _).
  destruct (Hrows 1%nat 2%Z 1%Z eq_refl) as (v & n & Ev & En & _ & _ & Hrow).
  injection Ev as <-. injection En as <-.
  pose proof Hc as Hc'.
  destruct (p000_construct_data _ _ _ Hc') as [data' Hd'].
  rewrite (p000_construct _ _ Hd') in Hc'. injection Hc' as <- <-.
  simpl in Ha. injection Ha as <-.
  exists (IcoShape.app000 IcoShape.oneTriangle). eexists. exists data.
  split; [exact Hc |]. split; [exact Hb |]. split; [exact Hlen | exact Hrow].
Defined.

(** ** Facts on vectors and on the face normal *)

Section VectorFacts.
Import MathGL Geometry.

Lemma Vector3_eq a b : vx a = vx b -> vy a = vy b -> vz a = vz b -> a = b.
Proof. destruct a, b. simpl. now intros -> -> ->. Qed.

Lemma lengthSquared_zero v :
  lengthSquared v = 0 -> v = mkVector3 0 0 0.
Proof.
  destruct v as [x y z]. unfold lengthSquared. simpl. intros H.
  assert (x = 0) by nra. assert (y = 0) by nra. assert (z = 0) by nra.
  now subst.
Qed.

Lemma magnitude_zero v : magnitude v = 0 -> v = mkVector3 0 0 0.
Proof.
  unfold magnitude. intros H. apply lengthSquared_zero.
  apply sqrt_eq_0; [apply lengthSquared_nonneg | exact H].
Qed.

(** [normalize] scales by a positive factor. *)
Lemma normalize_scaled v : exists k, 0 < k /\ normalize v = scale k v.
Proof.
  unfold normalize, JS.eqb.
  destruct (Req_dec_T (magnitude v) 0) as [E | N].
  - exists 1. split; [lra |]. apply Vector3_eq; simpl; ring.
  - exists (/ magnitude v). split.
    + apply Rinv_0_lt_compat.
      pose proof (sqrt_pos (lengthSquared v)). unfold magnitude in *. lra.
    + apply Vector3_eq; simpl; unfold Rdiv; ring.
Qed.


Lemma cross_perp_r a b : GLSL.dot (cross a b) b = 0.
Proof. unfold GLSL.dot, cross. simpl. ring. Qed.

Lemma dot_scale_l k a b : GLSL.dot (scale k a) b = k * GLSL.dot a b.
Proof. unfold GLSL.dot, scale. simpl. ring. Qed.

Lemma lengthSquared_scale k a :
  lengthSquared (scale k a) = k * k * lengthSquared a.
Proof. unfold lengthSquared, scale. simpl. ring. Qed.

Lemma magnitude_scale k a : 0 <= k -> magnitude (scale k a) = k * magnitude a.
Proof.
  intros Hk. unfold magnitude. rewrite lengthSquared_scale.
  rewrite sqrt_mult; [| nra | apply lengthSquared_nonneg].
  now rewrite sqrt_square.
Qed.

(** Scaling a vector by a positive factor does not change its direction. *)
Lemma normalize_scale k a : 0 < k -> normalize (scale k a) = normalize a.
Proof.
  intros Hk. unfold normalize.
  rewrite magnitude_scale by lra.
  unfold JS.eqb.
  destruct (Req_dec_T (magnitude a) 0) as [E | N].
  - rewrite E, Rmult_0_r.
    destruct (Req_dec_T 0 0) as [_ | F]; [| now contradiction F].
    rewrite (magnitude_zero _ E). apply Vector3_eq; simpl; ring.
  - destruct (Req_dec_T (k * magnitude a) 0) as [E' | _].
    + exfalso. apply Rmult_integral in E'. destruct E'; [lra | contradiction].
    + apply Vector3_eq; simpl; field; split; (exact N || lra).
Qed.




End VectorFacts.

(** ** The face normal ([surfaceNormal], [calculateSurfaceNormal]) *)



(** ** The tetrahedron *)

Section TetraMeshFacts.
Import MathGL Geometry.

Lemma normalize_dot_negative c d :
  GLSL.dot c d < 0 -> GLSL.dot (normalize c) d < 0.
Proof.
  intros H. destruct (normalize_scaled c) as (k & Hk & ->).
  rewrite dot_scale_l. nra.
Qed.

End TetraMeshFacts.

(** X5: every face of the tetrahedron is wound so that the normal computed
    for it points away from the fourth vertex, that is, out of the solid
    (the scalar product of the normal with the vector from a vertex of the
    face to the fourth vertex is negative). *)
Theorem X5_tetrahedron_normals_point_outwards :
  (GLSL.dot MainTetra.fn1 (MathGL.subtract MainTetra.v4 MainTetra.v1) < 0 /\
   GLSL.dot MainTetra.fn2 (MathGL.subtract MainTetra.v2 MainTetra.v1) < 0 /\
   GLSL.dot MainTetra.fn3 (MathGL.subtract MainTetra.v3 MainTetra.v1) < 0 /\
   GLSL.dot MainTetra.fn4 (MathGL.subtract MainTetra.v1 MainTetra.v2) < 0) /\
  (GLSL.dot Part001.fn1 (MathGL.subtract Part001.v4 Part001.v1) < 0 /\
   GLSL.dot Part001.fn2 (MathGL.subtract Part001.v2 Part001.v1) < 0 /\
   GLSL.dot Part001.fn3 (MathGL.subtract Part001.v3 Part001.v1) < 0 /\
   GLSL.dot Part001.fn4 (MathGL.subtract Part001.v1 Part001.v2) < 0).
Proof.
  repeat split; apply normalize_dot_negative;
    unfold GLSL.dot, MathGL.cross, MathGL.subtract; simpl; lra.
Qed.

(** ** The whole run of a program: commands, objects and resources *)

Section RunFacts.
Import MathGL Luma Geometry.

Lemma frames_S n m :
  frames (S n) m
  = frames n m ++ [BeginRenderPass [1; 1; 1; 1]; Draw m; EndRenderPass].
Proof.
  unfold frames. induction n as [| n IH]; [reflexivity |].
  change (replicate (S (S n)) ?x) with (x :: replicate (S n) x).
  rewrite concat_cons, IH at 1.
  change (replicate (S n) ?x) with (x :: replicate n x).
  rewrite concat_cons. now rewrite app_assoc.
Qed.

Lemma drawCalls_frames n m : Observe.drawCalls (frames n m) = n.
Proof.
  induction n as [| n IH]; [reflexivity |].
  rewrite frames_S, frame_commands_one_draw. now rewrite IH.
Qed.

(** What grows in a run of the first program of src/main.ts: the commands
    and the Matrix4 objects, by one frame at a time. *)
Lemma tetra_run this w :
  MainTetra.Reachable this w ->
  exists n, commands w = frames n (MainTetra.model this) /\
            List.length (matrices w) = (2 + n)%nat.
Proof.
  induction 1 as [this w Hc | this w d w' Hr IH Ht | this w a w' Hr IH Hf].
  - rewrite tetra_construct in Hc. inversion Hc; subst.
    exists 0%nat. split; reflexivity.
  - destruct IH as (n & Hn & Hm).
    destruct (tetra_reachable_inv _ _ Hr)
      as [-> (P & rest & tX & tY & eX & eY & au & cs & -> & Hk)].
    rewrite tetra_tick in Ht. inversion Ht; subst.
    exists n. split; assumption.
  - destruct IH as (n & Hn & Hm).
    destruct (tetra_reachable_inv _ _ Hr)
      as [-> (P & rest & tX & tY & eX & eY & au & cs & -> & Hk)].
    rewrite tetra_frame in Hf. inversion Hf; subst.
    exists (S n). simpl in Hn, Hm. simpl. split.
    + rewrite frames_S. now rewrite <- Hn.
    + rewrite length_app. simpl. lia.
Qed.

Lemma p001_run this w :
  Part001.Reachable this w ->
  exists n, commands w = frames n (Part001.model this) /\
            List.length (matrices w) = (2 + n)%nat.
Proof.
  induction 1 as [this w Hc | this w d w' Hr IH Ht | this w a w' Hr IH Hf].
  - rewrite p001_construct in Hc. inversion Hc; subst.
    exists 0%nat. split; reflexivity.
  - destruct IH as (n & Hn & Hm).
    destruct (p001_reachable_inv _ _ Hr)
      as [-> (P & rest & tX & tY & eX & eY & au & cs & -> & Hk)].
    rewrite p001_tick in Ht. inversion Ht; subst.
    exists n. split; assumption.
  - destruct IH as (n & Hn & Hm).
    destruct (p001_reachable_inv _ _ Hr)
      as [-> (P & rest & tX & tY & eX & eY & au & cs & -> & Hk)].
    rewrite p001_frame in Hf. inversion Hf; subst.
    exists (S n). simpl in Hn, Hm. simpl. split.
    + rewrite frames_S. now rewrite <- Hn.
    + rewrite length_app. simpl. lia.
Qed.

Lemma p000_run mesh this w :
  Part000.Reachable mesh this w ->
  exists n,
    commands w = frames n (Part000.node_model (Part000.modelNode this)) /\
    List.length (matrices w) = (2 + n)%nat.
Proof.
  induction 1 as [this w Hc | this w d w' Hr IH Ht | this w a w' Hr IH Hf].
  - destruct (p000_construct_data _ _ _ Hc) as [data Hd].
    rewrite (p000_construct _ _ Hd) in Hc. inversion Hc; subst.
    exists 0%nat. split; reflexivity.
  - destruct IH as (n & Hn & Hm).
    destruct (p000_reachable_inv _ _ _ Hr)
      as [-> (data & P & rest & t & e & au & cs & Hd & -> & Hk)].
    rewrite ico_tick in Ht. inversion Ht; subst.
    exists n. split; assumption.
  - destruct IH as (n & Hn & Hm).
    destruct (p000_reachable_inv _ _ _ Hr)
      as [-> (data & P & rest & t & e & au & cs & Hd & -> & Hk)].
    rewrite p000_frame in Hf. inversion Hf; subst.
    exists (S n). simpl in Hn, Hm. simpl. split.
    + rewrite frames_S. now rewrite <- Hn.
    + rewrite length_app. simpl. lia.
Qed.

Lemma ico_run mesh this w :
  MainIco.Reachable mesh this w ->
  exists n node,
    MainIco.modelNode this = Some node /\
    commands w = frames n (MainIco.node_model node) /\
    List.length (matrices w) = (2 + n)%nat.
Proof.
  induction 1 as [this0 w0 this w Hc Hi | this w d w' Hr IH Ht
                 | this w a w' Hr IH Hf].
  - rewrite ico_construct in Hc. inversion Hc; subst.
    destruct (ico_initialize_data _ _ _ _ _ Hi) as [data Hd].
    rewrite (ico_initialize _ _ _ _ _ _ _ _ Hd) in Hi. inversion Hi; subst.
    exists 0%nat. eexists. split; [reflexivity |]. split; reflexivity.
  - destruct IH as (n & node & Hnode & Hn & Hm).
    destruct (ico_reachable_inv _ _ _ Hr)
      as [-> (data & P & rest & t & e & au & cs & Hd & -> & Hk)].
    rewrite ico_tick in Ht. inversion Ht; subst.
    exists n, node. repeat split; assumption.
  - destruct IH as (n & node & Hnode & Hn & Hm).
    destruct (ico_reachable_inv _ _ _ Hr)
      as [-> (data & P & rest & t & e & au & cs & Hd & -> & Hk)].
    rewrite ico_frame in Hf. inversion Hf; subst.
    simpl in Hnode. injection Hnode as <-.
    exists (S n). eexists. split; [reflexivity |].
    simpl in Hn, Hm. simpl. split.
    + rewrite frames_S. now rewrite <- Hn.
    + rewrite length_app. simpl. lia.
Qed.

End RunFacts.

(** X6: over a whole run the commands a program has issued are a sequence
    of complete frames, each [beginRenderPass], one [draw] of the program's
    model, [end]: no draw is issued outside a render pass, and no pass is
    left open or nested.  For the second program of src/main.ts the run
    starts after [onInitialize]. *)
Theorem X6_commands_are_whole_frames :
  (forall this w, MainTetra.Reachable this w ->
     exists n, Luma.commands w = Geometry.frames n (MainTetra.model this)) /\
  (forall this w, Part001.Reachable this w ->
     exists n, Luma.commands w = Geometry.frames n (Part001.model this)) /\
  (forall mesh this w, Part000.Reachable mesh this w ->
     exists n,
       Luma.commands w
       = Geometry.frames n (Part000.node_model (Part000.modelNode this))) /\
  (forall mesh this w, MainIco.Reachable mesh this w ->
     exists n node,
       MainIco.modelNode this = Some node /\
       Luma.commands w = Geometry.frames n (MainIco.node_model node)).
Proof.
  split; [| split; [| split]].
  - intros this w Hr. destruct (tetra_run _ _ Hr) as (n & Hn & _). eauto.
  - intros this w Hr. destruct (p001_run _ _ Hr) as (n & Hn & _). eauto.
  - intros mesh this w Hr. destruct (p000_run _ _ _ Hr) as (n & Hn & _). eauto.
  - intros mesh this w Hr.
    destruct (ico_run _ _ _ Hr) as (n & node & Hnode & Hn & _). eauto.
Qed.

(** X6 on the first program after its constructor and one frame. *)
Lemma X6_witness :
  exists w, MainTetra.onRender TetraShape.theApp 1
              (TetraShape.shape MathGL.identity [] (JS.rem 0 2000 * 1)
                 (JS.rem 0 (2000 / (7 / 10)) * (7 / 10)) 0 0 ∅ []) = Some (tt, w) /\
            exists n, Luma.commands w = Geometry.frames n TetraShape.theModel.
Proof.
  eexists. split; [apply tetra_frame |].
  destruct X6_commands_are_whole_frames as (H & _).
  apply (H TetraShape.theApp).
  eapply MainTetra.reach_frame; [apply tetra_reachable_start | apply tetra_frame].
Defined.

(** X7: what a run allocates.  Every frame allocates one Matrix4 object
    (the copy of the view matrix it rotates) and nothing else: in every
    world of a run the number of Matrix4 objects is 2 plus the number of
    draw calls issued so far, while the buffers of the device, the tracks
    and the timeline are those the constructor (or [onInitialize]) made. *)
Theorem X7_a_frame_allocates_one_matrix_and_no_buffer :
  (forall this w, MainTetra.Reachable this w ->
     List.length (Luma.matrices w)
       = (2 + Observe.drawCalls (Luma.commands w))%nat /\
     List.length (Luma.buffers w) = 2%nat /\
     List.length (Luma.tracks w) = 2%nat /\
     List.length (Luma.timelines w) = 1%nat) /\
  (forall this w, Part001.Reachable this w ->
     List.length (Luma.matrices w)
       = (2 + Observe.drawCalls (Luma.commands w))%nat /\
     List.length (Luma.buffers w) = 1%nat /\
     List.length (Luma.tracks w) = 2%nat /\
     List.length (Luma.timelines w) = 1%nat) /\
  (forall mesh this w, Part000.Reachable mesh this w ->
     List.length (Luma.matrices w)
       = (2 + Observe.drawCalls (Luma.commands w))%nat /\
     List.length (Luma.buffers w) = 1%nat /\
     List.length (Luma.tracks w) = 1%nat /\
     List.length (Luma.timelines w) = 1%nat) /\
  (forall mesh this w, MainIco.Reachable mesh this w ->
     List.length (Luma.matrices w)
       = (2 + Observe.drawCalls (Luma.commands w))%nat /\
     List.length (Luma.buffers w) = 1%nat /\
     List.length (Luma.tracks w) = 1%nat /\
     List.length (Luma.timelines w) = 1%nat).
Proof.
  split; [| split; [| split]].
  - intros this w Hr. destruct (tetra_run _ _ Hr) as (n & Hn & Hm).
    rewrite Hn, drawCalls_frames.
    destruct (tetra_reachable_inv _ _ Hr)
      as [-> (P & rest & tX & tY & eX & eY & au & cs & -> & Hk)].
    repeat split; assumption || reflexivity.
  - intros this w Hr. destruct (p001_run _ _ Hr) as (n & Hn & Hm).
    rewrite Hn, drawCalls_frames.
    destruct (p001_reachable_inv _ _ Hr)
      as [-> (P & rest & tX & tY & eX & eY & au & cs & -> & Hk)].
    repeat split; assumption || reflexivity.
  - intros mesh this w Hr. destruct (p000_run _ _ _ Hr) as (n & Hn & Hm).
    rewrite Hn, drawCalls_frames.
    destruct (p000_reachable_inv _ _ _ Hr)
      as [-> (data & P & rest & t & e & au & cs & Hd & -> & Hk)].
    repeat split; assumption || reflexivity.
  - intros mesh this w Hr.
    destruct (ico_run _ _ _ Hr) as (n & node & Hnode & Hn & Hm).
    rewrite Hn, drawCalls_frames.
    destruct (ico_reachable_inv _ _ _ Hr)
      as [-> (data & P & rest & t & e & au & cs & Hd & -> & Hk)].
    repeat split; assumption || reflexivity.
Qed.

(** X7 on the first program after its constructor and one frame: three
    Matrix4 objects, two buffers. *)
Lemma X7_witness :
  exists w, MainTetra.onRender TetraShape.theApp 1
              (TetraShape.shape MathGL.identity [] (JS.rem 0 2000 * 1)
                 (JS.rem 0 (2000 / (7 / 10)) * (7 / 10)) 0 0 ∅ []) = Some (tt, w) /\
            List.length (Luma.matrices w) = 3%nat /\
            List.length (Luma.buffers w) = 2%nat.
Proof.
  eexists. split; [apply tetra_frame |].
  destruct X7_a_frame_allocates_one_matrix_and_no_buffer as (H & _).
  destruct (H TetraShape.theApp _
              (MainTetra.reach_frame _ _ 1 _ tetra_reachable_start
                 (tetra_frame _ _ _ _ _ _ _ _ _)))
    as (Hm & Hb & _).
  split; [| exact Hb]. rewrite Hm. reflexivity.
Defined.

(** ** The icosphere's vertex data on any mesh *)

Section MeshFacts.
Import MathGL Luma IcoSphereFlat IcoShape Geometry.

Variable mesh : Mesh.

Lemma index_is_Some {A} (l : list A) (i : Z) :
  is_Some (JS.index l (i - 1)) <-> (1 <= i <= Z.of_nat (List.length l))%Z.
Proof.
  unfold JS.index. split.
  - destruct (Z.ltb_spec (i - 1) 0) as [Hneg | Hpos].
    + intros [x Hx]. discriminate.
    + intros Hs. apply lookup_lt_is_Some in Hs. lia.
  - apply index_in_range.
Qed.

Lemma corner_is_Some ij : is_Some (corner mesh ij) <-> inRange mesh ij.
Proof.
  destruct ij as [i j]. unfold corner, inRange. simpl.
  rewrite <- !index_is_Some. split.
  - intros [row Hrow].
    destruct (JS.index (vertices mesh) (i - 1)) as [v |]; [| discriminate].
    destruct (JS.index (normals mesh) (j - 1)) as [n |]; [| discriminate].
    split; eauto.
  - intros [[v ->] [n ->]]. simpl. eauto.
Qed.

(** The vertex data exist exactly when every index names an element. *)
Lemma vertexData_is_Some :
  is_Some (Part000.vertexData mesh) <-> Forall (inRange mesh) (faces mesh).
Proof.
  rewrite p000_vertexData_corners.
  rewrite !fmap_is_Some, mapM_is_Some.
  apply Forall_iff. intros ij. apply corner_is_Some.
Qed.

Lemma p000_construct_throws :
  Part000.vertexData mesh = None -> Part000.construct mesh emptyWorld = None.
Proof.
  intros Hd. unfold Part000.construct. rewrite Hd. run. reflexivity.
Qed.

Lemma ico_initialize_throws this w :
  MainIco.vertexData mesh = None -> MainIco.onInitialize mesh this w = None.
Proof.
  intros Hd. unfold MainIco.onInitialize. rewrite Hd. run. reflexivity.
Qed.

End MeshFacts.

(** X8: the constructor of unnamed/part_000, and [onInitialize] of the
    second program of src/main.ts, complete exactly when every entry
    [[i, j]] of [mesh.faces] names a position and a normal
    ([1 <= i <= vertices.length] and [1 <= j <= normals.length]).  With an
    index 0 or an index past the end, [mesh.vertices[i - 1]] is
    [undefined], spreading it throws, and no buffer is created. *)
Theorem X8_mesh_indices_decide_construction :
  forall mesh,
    (is_Some (Part000.construct mesh Luma.emptyWorld)
     <-> Forall (Geometry.inRange mesh) (IcoSphereFlat.faces mesh)) /\
    (forall this0 w0,
       MainIco.construct Luma.emptyWorld = Some (this0, w0) ->
       (is_Some (MainIco.onInitialize mesh this0 w0)
        <-> Forall (Geometry.inRange mesh) (IcoSphereFlat.faces mesh))).
Proof.
  intros mesh. split.
  - rewrite <- vertexData_is_Some. split.
    + intros [[this w] Hc]. eapply p000_construct_data, Hc.
    + intros [data Hd]. rewrite (p000_construct _ _ Hd). eauto.
  - intros this0 w0 Hc. rewrite ico_construct in Hc. inversion Hc; subst.
    rewrite <- vertexData_is_Some. split.
    + intros [[this w] Hi]. eapply ico_initialize_data, Hi.
    + intros [data Hd].
      rewrite (ico_initialize _ _ _ _ _ _ _ _ Hd). eauto.
Qed.

(** X8 on a mesh whose only entry has the index 0: the constructor throws;
    and on the one-triangle mesh it completes. *)
Lemma X8_witness :
  Part000.construct
    (IcoSphereFlat.mkMesh [[0; 0; 0]] [[0; 0; 1]] [(0, 1)]%Z) Luma.emptyWorld
  = None /\
  is_Some (Part000.construct IcoShape.oneTriangle Luma.emptyWorld) /\
  is_Some (MainIco.onInitialize IcoShape.oneTriangle IcoShape.constructedIco
             (IcoShape.uninitialized MathGL.identity [] (JS.rem 0 5000 * 1) 0 ∅ [])).
Proof.
  split; [| split].
  - destruct (Part000.construct
                (IcoSphereFlat.mkMesh [[0; 0; 0]] [[0; 0; 1]] [(0, 1)]%Z)
                Luma.emptyWorld) as [r |] eqn:E; [| reflexivity].
    exfalso.
    assert (Hs : is_Some (Part000.construct
                (IcoSphereFlat.mkMesh [[0; 0; 0]] [[0; 0; 1]] [(0, 1)]%Z)
                Luma.emptyWorld)) by (rewrite E; eauto).
    apply (proj1 (X8_mesh_indices_decide_construction _)) in Hs.
    apply Forall_inv in Hs. destruct Hs as [[Hs _] _]. simpl in Hs. lia.
  - apply (proj1 (X8_mesh_indices_decide_construction _)).
    destruct oneTriangle_wellFormed as (_ & _ & H). exact H.
  - apply (proj2 (X8_mesh_indices_decide_construction _) _ _ ico_construct).
    destruct oneTriangle_wellFormed as (_ & _ & H). exact H.
Defined.

(** ** The second program of src/main.ts before [onInitialize] *)

(** X9: between its constructor and [onInitialize] the second program of
    src/main.ts has no model node, and the optional call
    [this.modelNode?.draw] keeps a frame safe: rendered then (after any
    advance of the timeline) it completes, uploads both matrices, and
    opens and closes a render pass without a draw call; no buffer
    exists. *)
Theorem X9_before_onInitialize_nothing_is_drawn :
  forall deltaMs aspect,
    exists this0 w0 w1 w2 mv p,
      MainIco.construct Luma.emptyWorld = Some (this0, w0) /\
      Luma.AnimationLoop_tick deltaMs w0 = Some (tt, w1) /\
      MainIco.onRender this0 aspect w1 = Some (tt, w2) /\
      Luma.commands w2
        = [Luma.BeginRenderPass [1; 1; 1; 1]; Luma.EndRenderPass] /\
      Observe.drawCalls (Luma.commands w2) = 0%nat /\
      Luma.buffers w2 = [] /\
      Luma.appUniforms w2 !! "modelViewMatrix" = Some mv /\
      Luma.appUniforms w2 !! "projectionMatrix" = Some p.
Proof.
  intros d aspect.
  exists IcoShape.constructedIco. do 5 eexists.
  split; [apply ico_construct |].
  split.
  { unfold IcoShape.uninitialized. run. reflexivity. }
  split.
  { unfold MainIco.onRender, MainIco.rotationOf, MainIco.ModelNode_draw,
      IcoShape.constructedIco.
    run_frame. rewrite two_inserts_union, (left_id_L ∅ (∪)). reflexivity. }
  simpl. repeat split.
Qed.

(** ** [onFinalize] *)

(** X10: in any world of a run, [onFinalize] releases every buffer the
    program has created on the device, with the model and (once) the
    uniform store, so that no buffer outlives the program.  The two
    tetrahedron programs and unnamed/part_000 release each buffer exactly
    once (in part_000 as the managed resource of the model node).  The
    second program of src/main.ts releases its one buffer twice: once by
    the model, which destroys the geometry it was constructed from, and
    once more as the managed resource of the model node.  Before
    [onInitialize] its [onFinalize] finds no model node and no buffer, and
    releases the uniform store only. *)
Theorem X10_onFinalize_releases_every_buffer :
  (forall this w, MainTetra.Reachable this w ->
     let released := MainTetraFinalize.onFinalize this in
     Release.releasedBuffers released = seq 0 (List.length (Luma.buffers w)) /\
     Release.releasedModels released = [MainTetra.model this] /\
     Release.storeReleases released = 1%nat) /\
  (forall this w, Part001.Reachable this w ->
     let released := Part001Finalize.onFinalize this in
     Release.releasedBuffers released = seq 0 (List.length (Luma.buffers w)) /\
     Release.releasedModels released = [Part001.model this] /\
     Release.storeReleases released = 1%nat) /\
  (forall mesh this w, Part000.Reachable mesh this w ->
     let released := Part000Finalize.onFinalize this in
     Release.releasedBuffers released = seq 0 (List.length (Luma.buffers w)) /\
     Release.releasedModels released
       = [Part000.node_model (Part000.modelNode this)] /\
     Release.storeReleases released = 1%nat) /\
  (forall mesh this w, MainIco.Reachable mesh this w ->
     let released := MainIcoFinalize.onFinalize this in
     List.length (Luma.buffers w) = 1%nat /\
     Release.releasedBuffers released
       = seq 0 (List.length (Luma.buffers w))
         ++ seq 0 (List.length (Luma.buffers w)) /\
     Release.releasedBuffers released = [0; 0]%nat /\
     (exists node, MainIco.modelNode this = Some node /\
                   Release.releasedModels released = [MainIco.node_model node]) /\
     Release.storeReleases released = 1%nat) /\
  (forall this0 w0, MainIco.construct Luma.emptyWorld = Some (this0, w0) ->
     MainIcoFinalize.onFinalize this0 = [Release.ReleasedUniformStore] /\
     Luma.buffers w0 = []).
Proof.
  split; [| split; [| split; [| split]]].
  - intros this w Hr.
    destruct (tetra_reachable_inv _ _ Hr)
      as [-> (P & rest & tX & tY & eX & eY & au & cs & -> & Hk)].
    repeat split.
  - intros this w Hr.
    destruct (p001_reachable_inv _ _ Hr)
      as [-> (P & rest & tX & tY & eX & eY & au & cs & -> & Hk)].
    repeat split.
  - intros mesh this w Hr.
    destruct (p000_reachable_inv _ _ _ Hr)
      as [-> (data & P & rest & t & e & au & cs & Hd & -> & Hk)].
    repeat split.
  - intros mesh this w Hr.
    destruct (ico_reachable_inv _ _ _ Hr)
      as [-> (data & P & rest & t & e & au & cs & Hd & -> & Hk)].
    do 3 (split; [reflexivity |]). split; [| reflexivity].
    eexists. split; reflexivity.
  - intros this0 w0 Hc. rewrite ico_construct in Hc. inversion Hc; subst.
    split; reflexivity.
Qed.

(** X10 on the first program right after its constructor (the buffers 0
    and 1, each once), and on the second program of src/main.ts on the
    one-triangle mesh right after [onInitialize] (the buffer 0, twice). *)
Lemma X10_witness :
  Release.releasedBuffers (MainTetraFinalize.onFinalize TetraShape.theApp)
  = [0; 1]%nat /\
  Release.releasedBuffers
    (MainIcoFinalize.onFinalize (IcoShape.appIco IcoShape.oneTriangle))
  = [0; 0]%nat.
Proof.
  destruct oneTriangle_data as [data Hd].
  destruct X10_onFinalize_releases_every_buffer as (H1 & _ & _ & H4 & _).
  destruct (H1 _ _ tetra_reachable_start) as (Hb & _).
  destruct (H4 _ _ _ (ico_reachable_start data Hd)) as (_ & _ & Hi & _).
  split; [exact Hb | exact Hi].
Defined.

(** ** The uniforms set and the uniforms declared *)

Section UniformKeyFacts.
Import Luma.

Lemma onlyKeys_dom k1 k2 (u : gmap string MathGL.Matrix4) :
  Observe.onlyKeys k1 k2 u -> dom u ⊆ ({[k1; k2]} : gset string).
Proof.
  intros H k Hk. apply elem_of_dom in Hk.
  destruct (decide (k = k1)) as [-> | N1]; [set_solver |].
  destruct (decide (k = k2)) as [-> | N2]; [set_solver |].
  rewrite (H k N1 N2) in Hk. now destruct Hk.
Qed.

Lemma two_inserts_dom k1 k2 a b (u : gmap string MathGL.Matrix4) :
  Observe.onlyKeys k1 k2 u ->
  dom (<[k1 := a]> (<[k2 := b]> u)) = ({[k1; k2]} : gset string).
Proof.
  intros H. pose proof (onlyKeys_dom _ _ _ H) as Hd.
  rewrite !dom_insert_L. apply set_eq. intros k. specialize (Hd k).
  rewrite !elem_of_union, !elem_of_singleton in *. tauto.
Qed.

End UniformKeyFacts.

(** X11: the uniforms a program sets are the uniforms it declares in
    [app.uniformTypes] and [lighting.uniformTypes].  In every world of a
    run the lighting block holds exactly the declared [lightPosition], the
    app block holds no key that is not declared, and after any frame it
    holds every declared key. *)
Theorem X11_uniforms_set_are_the_uniforms_declared :
  (forall this w, MainTetra.Reachable this w ->
     dom (Luma.lightingUniforms w)
       = list_to_set (fst <$> MainTetraShaders.lighting_uniformTypes) /\
     dom (Luma.appUniforms w)
       ⊆ list_to_set (fst <$> MainTetraShaders.app_uniformTypes) /\
     forall aspect w', MainTetra.onRender this aspect w = Some (tt, w') ->
       dom (Luma.appUniforms w')
         = (list_to_set (fst <$> MainTetraShaders.app_uniformTypes) : gset string)) /\
  (forall this w, Part001.Reachable this w ->
     dom (Luma.lightingUniforms w)
       = list_to_set (fst <$> Part001Shaders.lighting_uniformTypes) /\
     dom (Luma.appUniforms w)
       ⊆ list_to_set (fst <$> Part001Shaders.app_uniformTypes) /\
     forall aspect w', Part001.onRender this aspect w = Some (tt, w') ->
       dom (Luma.appUniforms w')
         = (list_to_set (fst <$> Part001Shaders.app_uniformTypes) : gset string)) /\
  (forall mesh this w, Part000.Reachable mesh this w ->
     dom (Luma.lightingUniforms w)
       = list_to_set (fst <$> IcoShaders.lighting_uniformTypes) /\
     dom (Luma.appUniforms w)
       ⊆ list_to_set (fst <$> IcoShaders.app_uniformTypes) /\
     forall aspect w', Part000.onRender this aspect w = Some (tt, w') ->
       dom (Luma.appUniforms w')
         = (list_to_set (fst <$> IcoShaders.app_uniformTypes) : gset string)) /\
  (forall mesh this w, MainIco.Reachable mesh this w ->
     dom (Luma.lightingUniforms w)
       = list_to_set (fst <$> IcoShaders.lighting_uniformTypes) /\
     dom (Luma.appUniforms w)
       ⊆ list_to_set (fst <$> IcoShaders.app_uniformTypes) /\
     forall aspect w', MainIco.onRender this aspect w = Some (tt, w') ->
       dom (Luma.appUniforms w')
         = (list_to_set (fst <$> IcoShaders.app_uniformTypes) : gset string)).
Proof.
  split; [| split; [| split]].
  - intros this w Hr.
    destruct (tetra_reachable_inv _ _ Hr)
      as [-> (P & rest & tX & tY & eX & eY & au & cs & -> & Hk)].
    split; [| split].
    + simpl. rewrite dom_singleton_L. set_solver.
    + simpl. pose proof (onlyKeys_dom _ _ _ Hk). set_solver.
    + intros aspect w' Hf. rewrite tetra_frame in Hf. inversion Hf; subst.
      simpl. rewrite (two_inserts_dom _ _ _ _ _ Hk). set_solver.
  - intros this w Hr.
    destruct (p001_reachable_inv _ _ Hr)
      as [-> (P & rest & tX & tY & eX & eY & au & cs & -> & Hk)].
    split; [| split].
    + simpl. rewrite dom_singleton_L. set_solver.
    + simpl. pose proof (onlyKeys_dom _ _ _ Hk). set_solver.
    + intros aspect w' Hf. rewrite p001_frame in Hf. inversion Hf; subst.
      simpl. rewrite (two_inserts_dom _ _ _ _ _ Hk). set_solver.
  - intros mesh this w Hr.
    destruct (p000_reachable_inv _ _ _ Hr)
      as [-> (data & P & rest & t & e & au & cs & Hd & -> & Hk)].
    split; [| split].
    + simpl. rewrite dom_singleton_L. set_solver.
    + simpl. pose proof (onlyKeys_dom _ _ _ Hk). set_solver.
    + intros aspect w' Hf. rewrite p000_frame in Hf. inversion Hf; subst.
      simpl. rewrite (two_inserts_dom _ _ _ _ _ Hk). set_solver.
  - intros mesh this w Hr.
    destruct (ico_reachable_inv _ _ _ Hr)
      as [-> (data & P & rest & t & e & au & cs & Hd & -> & Hk)].
    split; [| split].
    + simpl. rewrite dom_singleton_L. set_solver.
    + simpl. pose proof (onlyKeys_dom _ _ _ Hk). set_solver.
    + intros aspect w' Hf. rewrite ico_frame in Hf. inversion Hf; subst.
      simpl. rewrite (two_inserts_dom _ _ _ _ _ Hk). set_solver.
Qed.

(** X11 on the first program: after the constructor no uniform of the app
    block is set, after the first frame both are. *)
Lemma X11_witness :
  dom (Luma.appUniforms
         (TetraShape.shape MathGL.identity [] (JS.rem 0 2000 * 1)
            (JS.rem 0 (2000 / (7 / 10)) * (7 / 10)) 0 0 ∅ []))
    ⊆ ({["mvpMatrix"; "mvMatrix"]} : gset string) /\
  exists w', MainTetra.onRender TetraShape.theApp 1
               (TetraShape.shape MathGL.identity [] (JS.rem 0 2000 * 1)
                  (JS.rem 0 (2000 / (7 / 10)) * (7 / 10)) 0 0 ∅ []) = Some (tt, w') /\
             dom (Luma.appUniforms w') = ({["mvpMatrix"; "mvMatrix"]} : gset string).
Proof.
  destruct X11_uniforms_set_are_the_uniforms_declared as (H & _).
  destruct (H _ _ tetra_reachable_start) as (_ & Hs & Hf).
  split.
  - etransitivity; [exact Hs |]. simpl. set_solver.
  - eexists. split; [apply tetra_frame |].
    rewrite (Hf 1 _ (tetra_frame _ _ _ _ _ _ _ _ _)). simpl. set_solver.
Defined.

(** ** The tetrahedron's buffers and the vertex count *)

(** X12: the vertex count [4 * 3] of the tetrahedron programs is the
    number of vertices their buffers hold.  In every world of a run the
    position and normal buffers of the first program of src/main.ts have
    three floats per vertex, and the buffer of unnamed/part_001 six; every
    vertex below the vertex count has a position and a normal in its
    buffer, and the vertex after the last one has none. *)
Theorem X12_tetrahedron_buffers_hold_the_vertex_count :
  (forall this w, MainTetra.Reachable this w ->
     exists positions normals,
       Luma.buffers w !! MainTetra.positionBuffer this = Some positions /\
       Luma.buffers w !! MainTetra.vertexNormalBuffer this = Some normals /\
       let count := Luma.vertexCount (MainTetra.model this) in
       List.length positions = (3 * count)%nat /\
       List.length normals = (3 * count)%nat /\
       (forall i, (i < count)%nat ->
          is_Some (Observe.fetch positions 12 0 i) /\
          is_Some (Observe.fetch normals 12 0 i)) /\
       Observe.fetch positions 12 0 count = None /\
       Observe.fetch normals 12 0 count = None) /\
  (forall this w, Part001.Reachable this w ->
     exists data,
       Luma.buffers w !! Part001.vertexDataBuffer this = Some data /\
       let count := Luma.vertexCount (Part001.model this) in
       List.length data = (6 * count)%nat /\
       (forall i, (i < count)%nat ->
          is_Some (Observe.fetch data 24 0 i) /\
          is_Some (Observe.fetch data 24 12 i)) /\
       Observe.fetch data 24 0 count = None /\
       Observe.fetch data 24 12 count = None).
Proof.
  split.
  - intros this w Hr.
    destruct (tetra_reachable_inv _ _ Hr)
      as [-> (P & rest & tX & tY & eX & eY & au & cs & -> & Hk)].
    exists MainTetra.positionData, MainTetra.vertexNormalData.
    split; [reflexivity |]. split; [reflexivity |]. cbv zeta.
    split; [reflexivity |]. split; [reflexivity |].
    split; [| split; reflexivity].
    intros i Hi. simpl in Hi.
    rewrite tetra_position_fetch, tetra_normal_fetch by exact Hi.
    split; apply lookup_lt_is_Some; simpl; lia.
  - intros this w Hr.
    destruct (p001_reachable_inv _ _ Hr)
      as [-> (P & rest & tX & tY & eX & eY & au & cs & -> & Hk)].
    exists Part001.vertexData.
    split; [reflexivity |]. cbv zeta.
    split; [reflexivity |].
    split; [| split; reflexivity].
    intros i Hi. simpl in Hi.
    rewrite p001_position_fetch, p001_normal_fetch by exact Hi.
    split; apply lookup_lt_is_Some; simpl; lia.
Qed.

(** X12 on the first program right after its constructor: 36 floats of
    positions, and a position for the vertex 11. *)
Lemma X12_witness :
  exists positions,
    Luma.buffers (TetraShape.shape MathGL.identity [] (JS.rem 0 2000 * 1)
                    (JS.rem 0 (2000 / (7 / 10)) * (7 / 10)) 0 0 ∅ []) !! 0%nat
      = Some positions /\
    List.length positions = 36%nat /\
    is_Some (Observe.fetch positions 12 0 11).
Proof.
  destruct X12_tetrahedron_buffers_hold_the_vertex_count as (H & _).
  destruct (H _ _ tetra_reachable_start)
    as (positions & normals & Hp & _ & Hl & _ & Hf & _).
  exists positions. split; [exact Hp |]. split; [exact Hl |].
  apply (Hf 11%nat). simpl. lia.
Defined.

(** ** Facts on matrices as the shaders apply them *)

Section ShaderMathFacts.
Import MathGL Geometry.

Lemma mul_mmul a b v : GLSL.mul (mmul a b) v = GLSL.mul a (GLSL.mul b v).
Proof.
  rewrite <- multiplyRight_mmul. destruct a, b, v.
  unfold multiplyRight, GLSL.mul. simpl. f_equal; ring.
Qed.

Lemma mmul_assoc a b c : mmul (mmul a b) c = mmul a (mmul b c).
Proof.
  rewrite <- !multiplyRight_mmul. destruct a, b, c.
  unfold multiplyRight. simpl. f_equal; ring.
Qed.

Lemma affine_mmul a b : affine a -> affine b -> affine (mmul a b).
Proof.
  destruct a, b. unfold affine, mmul, tabulate, entry, elem. simpl.
  intros (-> & -> & -> & ->) (-> & -> & -> & ->). repeat split; ring.
Qed.

Lemma affine_Rx t : affine (Rx t).
Proof. repeat split. Qed.

Lemma affine_Ry t : affine (Ry t).
Proof. repeat split. Qed.

Lemma affine_Rz t : affine (Rz t).
Proof. repeat split. Qed.

Lemma affine_lookAt eye center up : affine (lookAt eye center up).
Proof.
  unfold lookAt.
  destruct (JS.ltb (Rabs (vx eye - vx center)) EPSILON
            && JS.ltb (Rabs (vy eye - vy center)) EPSILON
            && JS.ltb (Rabs (vz eye - vz center)) EPSILON);
    repeat split.
Qed.

Lemma affine_modelXYZ rx ry rz : affine (modelXYZ rx ry rz).
Proof.
  unfold modelXYZ.
  auto using affine_mmul, affine_Rx, affine_Ry, affine_Rz.
Qed.

(** An affine matrix maps the point [(p, 1)] to a point and the direction
    [(d, 0)] to a direction. *)
Lemma mul_point m p :
  affine m -> GLSL.mul m (GLSL.vec4_of p 1) = GLSL.vec4_of (point m p) 1.
Proof.
  intros (H3 & H7 & H11 & H15). unfold point, GLSL.mul, GLSL.vec4_of, GLSL.vec3_of.
  simpl. f_equal. rewrite H3, H7, H11, H15. ring.
Qed.

Lemma mul_direction m d :
  affine m -> GLSL.mul m (GLSL.vec4_of d 0) = GLSL.vec4_of (direction m d) 0.
Proof.
  intros (H3 & H7 & H11 & H15).
  unfold direction, GLSL.mul, GLSL.vec4_of, GLSL.vec3_of.
  simpl. f_equal. rewrite H3, H7, H11. ring.
Qed.

Lemma point_mmul a b p : affine b -> point (mmul a b) p = point a (point b p).
Proof.
  intros Hb. unfold point at 1 2. now rewrite mul_mmul, mul_point.
Qed.

Lemma direction_mmul a b d :
  affine b -> direction (mmul a b) d = direction a (direction b d).
Proof.
  intros Hb. unfold direction at 1 2. now rewrite mul_mmul, mul_direction.
Qed.

Lemma point_difference m a b :
  subtract (point m a) (point m b) = direction m (subtract a b).
Proof. apply Vector3_eq; simpl; ring. Qed.

(** [transformAsPoint] of an affine matrix divides by 1. *)
Lemma transformAsPoint_affine m v :
  affine m -> transformAsPoint m v = point m v.
Proof.
  intros (H3 & H7 & H11 & H15). unfold transformAsPoint, point.
  rewrite H3, H7, H11, H15.
  replace (0 * vx v + 0 * vy v + 0 * vz v + 1) with 1 by ring.
  rewrite eqb_false by lra.
  apply Vector3_eq; simpl; field.
Qed.

Lemma isometry_mmul a b :
  isometry a -> isometry b -> affine b -> isometry (mmul a b).
Proof.
  intros Ha Hb Hf u v. rewrite !direction_mmul by exact Hf.
  now rewrite Ha, Hb.
Qed.

Lemma isometry_length m a :
  isometry m -> GLSL.length (direction m a) = GLSL.length a.
Proof. intros H. unfold GLSL.length. now rewrite H. Qed.

Lemma isometry_normalize m a :
  isometry m -> GLSL.normalize (direction m a) = direction m (GLSL.normalize a).
Proof.
  intros H. unfold GLSL.normalize. rewrite (isometry_length _ _ H).
  apply Vector3_eq; simpl; unfold Rdiv; ring.
Qed.

Lemma isometry_Rx t : isometry (Rx t).
Proof.
  intros a b. pose proof (sin2_cos2 t) as H. unfold Rsqr in H.
  unfold GLSL.dot, direction, GLSL.mul, Rx. simpl.
  set (s := sin t) in *. set (c := cos t) in *. clearbody s c.
  nsatz.
Qed.

Lemma isometry_Ry t : isometry (Ry t).
Proof.
  intros a b. pose proof (sin2_cos2 t) as H. unfold Rsqr in H.
  unfold GLSL.dot, direction, GLSL.mul, Ry. simpl.
  set (s := sin t) in *. set (c := cos t) in *. clearbody s c.
  nsatz.
Qed.

Lemma isometry_Rz t : isometry (Rz t).
Proof.
  intros a b. pose proof (sin2_cos2 t) as H. unfold Rsqr in H.
  unfold GLSL.dot, direction, GLSL.mul, Rz. simpl.
  set (s := sin t) in *. set (c := cos t) in *. clearbody s c.
  nsatz.
Qed.

Lemma isometry_modelXYZ rx ry rz : isometry (modelXYZ rx ry rz).
Proof.
  unfold modelXYZ.
  auto using isometry_mmul, isometry_Rx, isometry_Ry, isometry_Rz,
    affine_Ry, affine_Rz.
Qed.

Lemma normalize_unit v : lengthSquared v = 1 -> normalize v = v.
Proof.
  intros H. unfold normalize, magnitude. rewrite H, sqrt_1.
  rewrite eqb_false by lra. apply Vector3_eq; simpl; field.
Qed.

Lemma cross_scale_r k a b : cross a (scale k b) = scale k (cross a b).
Proof. apply Vector3_eq; simpl; ring. Qed.

(** Lagrange's identity. *)
Lemma lengthSquared_cross a b :
  lengthSquared (cross a b)
  = lengthSquared a * lengthSquared b - GLSL.dot a b * GLSL.dot a b.
Proof. unfold lengthSquared, cross, GLSL.dot. simpl. ring. Qed.

(** The rows of a look-at matrix are three unit vectors at right angles,
    unless the camera looks along [up]. *)
Lemma isometry_lookAt eye center up :
  lengthSquared (cross up (subtract eye center)) <> 0 ->
  isometry (lookAt eye center up).
Proof.
  intros Hc. unfold lookAt.
  destruct (JS.ltb (Rabs (vx eye - vx center)) EPSILON
            && JS.ltb (Rabs (vy eye - vy center)) EPSILON
            && JS.ltb (Rabs (vz eye - vz center)) EPSILON).
  { intros a b. unfold GLSL.dot, direction, GLSL.mul, identity. simpl. ring. }
  set (d := subtract eye center) in *.
  assert (Hd : lengthSquared d <> 0).
  { intros E. apply Hc. rewrite (lengthSquared_zero _ E).
    unfold lengthSquared, cross. simpl. ring. }
  pose proof (normalize_lengthSquared d Hd) as Hz.
  destruct (normalize_scaled d) as (k & Hk & Ek).
  set (z := normalize d) in *.
  assert (Hc1 : lengthSquared (cross up z) <> 0).
  { rewrite Ek, cross_scale_r, lengthSquared_scale.
    apply Rmult_integral_contrapositive_currified; [nra | exact Hc]. }
  pose proof (normalize_lengthSquared _ Hc1) as Hx.
  destruct (normalize_scaled (cross up z)) as (k' & Hk' & Ek').
  assert (Hxz : GLSL.dot (normalize (cross up z)) z = 0).
  { rewrite Ek', dot_scale_l, cross_perp_r. ring. }
  set (x := normalize (cross up z)) in *.
  assert (Hy : lengthSquared (cross z x) = 1).
  { rewrite lengthSquared_cross, Hz, Hx.
    replace (GLSL.dot z x) with (GLSL.dot x z)
      by (unfold GLSL.dot; ring).
    rewrite Hxz. ring. }
  cbv zeta. rewrite (normalize_unit _ Hy).
  clearbody x z. clear -Hx Hz Hxz.
  destruct x as [x1 x2 x3], z as [z1 z2 z3].
  unfold lengthSquared, GLSL.dot in Hx, Hz, Hxz. simpl in Hx, Hz, Hxz.
  intros [a1 a2 a3] [b1 b2 b3].
  unfold GLSL.dot, direction, GLSL.mul, cross. simpl.
  nsatz.
Qed.

End ShaderMathFacts.

(** ** The uniform blocks a frame leaves for the shaders *)

Section FrameBlockFacts.
Import MathGL Luma Geometry.

Lemma tetra_frame_blocks this w aspect w' :
  MainTetra.Reachable this w ->
  MainTetra.onRender this aspect w = Some (tt, w') ->
  exists rx ry,
    MainTetra.rotations this w = Some ((rx, ry), w) /\
    let MV := mmul TetraShape.view (modelXYZ rx ry 0) in
    MainTetraShaders.appBlock w'
    = Some (MainTetraShaders.mkAppBlock
              (mmul (perspective (PI / 3) aspect defaultNear defaultFar) MV) MV) /\
    MainTetraShaders.lightingBlock w'
    = Some (MainTetraShaders.mkLightingBlock
              (point TetraShape.view MainTetra.lightPosition)).
Proof.
  intros Hr Hf.
  destruct (tetra_reachable_inv _ _ Hr)
    as [-> (P & rest & tX & tY & eX & eY & au & cs & -> & Hk)].
  exists (TetraShape.angleX tX), (TetraShape.angleY tX tY).
  split; [apply tetra_rotations |].
  rewrite tetra_frame in Hf. inversion Hf; subst. clear Hf.
  unfold MainTetraShaders.appBlock, MainTetraShaders.lightingBlock,
    TetraShape.shape.
  cbn [appUniforms lightingUniforms].
  rewrite lookup_insert_eq, lookup_insert_ne by discriminate.
  rewrite lookup_insert_eq, lookup_singleton_eq.
  cbn [mbind option_bind].
  rewrite multiplyRight_mmul, rotateZ_mmul, rotateY_mmul, rotateX_mmul.
  unfold modelXYZ. rewrite !mmul_assoc.
  unfold TetraShape.light at 1.
  rewrite transformAsPoint_affine by apply affine_lookAt.
  split; reflexivity.
Qed.

Lemma p001_frame_blocks this w aspect w' :
  Part001.Reachable this w ->
  Part001.onRender this aspect w = Some (tt, w') ->
  exists rx ry,
    Part001.rotations this w = Some ((rx, ry), w) /\
    Part001Shaders.appBlock w'
    = Some (Part001Shaders.mkAppBlock
              (mmul Part001Shape.view (modelXYZ rx ry 0))
              (perspective (PI / 3) aspect defaultNear defaultFar)) /\
    Part001Shaders.lightingBlock w'
    = Some (Part001Shaders.mkLightingBlock
              (point Part001Shape.view Part001.lightPosition)).
Proof.
  intros Hr Hf.
  destruct (p001_reachable_inv _ _ Hr)
    as [-> (P & rest & tX & tY & eX & eY & au & cs & -> & Hk)].
  exists (Part001Shape.angleX tX), (Part001Shape.angleY tX tY).
  split; [apply p001_rotations |].
  rewrite p001_frame in Hf. inversion Hf; subst. clear Hf.
  unfold Part001Shaders.appBlock, Part001Shaders.lightingBlock,
    Part001Shape.shape.
  cbn [appUniforms lightingUniforms].
  rewrite lookup_insert_eq, lookup_insert_ne by discriminate.
  rewrite lookup_insert_eq, lookup_singleton_eq.
  cbn [mbind option_bind].
  rewrite rotateZ_mmul, rotateY_mmul, rotateX_mmul.
  unfold modelXYZ. rewrite !mmul_assoc.
  unfold Part001Shape.light at 1.
  rewrite transformAsPoint_affine by apply affine_lookAt.
  split; reflexivity.
Qed.

Lemma p000_frame_blocks mesh this w aspect w' :
  Part000.Reachable mesh this w ->
  Part000.onRender this aspect w = Some (tt, w') ->
  exists rotation,
    Part000.rotationOf this w = Some (rotation, w) /\
    IcoShaders.appBlock w'
    = Some (IcoShaders.mkAppBlock
              (mmul IcoShape.view (Ry rotation))
              (perspective (PI / 3) aspect defaultNear defaultFar)) /\
    IcoShaders.lightingBlock w'
    = Some (IcoShaders.mkLightingBlock
              (point IcoShape.view Part000.lightPosition)).
Proof.
  intros Hr Hf.
  destruct (p000_reachable_inv _ _ _ Hr)
    as [-> (data & P & rest & t & e & au & cs & Hd & -> & Hk)].
  exists (IcoShape.angle t).
  split; [apply p000_rotationOf |].
  rewrite p000_frame in Hf. inversion Hf; subst. clear Hf.
  unfold IcoShaders.appBlock, IcoShaders.lightingBlock, IcoShape.shape.
  cbn [appUniforms lightingUniforms].
  rewrite lookup_insert_eq, lookup_insert_ne by discriminate.
  rewrite lookup_insert_eq, lookup_singleton_eq.
  cbn [mbind option_bind].
  rewrite rotateY_mmul.
  unfold IcoShape.light at 1.
  rewrite transformAsPoint_affine by apply affine_lookAt.
  split; reflexivity.
Qed.

Lemma ico_frame_blocks mesh this w aspect w' :
  MainIco.Reachable mesh this w ->
  MainIco.onRender this aspect w = Some (tt, w') ->
  exists rotation,
    MainIco.rotationOf this w = Some (rotation, w) /\
    IcoShaders.appBlock w'
    = Some (IcoShaders.mkAppBlock
              (mmul IcoShape.view (Ry rotation))
              (perspective (PI / 3) aspect defaultNear defaultFar)) /\
    IcoShaders.lightingBlock w'
    = Some (IcoShaders.mkLightingBlock
              (point IcoShape.view MainIco.lightPosition)).
Proof.
  intros Hr Hf.
  destruct (ico_reachable_inv _ _ _ Hr)
    as [-> (data & P & rest & t & e & au & cs & Hd & -> & Hk)].
  exists (IcoShape.angle t).
  split; [apply ico_rotationOf |].
  rewrite ico_frame in Hf. inversion Hf; subst. clear Hf.
  unfold IcoShaders.appBlock, IcoShaders.lightingBlock, IcoShape.shape.
  cbn [appUniforms lightingUniforms].
  rewrite lookup_insert_eq, lookup_insert_ne by discriminate.
  rewrite lookup_insert_eq, lookup_singleton_eq.
  cbn [mbind option_bind].
  rewrite rotateY_mmul.
  unfold IcoShape.light at 1.
  rewrite transformAsPoint_affine by apply affine_lookAt.
  split; reflexivity.
Qed.

(** The cameras of the programs do not look along [up]. *)
Lemma tetra_view_isometry : isometry TetraShape.view.
Proof.
  apply isometry_lookAt.
  unfold lengthSquared, cross, subtract, MainTetra.eyePosition, defaultCenter,
    defaultUp. simpl. lra.
Qed.

Lemma p001_view_isometry : isometry Part001Shape.view.
Proof. exact tetra_view_isometry. Qed.

Lemma ico_view_isometry : isometry IcoShape.view.
Proof.
  apply isometry_lookAt.
  unfold lengthSquared, cross, subtract, Part000.eyePosition, defaultCenter,
    defaultUp. simpl. lra.
Qed.

(** The diffuse term as [fs] computes it from what [vs] hands over, for a
    view matrix [V] that keeps lengths and angles and a model matrix [M]:
    it is the diffuse term of the rotated surface point and the light in
    world space. *)
Lemma lambert_in_camera_space V M L p n :
  affine V -> isometry V -> affine M ->
  GLSL.clamp
    (GLSL.dot (GLSL.normalize (direction (mmul V M) n))
       (GLSL.normalize (subtract (point V L) (point (mmul V M) p)))) 0 1
  = lambert L (point M p) (direction M n).
Proof.
  intros HV HI HM.
  rewrite point_mmul, direction_mmul by exact HM.
  rewrite point_difference.
  rewrite (isometry_normalize V (direction M n) HI).
  rewrite (isometry_normalize V (subtract L (point M p)) HI).
  now rewrite HI.
Qed.

Lemma perspective_w fovy aspect near far v :
  GLSL.cw (GLSL.mul (perspective fovy aspect near far) v) = - GLSL.cz v.
Proof. unfold GLSL.mul, perspective. simpl. ring. Qed.

Lemma modelXYZ_origin rx ry rz :
  point (modelXYZ rx ry rz) (mkVector3 0 0 0) = mkVector3 0 0 0.
Proof.
  unfold modelXYZ. rewrite !point_mmul by auto using affine_Ry, affine_Rz.
  assert (Z : point (Rz rz) (mkVector3 0 0 0) = mkVector3 0 0 0)
    by (apply Vector3_eq; simpl; ring).
  assert (Y : point (Ry ry) (mkVector3 0 0 0) = mkVector3 0 0 0)
    by (apply Vector3_eq; simpl; ring).
  assert (X : point (Rx rx) (mkVector3 0 0 0) = mkVector3 0 0 0)
    by (apply Vector3_eq; simpl; ring).
  now rewrite Z, Y, X.
Qed.

End FrameBlockFacts.

(** ** The vertex shaders *)

Section VertexShaderFacts.
Import MathGL Geometry.

Lemma affine_view_model V rx ry rz :
  affine V -> affine (mmul V (modelXYZ rx ry rz)).
Proof. intros H. apply affine_mmul; [exact H | apply affine_modelXYZ]. Qed.

Lemma affine_view_Ry V t : affine V -> affine (mmul V (Ry t)).
Proof. intros H. apply affine_mmul; [exact H | apply affine_Ry]. Qed.

End VertexShaderFacts.

(** X13: in every frame the clip-space position a vertex shader writes to
    [gl_Position] is the perspective matrix of that frame applied to the
    camera-space position it hands to the fragment shader in [vVertex],
    and its [w] is the distance of the vertex in front of the camera
    ([-vVertex.z]).  The first program of src/main.ts, which multiplies the
    two matrices on the CPU and uploads the product, computes the same
    position as the three programs that multiply in the shader. *)
Theorem X13_clip_position_is_the_projected_camera_position :
  (forall this w aspect w',
     MainTetra.Reachable this w ->
     MainTetra.onRender this aspect w = Some (tt, w') ->
     exists app, MainTetraShaders.appBlock w' = Some app /\
       forall position vertexNormal,
         let out := MainTetraShaders.vs app position vertexNormal in
         GLSL.gl_Position out
         = GLSL.mul (MathGL.perspective (PI / 3) aspect MathGL.defaultNear
                       MathGL.defaultFar)
                    (GLSL.vec4_of (GLSL.vVertex out) 1) /\
         GLSL.cw (GLSL.gl_Position out) = - MathGL.vz (GLSL.vVertex out)) /\
  (forall this w aspect w',
     Part001.Reachable this w ->
     Part001.onRender this aspect w = Some (tt, w') ->
     exists app, Part001Shaders.appBlock w' = Some app /\
       forall position normal,
         let out := Part001Shaders.vs app position normal in
         GLSL.gl_Position out
         = GLSL.mul (MathGL.perspective (PI / 3) aspect MathGL.defaultNear
                       MathGL.defaultFar)
                    (GLSL.vec4_of (GLSL.vVertex out) 1) /\
         GLSL.cw (GLSL.gl_Position out) = - MathGL.vz (GLSL.vVertex out)) /\
  (forall mesh this w aspect w',
     Part000.Reachable mesh this w ->
     Part000.onRender this aspect w = Some (tt, w') ->
     exists app, IcoShaders.appBlock w' = Some app /\
       forall position normal,
         let out := IcoShaders.vs app position normal in
         GLSL.gl_Position out
         = GLSL.mul (MathGL.perspective (PI / 3) aspect MathGL.defaultNear
                       MathGL.defaultFar)
                    (GLSL.vec4_of (GLSL.vVertex out) 1) /\
         GLSL.cw (GLSL.gl_Position out) = - MathGL.vz (GLSL.vVertex out)) /\
  (forall mesh this w aspect w',
     MainIco.Reachable mesh this w ->
     MainIco.onRender this aspect w = Some (tt, w') ->
     exists app, IcoShaders.appBlock w' = Some app /\
       forall position normal,
         let out := IcoShaders.vs app position normal in
         GLSL.gl_Position out
         = GLSL.mul (MathGL.perspective (PI / 3) aspect MathGL.defaultNear
                       MathGL.defaultFar)
                    (GLSL.vec4_of (GLSL.vVertex out) 1) /\
         GLSL.cw (GLSL.gl_Position out) = - MathGL.vz (GLSL.vVertex out)).
Proof.
  split; [| split; [| split]].
  - intros this w aspect w' Hr Hf.
    destruct (tetra_frame_blocks _ _ _ _ Hr Hf) as (rx & ry & _ & Ha & _).
    eexists. split; [exact Ha |]. intros p n out. subst out.
    unfold MainTetraShaders.vs.
    cbn [GLSL.gl_Position GLSL.vVertex MainTetraShaders.modelViewMatrix
         MainTetraShaders.modelViewProjectionMatrix].
    rewrite mul_mmul, mul_point
      by (apply affine_view_model, affine_lookAt).
    split; [reflexivity |]. now rewrite perspective_w.
  - intros this w aspect w' Hr Hf.
    destruct (p001_frame_blocks _ _ _ _ Hr Hf) as (rx & ry & _ & Ha & _).
    eexists. split; [exact Ha |]. intros p n out. subst out.
    unfold Part001Shaders.vs.
    cbn [GLSL.gl_Position GLSL.vVertex Part001Shaders.modelViewMatrix
         Part001Shaders.projectionMatrix].
    rewrite mul_point by (apply affine_view_model, affine_lookAt).
    split; [reflexivity |]. now rewrite perspective_w.
  - intros mesh this w aspect w' Hr Hf.
    destruct (p000_frame_blocks _ _ _ _ _ Hr Hf) as (r & _ & Ha & _).
    eexists. split; [exact Ha |]. intros p n out. subst out.
    unfold IcoShaders.vs.
    cbn [GLSL.gl_Position GLSL.vVertex IcoShaders.modelViewMatrix
         IcoShaders.projectionMatrix].
    rewrite mul_point by (apply affine_view_Ry, affine_lookAt).
    split; [reflexivity |]. now rewrite perspective_w.
  - intros mesh this w aspect w' Hr Hf.
    destruct (ico_frame_blocks _ _ _ _ _ Hr Hf) as (r & _ & Ha & _).
    eexists. split; [exact Ha |]. intros p n out. subst out.
    unfold IcoShaders.vs.
    cbn [GLSL.gl_Position GLSL.vVertex IcoShaders.modelViewMatrix
         IcoShaders.projectionMatrix].
    rewrite mul_point by (apply affine_view_Ry, affine_lookAt).
    split; [reflexivity |]. now rewrite perspective_w.
Qed.

(** X13 on the first frame of the first program, at the vertex [v2]. *)
Lemma X13_witness :
  exists w' app,
    MainTetra.onRender TetraShape.theApp 1
      (TetraShape.shape MathGL.identity [] (JS.rem 0 2000 * 1)
         (JS.rem 0 (2000 / (7 / 10)) * (7 / 10)) 0 0 ∅ []) = Some (tt, w') /\
    MainTetraShaders.appBlock w' = Some app /\
    GLSL.cw (GLSL.gl_Position (MainTetraShaders.vs app MainTetra.v2 MainTetra.fn1))
    = - MathGL.vz (GLSL.vVertex (MainTetraShaders.vs app MainTetra.v2 MainTetra.fn1)).
Proof.
  destruct X13_clip_position_is_the_projected_camera_position as (H & _).
  destruct (H _ _ 1 _ tetra_reachable_start (tetra_frame _ _ _ _ _ _ _ _ _))
    as (app & Ha & Hv).
  eexists. exists app. split; [apply tetra_frame |]. split; [exact Ha |].
  apply (Hv MainTetra.v2 MainTetra.fn1).
Defined.

(** X14: a vertex shader commutes with interpolation over a face.  For
    weights [a + b + c = 1], the camera-space position and the clip-space
    position of the point [a p1 + b p2 + c p3] are the same combination of
    those of [p1], [p2] and [p3], whatever the matrices in the uniform
    block; and [vNormal] depends on the normal only, so it is the same
    over a face whose three vertices carry the same normal. *)
Theorem X14_vertex_shader_commutes_with_interpolation :
  forall a b c p1 p2 p3 n, a + b + c = 1 ->
    (forall app,
       let out q := MainTetraShaders.vs app q n in
       GLSL.vVertex (out (Geometry.combine a b c p1 p2 p3))
       = Geometry.combine a b c (GLSL.vVertex (out p1)) (GLSL.vVertex (out p2))
           (GLSL.vVertex (out p3)) /\
       GLSL.gl_Position (out (Geometry.combine a b c p1 p2 p3))
       = Geometry.combine4 a b c (GLSL.gl_Position (out p1))
           (GLSL.gl_Position (out p2)) (GLSL.gl_Position (out p3)) /\
       GLSL.vNormal (out (Geometry.combine a b c p1 p2 p3))
       = GLSL.vNormal (out p1)) /\
    (forall app,
       let out q := Part001Shaders.vs app q n in
       GLSL.vVertex (out (Geometry.combine a b c p1 p2 p3))
       = Geometry.combine a b c (GLSL.vVertex (out p1)) (GLSL.vVertex (out p2))
           (GLSL.vVertex (out p3)) /\
       GLSL.gl_Position (out (Geometry.combine a b c p1 p2 p3))
       = Geometry.combine4 a b c (GLSL.gl_Position (out p1))
           (GLSL.gl_Position (out p2)) (GLSL.gl_Position (out p3)) /\
       GLSL.vNormal (out (Geometry.combine a b c p1 p2 p3))
       = GLSL.vNormal (out p1)) /\
    (forall app,
       let out q := IcoShaders.vs app q n in
       GLSL.vVertex (out (Geometry.combine a b c p1 p2 p3))
       = Geometry.combine a b c (GLSL.vVertex (out p1)) (GLSL.vVertex (out p2))
           (GLSL.vVertex (out p3)) /\
       GLSL.gl_Position (out (Geometry.combine a b c p1 p2 p3))
       = Geometry.combine4 a b c (GLSL.gl_Position (out p1))
           (GLSL.gl_Position (out p2)) (GLSL.gl_Position (out p3)) /\
       GLSL.vNormal (out (Geometry.combine a b c p1 p2 p3))
       = GLSL.vNormal (out p1)).
Proof.
  intros a b c p1 p2 p3 n H.
  assert (Hc : c = 1 - a - b) by lra. subst c. clear H.
  split; [| split]; intros [[] []] out; subst out;
    (split; [| split; [| reflexivity]]).
  - apply Vector3_eq; simpl; ring.
  - unfold MainTetraShaders.vs, Geometry.combine4, GLSL.mul. simpl.
    f_equal; ring.
  - apply Vector3_eq; simpl; ring.
  - unfold Part001Shaders.vs, Geometry.combine4, GLSL.mul. simpl.
    f_equal; ring.
  - apply Vector3_eq; simpl; ring.
  - unfold IcoShaders.vs, Geometry.combine4, GLSL.mul. simpl.
    f_equal; ring.
Qed.

(** X14 at the centre of the first face of the tetrahedron, with the
    identity in both matrices. *)
Lemma X14_witness :
  GLSL.vVertex
    (MainTetraShaders.vs
       (MainTetraShaders.mkAppBlock MathGL.identity MathGL.identity)
       (Geometry.combine (1 / 3) (1 / 3) (1 / 3)
          MainTetra.v1 MainTetra.v3 MainTetra.v2) MainTetra.fn1)
  = Geometry.combine (1 / 3) (1 / 3) (1 / 3)
      (GLSL.vVertex
         (MainTetraShaders.vs
            (MainTetraShaders.mkAppBlock MathGL.identity MathGL.identity)
            MainTetra.v1 MainTetra.fn1))
      (GLSL.vVertex
         (MainTetraShaders.vs
            (MainTetraShaders.mkAppBlock MathGL.identity MathGL.identity)
            MainTetra.v3 MainTetra.fn1))
      (GLSL.vVertex
         (MainTetraShaders.vs
            (MainTetraShaders.mkAppBlock MathGL.identity MathGL.identity)
            MainTetra.v2 MainTetra.fn1)).
Proof.
  assert (H : 1 / 3 + 1 / 3 + 1 / 3 = 1) by lra.
  destruct (X14_vertex_shader_commutes_with_interpolation
              (1 / 3) (1 / 3) (1 / 3) MainTetra.v1 MainTetra.v3 MainTetra.v2
              MainTetra.fn1 H) as (HT & _).
  destruct (HT (MainTetraShaders.mkAppBlock MathGL.identity MathGL.identity))
    as (HV & _).
  exact HV.
Defined.

(** ** The fragment shaders *)

Section FragmentShaderFacts.
Import MathGL Geometry.

Lemma glsl_normalize_unit v :
  lengthSquared v <> 0 -> GLSL.dot (GLSL.normalize v) (GLSL.normalize v) = 1.
Proof.
  intros H.
  pose proof (lengthSquared_nonneg v) as Hp.
  assert (Hs : sqrt (lengthSquared v) <> 0).
  { intros E. apply sqrt_eq_0 in E; auto. }
  pose proof (sqrt_sqrt _ Hp) as Hq.
  unfold GLSL.normalize, GLSL.length.
  change (GLSL.dot v v) with (lengthSquared v).
  set (l := sqrt (lengthSquared v)) in *.
  unfold GLSL.dot. simpl.
  transitivity (lengthSquared v / (l * l)).
  - unfold lengthSquared. field. exact Hs.
  - rewrite Hq. field. exact H.
Qed.

(** Cauchy and Schwarz, for two vectors of length 1. *)
Lemma unit_dot_bounds u v :
  GLSL.dot u u = 1 -> GLSL.dot v v = 1 -> -1 <= GLSL.dot u v <= 1.
Proof.
  destruct u as [u1 u2 u3], v as [v1 v2 v3]. unfold GLSL.dot. simpl.
  intros Hu Hv.
  pose proof (Rle_0_sqr (u1 - v1)). pose proof (Rle_0_sqr (u2 - v2)).
  pose proof (Rle_0_sqr (u3 - v3)). pose proof (Rle_0_sqr (u1 + v1)).
  pose proof (Rle_0_sqr (u2 + v2)). pose proof (Rle_0_sqr (u3 + v3)).
  unfold Rsqr in *. split; nra.
Qed.

Lemma clamp_unit d : d <= 1 -> GLSL.clamp d 0 1 = Rmax d 0 /\ 0 <= Rmax d 0 <= 1.
Proof.
  intros H. unfold GLSL.clamp.
  assert (B : 0 <= Rmax d 0 <= 1).
  { split; [apply Rmax_r | apply Rmax_lub; lra]. }
  split; [| exact B]. apply Rmin_left. lra.
Qed.

End FragmentShaderFacts.

(** X15: the colour a fragment shader writes.  For a normal that is not
    null and a light that is not at the fragment, the cosine it computes
    lies between -1 and 1, so that [clamp] only ever cuts the negative
    values: the colour is the grey level [max(cosine, 0)], between 0 and
    1, with alpha 1 (tinted by [(0.9, 1, 1)] in the icosphere programs),
    and black for a fragment that faces away from the light. *)
Theorem X15_fragment_colour_is_the_clamped_cosine :
  forall light vVertex vNormal,
    MathGL.lengthSquared vNormal <> 0 ->
    MathGL.lengthSquared (MathGL.subtract light vVertex) <> 0 ->
    let cosine :=
      GLSL.dot (GLSL.normalize vNormal)
               (GLSL.normalize (MathGL.subtract light vVertex)) in
    let grey := Rmax cosine 0 in
    -1 <= cosine <= 1 /\ 0 <= grey <= 1 /\
    (cosine <= 0 -> grey = 0) /\
    MainTetraShaders.fs (MainTetraShaders.mkLightingBlock light) vVertex vNormal
      = GLSL.mkVec4 grey grey grey 1 /\
    Part001Shaders.fs (Part001Shaders.mkLightingBlock light) vVertex vNormal
      = GLSL.mkVec4 grey grey grey 1 /\
    IcoShaders.fs (IcoShaders.mkLightingBlock light) vVertex vNormal
      = GLSL.mkVec4 (grey * (9 / 10)) (grey * 1) (grey * 1) 1.
Proof.
  intros light vVertex vNormal Hn Hl cosine grey.
  pose proof (unit_dot_bounds _ _ (glsl_normalize_unit _ Hn)
                (glsl_normalize_unit _ Hl)) as Hb.
  fold cosine in Hb.
  destruct (clamp_unit cosine (proj2 Hb)) as (Hc & Hg). fold grey in Hc, Hg.
  split; [exact Hb |]. split; [exact Hg |].
  split; [intros H0; subst grey; now apply Rmax_right |].
  unfold MainTetraShaders.fs, Part001Shaders.fs, IcoShaders.fs.
  cbn [MainTetraShaders.lightPosition Part001Shaders.lightPosition
       IcoShaders.lightPosition].
  fold cosine. rewrite Hc.
  repeat split.
Qed.

(** X15 for the normal [(0, 0, 1)] at the origin, lit from [(0, 0, 2)]. *)
Lemma X15_witness :
  MainTetraShaders.fs
    (MainTetraShaders.mkLightingBlock (MathGL.mkVector3 0 0 2))
    (MathGL.mkVector3 0 0 0) (MathGL.mkVector3 0 0 1)
  = GLSL.mkVec4
      (Rmax (GLSL.dot (GLSL.normalize (MathGL.mkVector3 0 0 1))
               (GLSL.normalize
                  (MathGL.subtract (MathGL.mkVector3 0 0 2)
                     (MathGL.mkVector3 0 0 0)))) 0)
      (Rmax (GLSL.dot (GLSL.normalize (MathGL.mkVector3 0 0 1))
               (GLSL.normalize
                  (MathGL.subtract (MathGL.mkVector3 0 0 2)
                     (MathGL.mkVector3 0 0 0)))) 0)
      (Rmax (GLSL.dot (GLSL.normalize (MathGL.mkVector3 0 0 1))
               (GLSL.normalize
                  (MathGL.subtract (MathGL.mkVector3 0 0 2)
                     (MathGL.mkVector3 0 0 0)))) 0)
      1.
Proof.
  assert (Hn : MathGL.lengthSquared (MathGL.mkVector3 0 0 1) <> 0)
    by (unfold MathGL.lengthSquared; simpl; lra).
  assert (Hl : MathGL.lengthSquared
                 (MathGL.subtract (MathGL.mkVector3 0 0 2)
                    (MathGL.mkVector3 0 0 0)) <> 0)
    by (unfold MathGL.lengthSquared, MathGL.subtract; simpl; lra).
  destruct (X15_fragment_colour_is_the_clamped_cosine _ _ _ Hn Hl)
    as (_ & _ & _ & H & _).
  exact H.
Defined.

(** ** The lighting of a frame *)

(** X16: the tetrahedron programs light the model as in world space.  The
    constructor moves the light into camera space once, and a frame moves
    every vertex and normal there with its model-view matrix; as the view
    matrix keeps lengths and angles, the colour the two shaders give at a
    vertex is the diffuse term of the rotated vertex and normal and of the
    light where the program places it ([lightPosition], in world space):
    the cosine of the angle between the rotated normal and the direction
    from the rotated vertex to the light, cut at 0.  [rx] and [ry] are the
    angles of the frame. *)
Theorem X16_tetrahedron_is_lit_as_in_world_space :
  (forall this w aspect rx ry w' position normal,
     MainTetra.Reachable this w ->
     MainTetra.rotations this w = Some ((rx, ry), w) ->
     MainTetra.onRender this aspect w = Some (tt, w') ->
     let M := Geometry.modelXYZ rx ry 0 in
     MathGL.lengthSquared normal <> 0 ->
     MainTetra.lightPosition <> Geometry.point M position ->
     MainTetraShaders.shade w' position normal
     = Some (GLSL.vec4_of
               (GLSL.vec3_splat
                  (Geometry.lambert MainTetra.lightPosition
                     (Geometry.point M position) (Geometry.direction M normal)))
               1)) /\
  (forall this w aspect rx ry w' position normal,
     Part001.Reachable this w ->
     Part001.rotations this w = Some ((rx, ry), w) ->
     Part001.onRender this aspect w = Some (tt, w') ->
     let M := Geometry.modelXYZ rx ry 0 in
     MathGL.lengthSquared normal <> 0 ->
     Part001.lightPosition <> Geometry.point M position ->
     Part001Shaders.shade w' position normal
     = Some (GLSL.vec4_of
               (GLSL.vec3_splat
                  (Geometry.lambert Part001.lightPosition
                     (Geometry.point M position) (Geometry.direction M normal)))
               1)).
Proof.
  split.
  - intros this w aspect rx ry w' p n Hr Hrot Hf M _ _.
    destruct (tetra_frame_blocks _ _ _ _ Hr Hf) as (rx' & ry' & Hrot' & Ha & Hl).
    rewrite Hrot in Hrot'. injection Hrot' as <- <-.
    unfold MainTetraShaders.shade. rewrite Ha, Hl.
    cbn [mbind option_bind].
    unfold MainTetraShaders.vs, MainTetraShaders.fs.
    cbn [GLSL.vVertex GLSL.vNormal MainTetraShaders.modelViewMatrix
         MainTetraShaders.lightPosition].
    change (GLSL.vec3_of (GLSL.mul ?m (GLSL.vec4_of ?q 1)))
      with (Geometry.point m q).
    change (GLSL.vec3_of (GLSL.mul ?m (GLSL.vec4_of ?q 0)))
      with (Geometry.direction m q).
    rewrite lambert_in_camera_space;
      [reflexivity | apply affine_lookAt | apply tetra_view_isometry
      | apply affine_modelXYZ].
  - intros this w aspect rx ry w' p n Hr Hrot Hf M _ _.
    destruct (p001_frame_blocks _ _ _ _ Hr Hf) as (rx' & ry' & Hrot' & Ha & Hl).
    rewrite Hrot in Hrot'. injection Hrot' as <- <-.
    unfold Part001Shaders.shade. rewrite Ha, Hl.
    cbn [mbind option_bind].
    unfold Part001Shaders.vs, Part001Shaders.fs.
    cbn [GLSL.vVertex GLSL.vNormal Part001Shaders.modelViewMatrix
         Part001Shaders.lightPosition].
    change (GLSL.vec3_of (GLSL.mul ?m (GLSL.vec4_of ?q 1)))
      with (Geometry.point m q).
    change (GLSL.vec3_of (GLSL.mul ?m (GLSL.vec4_of ?q 0)))
      with (Geometry.direction m q).
    rewrite lambert_in_camera_space;
      [reflexivity | apply affine_lookAt | apply p001_view_isometry
      | apply affine_modelXYZ].
Qed.

(** X16 on the first frame of the first program, at the vertex [v1] with
    the normal [(0, 0, -1)] of the first face. *)
Lemma X16_witness :
  exists w',
    MainTetra.onRender TetraShape.theApp 1
      (TetraShape.shape MathGL.identity [] (JS.rem 0 2000 * 1)
         (JS.rem 0 (2000 / (7 / 10)) * (7 / 10)) 0 0 ∅ []) = Some (tt, w') /\
    MainTetraShaders.shade w' MainTetra.v1 (MathGL.mkVector3 0 0 (-1))
    = Some (GLSL.vec4_of
              (GLSL.vec3_splat
                 (Geometry.lambert MainTetra.lightPosition
                    (Geometry.point
                       (Geometry.modelXYZ (TetraShape.angleX (JS.rem 0 2000 * 1))
                          (TetraShape.angleY (JS.rem 0 2000 * 1)
                             (JS.rem 0 (2000 / (7 / 10)) * (7 / 10))) 0)
                       MainTetra.v1)
                    (Geometry.direction
                       (Geometry.modelXYZ (TetraShape.angleX (JS.rem 0 2000 * 1))
                          (TetraShape.angleY (JS.rem 0 2000 * 1)
                             (JS.rem 0 (2000 / (7 / 10)) * (7 / 10))) 0)
                       (MathGL.mkVector3 0 0 (-1)))))
              1).
Proof.
  eexists. split; [apply tetra_frame |].
  destruct X16_tetrahedron_is_lit_as_in_world_space as (H & _).
  apply (H _ _ 1 _ _ _ MainTetra.v1 (MathGL.mkVector3 0 0 (-1))
           tetra_reachable_start (tetra_rotations _ _ _ _ _ _ _ _)
           (tetra_frame _ _ _ _ _ _ _ _ _)).
  - unfold MathGL.lengthSquared. simpl. lra.
  - unfold MainTetra.v1. rewrite modelXYZ_origin.
    unfold MainTetra.lightPosition. intros E. injection E as E _ _. lra.
Defined.

(** X17: the icosphere programs light the model as in world space, with
    the tint [(0.9, 1, 1)]: the colour at a vertex is the diffuse term of
    the vertex and normal turned about the Y axis by the angle [rotation]
    of the frame, and of the light at [lightPosition] in world space. *)
Theorem X17_icosphere_is_lit_as_in_world_space :
  (forall mesh this w aspect rotation w' position normal,
     Part000.Reachable mesh this w ->
     Part000.rotationOf this w = Some (rotation, w) ->
     Part000.onRender this aspect w = Some (tt, w') ->
     let M := MathGL.Ry rotation in
     MathGL.lengthSquared normal <> 0 ->
     Part000.lightPosition <> Geometry.point M position ->
     IcoShaders.shade w' position normal
     = Some (GLSL.vec4_of
               (GLSL.times
                  (GLSL.vec3_splat
                     (Geometry.lambert Part000.lightPosition
                        (Geometry.point M position)
                        (Geometry.direction M normal)))
                  (MathGL.mkVector3 (9 / 10) 1 1))
               1)) /\
  (forall mesh this w aspect rotation w' position normal,
     MainIco.Reachable mesh this w ->
     MainIco.rotationOf this w = Some (rotation, w) ->
     MainIco.onRender this aspect w = Some (tt, w') ->
     let M := MathGL.Ry rotation in
     MathGL.lengthSquared normal <> 0 ->
     MainIco.lightPosition <> Geometry.point M position ->
     IcoShaders.shade w' position normal
     = Some (GLSL.vec4_of
               (GLSL.times
                  (GLSL.vec3_splat
                     (Geometry.lambert MainIco.lightPosition
                        (Geometry.point M position)
                        (Geometry.direction M normal)))
                  (MathGL.mkVector3 (9 / 10) 1 1))
               1)).
Proof.
  split.
  - intros mesh this w aspect r w' p n Hr Hrot Hf M _ _.
    destruct (p000_frame_blocks _ _ _ _ _ Hr Hf) as (r' & Hrot' & Ha & Hl).
    rewrite Hrot in Hrot'. injection Hrot' as <-.
    unfold IcoShaders.shade. rewrite Ha, Hl.
    cbn [mbind option_bind].
    unfold IcoShaders.vs, IcoShaders.fs.
    cbn [GLSL.vVertex GLSL.vNormal IcoShaders.modelViewMatrix
         IcoShaders.lightPosition].
    change (GLSL.vec3_of (GLSL.mul ?m (GLSL.vec4_of ?q 1)))
      with (Geometry.point m q).
    change (GLSL.vec3_of (GLSL.mul ?m (GLSL.vec4_of ?q 0)))
      with (Geometry.direction m q).
    rewrite lambert_in_camera_space;
      [reflexivity | apply affine_lookAt | apply ico_view_isometry
      | apply affine_Ry].
  - intros mesh this w aspect r w' p n Hr Hrot Hf M _ _.
    destruct (ico_frame_blocks _ _ _ _ _ Hr Hf) as (r' & Hrot' & Ha & Hl).
    rewrite Hrot in Hrot'. injection Hrot' as <-.
    unfold IcoShaders.shade. rewrite Ha, Hl.
    cbn [mbind option_bind].
    unfold IcoShaders.vs, IcoShaders.fs.
    cbn [GLSL.vVertex GLSL.vNormal IcoShaders.modelViewMatrix
         IcoShaders.lightPosition].
    change (GLSL.vec3_of (GLSL.mul ?m (GLSL.vec4_of ?q 1)))
      with (Geometry.point m q).
    change (GLSL.vec3_of (GLSL.mul ?m (GLSL.vec4_of ?q 0)))
      with (Geometry.direction m q).
    rewrite lambert_in_camera_space;
      [reflexivity | apply affine_lookAt | apply ico_view_isometry
      | apply affine_Ry].
Qed.

(** X17 on the first frame of unnamed/part_000 with the one-triangle mesh,
    at its first vertex with its normal [(0, 0, 1)]. *)
Lemma X17_witness :
  exists data w',
    Part000.vertexData IcoShape.oneTriangle = Some data /\
    Part000.onRender (IcoShape.app000 IcoShape.oneTriangle) 1
      (IcoShape.shape data MathGL.identity [] (JS.rem 0 5000 * 1) 0 ∅ [])
    = Some (tt, w') /\
    IcoShaders.shade w' (MathGL.mkVector3 0 0 0) (MathGL.mkVector3 0 0 1)
    = Some (GLSL.vec4_of
              (GLSL.times
                 (GLSL.vec3_splat
                    (Geometry.lambert Part000.lightPosition
                       (Geometry.point
                          (MathGL.Ry (IcoShape.angle (JS.rem 0 5000 * 1)))
                          (MathGL.mkVector3 0 0 0))
                       (Geometry.direction
                          (MathGL.Ry (IcoShape.angle (JS.rem 0 5000 * 1)))
                          (MathGL.mkVector3 0 0 1))))
                 (MathGL.mkVector3 (9 / 10) 1 1))
              1).
Proof.
  destruct oneTriangle_data as [data Hd].
  exists data. eexists. split; [exact Hd |].
  split; [apply p000_frame |].
  destruct X17_icosphere_is_lit_as_in_world_space as (H & _).
  apply (H _ _ _ 1 _ _ (MathGL.mkVector3 0 0 0) (MathGL.mkVector3 0 0 1)
           (p000_reachable_start data Hd) (p000_rotationOf _ _ _ _ _ _ _ _)
           (p000_frame _ _ _ _ _ _ _ _ _)).
  - unfold MathGL.lengthSquared. simpl. lra.
  - unfold Part000.lightPosition, Geometry.point. simpl.
    intros E. injection E as E _ _. lra.
Defined.

(** ** The model and the view volume *)

Section ViewVolumeFacts.
Import MathGL Geometry.

(** The camera of the tetrahedron programs looks down the Z axis from a
    distance of 4: its view matrix is the translation by [(0, 0, -4)]. *)
Lemma tetra_view_translation :
  TetraShape.view = mkMatrix4 1 0 0 0  0 1 0 0  0 0 1 0  0 0 (-4) 1.
Proof.
  unfold TetraShape.view, lookAt, MainTetra.eyePosition, defaultCenter,
    defaultUp.
  cbn [vx vy vz].
  rewrite (ltb_false (Rabs (4 - 0)) EPSILON).
  2:{ rewrite Rabs_right by lra. unfold EPSILON. lra. }
  rewrite andb_false_r. cbv beta iota zeta.
  assert (Hz : normalize (subtract (mkVector3 0 0 4) (mkVector3 0 0 0))
               = mkVector3 0 0 1).
  { unfold normalize, magnitude, lengthSquared, subtract. cbn [vx vy vz].
    replace ((0 - 0) * (0 - 0) + (0 - 0) * (0 - 0) + (4 - 0) * (4 - 0))
      with (4 * 4) by ring.
    rewrite sqrt_square by lra. rewrite eqb_false by lra.
    apply Vector3_eq; cbn [vx vy vz]; field. }
  rewrite Hz.
  assert (Hx : normalize (cross (mkVector3 0 1 0) (mkVector3 0 0 1))
               = mkVector3 1 0 0).
  { rewrite normalize_unit.
    - apply Vector3_eq; simpl; ring.
    - unfold lengthSquared, cross. simpl. ring. }
  rewrite Hx.
  assert (Hy : normalize (cross (mkVector3 0 0 1) (mkVector3 1 0 0))
               = mkVector3 0 1 0).
  { rewrite normalize_unit.
    - apply Vector3_eq; simpl; ring.
    - unfold lengthSquared, cross. simpl. ring. }
  rewrite Hy. cbn [vx vy vz]. f_equal; ring.
Qed.

(** The camera of the icosphere programs, at [(0, 1, 4)]: a point [q] has
    the camera-space coordinates [x.q], [y.q] and [z.q - sqrt 17] for three
    unit vectors [x], [y], [z]. *)
Lemma ico_view_rows :
  exists x y z,
    GLSL.dot x x = 1 /\ GLSL.dot y y = 1 /\ GLSL.dot z z = 1 /\
    forall q, point IcoShape.view q
              = mkVector3 (GLSL.dot x q) (GLSL.dot y q) (GLSL.dot z q - sqrt 17).
Proof.
  pose proof (sqrt_lt_R0 17 ltac:(lra)) as Hs.
  pose proof (sqrt_sqrt 17 ltac:(lra)) as Hss.
  set (s := sqrt 17) in *.
  assert (Hz : normalize (subtract (mkVector3 0 1 4) (mkVector3 0 0 0))
               = mkVector3 0 (1 / s) (4 / s)).
  { unfold normalize, magnitude, lengthSquared, subtract. cbn [vx vy vz].
    replace ((0 - 0) * (0 - 0) + (1 - 0) * (1 - 0) + (4 - 0) * (4 - 0))
      with 17 by ring.
    fold s. rewrite eqb_false by lra.
    apply Vector3_eq; cbn [vx vy vz]; field; lra. }
  assert (Hx : normalize (cross (mkVector3 0 1 0) (mkVector3 0 (1 / s) (4 / s)))
               = mkVector3 1 0 0).
  { replace (cross (mkVector3 0 1 0) (mkVector3 0 (1 / s) (4 / s)))
      with (scale (4 / s) (mkVector3 1 0 0))
      by (apply Vector3_eq; simpl; ring).
    rewrite normalize_scale.
    - apply normalize_unit. unfold lengthSquared. simpl. ring.
    - apply Rdiv_lt_0_compat; lra. }
  assert (Hy : normalize (cross (mkVector3 0 (1 / s) (4 / s)) (mkVector3 1 0 0))
               = mkVector3 0 (4 / s) (- (1 / s))).
  { rewrite normalize_unit.
    - apply Vector3_eq; simpl; ring.
    - unfold lengthSquared, cross. simpl.
      transitivity (17 / (s * s)); [field; lra | rewrite Hss; field]. }
  exists (mkVector3 1 0 0), (mkVector3 0 (4 / s) (- (1 / s))),
    (mkVector3 0 (1 / s) (4 / s)).
  split; [unfold GLSL.dot; simpl; ring |].
  split; [unfold GLSL.dot; simpl;
          transitivity (17 / (s * s)); [field; lra | rewrite Hss; field] |].
  split; [unfold GLSL.dot; simpl;
          transitivity (17 / (s * s)); [field; lra | rewrite Hss; field] |].
  intros q.
  unfold IcoShape.view, lookAt, Part000.eyePosition, defaultCenter, defaultUp.
  cbn [vx vy vz].
  rewrite (ltb_false (Rabs (4 - 0)) EPSILON).
  2:{ rewrite Rabs_right by lra. unfold EPSILON. lra. }
  rewrite andb_false_r. cbv beta iota zeta.
  rewrite Hz, Hx, Hy.
  assert (E : 17 / s = s) by (rewrite <- Hss at 1; field; lra).
  apply Vector3_eq; unfold GLSL.dot; simpl.
  - ring.
  - field. lra.
  - replace (0 * 0 + 1 / s * 1 + 4 / s * 4) with (17 / s) by (field; lra).
    rewrite E. ring.
Qed.

Lemma sqrt_17_bounds : 4 < sqrt 17 < 5.
Proof.
  pose proof (sqrt_lt_R0 17 ltac:(lra)) as Hs.
  pose proof (sqrt_sqrt 17 ltac:(lra)) as Hss.
  split; nra.
Qed.

Lemma modelXYZ_point rx ry rz p :
  point (modelXYZ rx ry rz) p = direction (modelXYZ rx ry rz) p.
Proof.
  unfold modelXYZ.
  rewrite !point_mmul, !direction_mmul by auto using affine_Ry, affine_Rz.
  assert (Z : point (Rz rz) p = direction (Rz rz) p)
    by (apply Vector3_eq; simpl; ring).
  rewrite Z.
  assert (Y : forall q, point (Ry ry) q = direction (Ry ry) q)
    by (intros q; apply Vector3_eq; simpl; ring).
  rewrite Y.
  apply Vector3_eq; simpl; ring.
Qed.

Lemma Ry_point t p : point (Ry t) p = direction (Ry t) p.
Proof. apply Vector3_eq; simpl; ring. Qed.

(** Cauchy and Schwarz, for a vector of length 1 and a vector of length at
    most 1. *)
Lemma unit_dot_within u v :
  GLSL.dot u u = 1 -> GLSL.dot v v <= 1 -> -1 <= GLSL.dot u v <= 1.
Proof.
  intros Hu Hv.
  pose proof (lengthSquared_cross u v) as L.
  pose proof (lengthSquared_nonneg (cross u v)) as N.
  change (lengthSquared u) with (GLSL.dot u u) in L.
  change (lengthSquared v) with (GLSL.dot v v) in L.
  rewrite Hu in L.
  set (d := GLSL.dot u v) in *. clearbody d.
  assert (D : d * d <= 1) by lra.
  split; nra.
Qed.

Lemma coordinates_within q :
  lengthSquared q <= 1 -> -1 <= vx q <= 1 /\ -1 <= vy q <= 1 /\ -1 <= vz q <= 1.
Proof.
  destruct q as [q1 q2 q3]. unfold lengthSquared. simpl. intros H.
  pose proof (Rle_0_sqr q1) as S1. pose proof (Rle_0_sqr q2) as S2.
  pose proof (Rle_0_sqr q3) as S3. unfold Rsqr in *.
  assert (q1 * q1 <= 1) by lra. assert (q2 * q2 <= 1) by lra.
  assert (q3 * q3 <= 1) by lra.
  repeat split; nra.
Qed.

(** With a vertical field of view of [π/3], the factor of the perspective
    matrix is [sqrt 3]. *)
Lemma perspective_factor : 1 / tan (PI / 3 / 2) = sqrt 3.
Proof.
  replace (PI / 3 / 2) with (PI / 6) by field.
  rewrite tan_PI6.
  pose proof (sqrt_lt_R0 3 ltac:(lra)). field. lra.
Qed.

(** A camera-space point within 1 of the view axis and between 3 and 6 in
    front of the camera is within the view volume of a canvas at least as
    wide as high. *)
Lemma perspective_inside aspect x y d :
  1 <= aspect -> -1 <= x <= 1 -> -1 <= y <= 1 -> 3 <= d <= 6 ->
  insideViewVolume
    (GLSL.mul (perspective (PI / 3) aspect defaultNear defaultFar)
       (GLSL.mkVec4 x y (- d) 1)).
Proof.
  intros Ha Hx Hy Hd.
  unfold insideViewVolume, GLSL.mul, perspective, defaultNear, defaultFar.
  cbn [GLSL.cx GLSL.cy GLSL.cz GLSL.cw e0 e1 e2 e3 e4 e5 e6 e7 e8 e9 e10 e11
       e12 e13 e14 e15].
  rewrite perspective_factor.
  pose proof (sqrt_lt_R0 3 ltac:(lra)) as Hs.
  pose proof (sqrt_sqrt 3 ltac:(lra)) as Hss.
  set (s := sqrt 3) in *.
  assert (Hs3 : s <= 3) by nra.
  assert (Hk : 0 < s / aspect <= s).
  { split.
    - apply Rdiv_lt_0_compat; lra.
    - apply Rmult_le_reg_r with aspect; [lra |].
      unfold Rdiv. rewrite Rmult_assoc, Rinv_l by lra. nra. }
  set (k := s / aspect) in *. clearbody k.
  replace (1 / (1 / 10 - 500)) with (- (10 / 4999)) by field.
  split; [lra |].
  split; [split; nra |].
  split; [split; nra |].
  split; lra.
Qed.

Lemma tetra_camera_space rx ry p :
  lengthSquared p <= 1 ->
  exists x y d,
    point (mmul TetraShape.view (modelXYZ rx ry 0)) p = mkVector3 x y (- d) /\
    -1 <= x <= 1 /\ -1 <= y <= 1 /\ 3 <= d <= 5.
Proof.
  intros Hp.
  rewrite point_mmul by apply affine_modelXYZ.
  rewrite modelXYZ_point.
  pose proof (isometry_modelXYZ rx ry 0 p p) as Hi.
  change (GLSL.dot p p) with (lengthSquared p) in Hi.
  change (GLSL.dot ?a ?a) with (lengthSquared a) in Hi.
  rewrite <- Hi in Hp.
  destruct (coordinates_within _ Hp) as (B1 & B2 & B3).
  set (q := direction (modelXYZ rx ry 0) p) in *. clearbody q.
  rewrite tetra_view_translation.
  exists (vx q), (vy q), (4 - vz q).
  split; [apply Vector3_eq; simpl; ring |].
  repeat split; lra.
Qed.

Lemma ico_camera_space r p :
  lengthSquared p <= 1 ->
  exists x y d,
    point (mmul IcoShape.view (Ry r)) p = mkVector3 x y (- d) /\
    -1 <= x <= 1 /\ -1 <= y <= 1 /\ 3 <= d <= 6.
Proof.
  intros Hp.
  rewrite point_mmul by apply affine_Ry.
  rewrite Ry_point.
  pose proof (isometry_Ry r p p) as Hi.
  change (GLSL.dot p p) with (lengthSquared p) in Hi.
  rewrite <- Hi in Hp.
  set (q := direction (Ry r) p) in *. clearbody q.
  destruct ico_view_rows as (x & y & z & Hx & Hy & Hz & Hq).
  rewrite Hq.
  pose proof (unit_dot_within _ _ Hx Hp) as B1.
  pose proof (unit_dot_within _ _ Hy Hp) as B2.
  pose proof (unit_dot_within _ _ Hz Hp) as B3.
  pose proof sqrt_17_bounds as S.
  exists (GLSL.dot x q), (GLSL.dot y q), (sqrt 17 - GLSL.dot z q).
  split; [apply Vector3_eq; simpl; ring |].
  repeat split; lra.
Qed.

End ViewVolumeFacts.

(** X18: the tetrahedron never leaves the view volume.  On a canvas at
    least as wide as high, in every frame of the tetrahedron programs and
    whatever the two angles, every point within distance 1 of the origin
    (the four vertices, and with them the whole solid) gets a clip-space
    position within the view volume, between 3 and 5 in front of the
    camera: nothing of the model is clipped by the near plane (0.1), the
    far plane (500) or the sides, and the division by [w] never divides by
    0. *)
Theorem X18_tetrahedron_stays_in_the_view_volume :
  (forall this w aspect w' position vertexNormal,
     MainTetra.Reachable this w ->
     MainTetra.onRender this aspect w = Some (tt, w') ->
     1 <= aspect ->
     MathGL.lengthSquared position <= 1 ->
     exists app, MainTetraShaders.appBlock w' = Some app /\
       let out := MainTetraShaders.vs app position vertexNormal in
       Geometry.insideViewVolume (GLSL.gl_Position out) /\
       3 <= GLSL.cw (GLSL.gl_Position out) <= 5) /\
  (forall this w aspect w' position normal,
     Part001.Reachable this w ->
     Part001.onRender this aspect w = Some (tt, w') ->
     1 <= aspect ->
     MathGL.lengthSquared position <= 1 ->
     exists app, Part001Shaders.appBlock w' = Some app /\
       let out := Part001Shaders.vs app position normal in
       Geometry.insideViewVolume (GLSL.gl_Position out) /\
       3 <= GLSL.cw (GLSL.gl_Position out) <= 5) /\
  Forall (fun p => MathGL.lengthSquared p <= 1)
    [MainTetra.v1; MainTetra.v2; MainTetra.v3; MainTetra.v4;
     Part001.v1; Part001.v2; Part001.v3; Part001.v4].
Proof.
  split; [| split].
  - intros this w aspect w' p n Hr Hf Hasp Hp.
    destruct (tetra_frame_blocks _ _ _ _ Hr Hf) as (rx & ry & _ & Ha & _).
    eexists. split; [exact Ha |]. cbv zeta.
    unfold MainTetraShaders.vs.
    cbn [GLSL.gl_Position GLSL.vVertex MainTetraShaders.modelViewMatrix
         MainTetraShaders.modelViewProjectionMatrix].
    rewrite mul_mmul, mul_point
      by (apply affine_view_model, affine_lookAt).
    destruct (tetra_camera_space rx ry p Hp) as (x & y & d & -> & Hx & Hy & Hd).
    change (GLSL.vec4_of (MathGL.mkVector3 x y (- d)) 1)
      with (GLSL.mkVec4 x y (- d) 1).
    split; [apply perspective_inside; lra |].
    rewrite perspective_w. cbn [GLSL.cz]. lra.
  - intros this w aspect w' p n Hr Hf Hasp Hp.
    destruct (p001_frame_blocks _ _ _ _ Hr Hf) as (rx & ry & _ & Ha & _).
    eexists. split; [exact Ha |]. cbv zeta.
    unfold Part001Shaders.vs.
    cbn [GLSL.gl_Position GLSL.vVertex Part001Shaders.modelViewMatrix
         Part001Shaders.projectionMatrix].
    rewrite mul_point by (apply affine_view_model, affine_lookAt).
    change Part001Shape.view with TetraShape.view.
    destruct (tetra_camera_space rx ry p Hp) as (x & y & d & -> & Hx & Hy & Hd).
    change (GLSL.vec4_of (MathGL.mkVector3 x y (- d)) 1)
      with (GLSL.mkVec4 x y (- d) 1).
    split; [apply perspective_inside; lra |].
    rewrite perspective_w. cbn [GLSL.cz]. lra.
  - repeat constructor; unfold MathGL.lengthSquared; simpl; lra.
Qed.

(** X18 on the first frame of the first program on a square canvas, at
    the vertex [v4]. *)
Lemma X18_witness :
  exists w' app,
    MainTetra.onRender TetraShape.theApp 1
      (TetraShape.shape MathGL.identity [] (JS.rem 0 2000 * 1)
         (JS.rem 0 (2000 / (7 / 10)) * (7 / 10)) 0 0 ∅ []) = Some (tt, w') /\
    MainTetraShaders.appBlock w' = Some app /\
    Geometry.insideViewVolume
      (GLSL.gl_Position (MainTetraShaders.vs app MainTetra.v4 MainTetra.fn1)).
Proof.
  destruct X18_tetrahedron_stays_in_the_view_volume as (H & _).
  assert (Ha1 : 1 <= 1) by lra.
  assert (Hp : MathGL.lengthSquared MainTetra.v4 <= 1)
    by (unfold MathGL.lengthSquared; simpl; lra).
  destruct (H _ _ 1 _ MainTetra.v4 MainTetra.fn1 tetra_reachable_start
              (tetra_frame _ _ _ _ _ _ _ _ _) Ha1 Hp)
    as (app & Ha & Hd & _).
  eexists. exists app. split; [apply tetra_frame |]. split; [exact Ha |].
  exact Hd.
Defined.

(** X19: an icosphere of radius at most 1 never leaves the view volume.
    On a canvas at least as wide as high, in every frame of the icosphere
    programs and whatever the angle, a position within distance 1 of the
    origin gets a clip-space position within the view volume, between 3
    and 6 in front of the camera (the camera is at distance [sqrt 17] of
    the origin). *)
Theorem X19_unit_icosphere_stays_in_the_view_volume :
  (forall mesh this w aspect w' position normal,
     Part000.Reachable mesh this w ->
     Part000.onRender this aspect w = Some (tt, w') ->
     1 <= aspect ->
     MathGL.lengthSquared position <= 1 ->
     exists app, IcoShaders.appBlock w' = Some app /\
       let out := IcoShaders.vs app position normal in
       Geometry.insideViewVolume (GLSL.gl_Position out) /\
       3 <= GLSL.cw (GLSL.gl_Position out) <= 6) /\
  (forall mesh this w aspect w' position normal,
     MainIco.Reachable mesh this w ->
     MainIco.onRender this aspect w = Some (tt, w') ->
     1 <= aspect ->
     MathGL.lengthSquared position <= 1 ->
     exists app, IcoShaders.appBlock w' = Some app /\
       let out := IcoShaders.vs app position normal in
       Geometry.insideViewVolume (GLSL.gl_Position out) /\
       3 <= GLSL.cw (GLSL.gl_Position out) <= 6).
Proof.
  split.
  - intros mesh this w aspect w' p n Hr Hf Hasp Hp.
    destruct (p000_frame_blocks _ _ _ _ _ Hr Hf) as (r & _ & Ha & _).
    eexists. split; [exact Ha |]. cbv zeta.
    unfold IcoShaders.vs.
    cbn [GLSL.gl_Position GLSL.vVertex IcoShaders.modelViewMatrix
         IcoShaders.projectionMatrix].
    rewrite mul_point by (apply affine_view_Ry, affine_lookAt).
    destruct (ico_camera_space r p Hp) as (x & y & d & -> & Hx & Hy & Hd).
    change (GLSL.vec4_of (MathGL.mkVector3 x y (- d)) 1)
      with (GLSL.mkVec4 x y (- d) 1).
    split; [apply perspective_inside; lra |].
    rewrite perspective_w. cbn [GLSL.cz]. lra.
  - intros mesh this w aspect w' p n Hr Hf Hasp Hp.
    destruct (ico_frame_blocks _ _ _ _ _ Hr Hf) as (r & _ & Ha & _).
    eexists. split; [exact Ha |]. cbv zeta.
    unfold IcoShaders.vs.
    cbn [GLSL.gl_Position GLSL.vVertex IcoShaders.modelViewMatrix
         IcoShaders.projectionMatrix].
    rewrite mul_point by (apply affine_view_Ry, affine_lookAt).
    destruct (ico_camera_space r p Hp) as (x & y & d & -> & Hx & Hy & Hd).
    change (GLSL.vec4_of (MathGL.mkVector3 x y (- d)) 1)
      with (GLSL.mkVec4 x y (- d) 1).
    split; [apply perspective_inside; lra |].
    rewrite perspective_w. cbn [GLSL.cz]. lra.
Qed.

(** X19 on the first frame of unnamed/part_000 with the one-triangle mesh
    on a square canvas, at its second vertex [(1, 0, 0)]. *)
Lemma X19_witness :
  exists data w' app,
    Part000.vertexData IcoShape.oneTriangle = Some data /\
    Part000.onRender (IcoShape.app000 IcoShape.oneTriangle) 1
      (IcoShape.shape data MathGL.identity [] (JS.rem 0 5000 * 1) 0 ∅ [])
    = Some (tt, w') /\
    IcoShaders.appBlock w' = Some app /\
    Geometry.insideViewVolume
      (GLSL.gl_Position
         (IcoShaders.vs app (MathGL.mkVector3 1 0 0) (MathGL.mkVector3 0 0 1))).
Proof.
  destruct oneTriangle_data as [data Hd].
  destruct X19_unit_icosphere_stays_in_the_view_volume as (H & _).
  assert (Ha1 : 1 <= 1) by lra.
  assert (Hp : MathGL.lengthSquared (MathGL.mkVector3 1 0 0) <= 1)
    by (unfold MathGL.lengthSquared; simpl; lra).
  destruct (H _ _ _ 1 _ (MathGL.mkVector3 1 0 0) (MathGL.mkVector3 0 0 1)
              (p000_reachable_start data Hd) (p000_frame _ _ _ _ _ _ _ _ _)
              Ha1 Hp)
    as (app & Ha & Hv & _).
  exists data. eexists. exists app.
  split; [exact Hd |]. split; [apply p000_frame |]. split; [exact Ha |].
  exact Hv.
Defined.

(** ** The model-view matrix of a frame is a rigid motion *)

Section RigidFacts.
Import MathGL Geometry.

Lemma rigid_outputs MV p q n m :
  isometry MV ->
  GLSL.dot (direction MV n) (direction MV m) = GLSL.dot n m /\
  lengthSquared (subtract (point MV p) (point MV q))
  = lengthSquared (subtract p q).
Proof.
  intros H. split; [apply H |].
  rewrite point_difference.
  change (lengthSquared ?a) with (GLSL.dot a a). apply H.
Qed.

Lemma isometry_view_model V rx ry rz :
  isometry V -> isometry (mmul V (modelXYZ rx ry rz)).
Proof.
  intros H.
  apply isometry_mmul;
    [exact H | apply isometry_modelXYZ | apply affine_modelXYZ].
Qed.

Lemma isometry_view_Ry V t : isometry V -> isometry (mmul V (Ry t)).
Proof.
  intros H. apply isometry_mmul; [exact H | apply isometry_Ry | apply affine_Ry].
Qed.

End RigidFacts.

(** X20: in every frame the model-view matrix is a rigid motion, so the
    vertex shaders may transform normals with it: the dot product of two
    normals (their lengths and the angle between them) and the distance of
    two positions are the same in camera space, in [vNormal] and
    [vVertex], as in the buffers. *)
Theorem X20_model_view_keeps_lengths_and_angles :
  (forall this w aspect w',
     MainTetra.Reachable this w ->
     MainTetra.onRender this aspect w = Some (tt, w') ->
     exists app, MainTetraShaders.appBlock w' = Some app /\
       forall p q n m,
         let out1 := MainTetraShaders.vs app p n in
         let out2 := MainTetraShaders.vs app q m in
         GLSL.dot (GLSL.vNormal out1) (GLSL.vNormal out2) = GLSL.dot n m /\
         MathGL.lengthSquared
           (MathGL.subtract (GLSL.vVertex out1) (GLSL.vVertex out2))
         = MathGL.lengthSquared (MathGL.subtract p q)) /\
  (forall this w aspect w',
     Part001.Reachable this w ->
     Part001.onRender this aspect w = Some (tt, w') ->
     exists app, Part001Shaders.appBlock w' = Some app /\
       forall p q n m,
         let out1 := Part001Shaders.vs app p n in
         let out2 := Part001Shaders.vs app q m in
         GLSL.dot (GLSL.vNormal out1) (GLSL.vNormal out2) = GLSL.dot n m /\
         MathGL.lengthSquared
           (MathGL.subtract (GLSL.vVertex out1) (GLSL.vVertex out2))
         = MathGL.lengthSquared (MathGL.subtract p q)) /\
  (forall mesh this w aspect w',
     Part000.Reachable mesh this w ->
     Part000.onRender this aspect w = Some (tt, w') ->
     exists app, IcoShaders.appBlock w' = Some app /\
       forall p q n m,
         let out1 := IcoShaders.vs app p n in
         let out2 := IcoShaders.vs app q m in
         GLSL.dot (GLSL.vNormal out1) (GLSL.vNormal out2) = GLSL.dot n m /\
         MathGL.lengthSquared
           (MathGL.subtract (GLSL.vVertex out1) (GLSL.vVertex out2))
         = MathGL.lengthSquared (MathGL.subtract p q)) /\
  (forall mesh this w aspect w',
     MainIco.Reachable mesh this w ->
     MainIco.onRender this aspect w = Some (tt, w') ->
     exists app, IcoShaders.appBlock w' = Some app /\
       forall p q n m,
         let out1 := IcoShaders.vs app p n in
         let out2 := IcoShaders.vs app q m in
         GLSL.dot (GLSL.vNormal out1) (GLSL.vNormal out2) = GLSL.dot n m /\
         MathGL.lengthSquared
           (MathGL.subtract (GLSL.vVertex out1) (GLSL.vVertex out2))
         = MathGL.lengthSquared (MathGL.subtract p q)).
Proof.
  split; [| split; [| split]].
  - intros this w aspect w' Hr Hf.
    destruct (tetra_frame_blocks _ _ _ _ Hr Hf) as (rx & ry & _ & Ha & _).
    eexists. split; [exact Ha |]. intros p q n m.
    apply rigid_outputs, isometry_view_model, tetra_view_isometry.
  - intros this w aspect w' Hr Hf.
    destruct (p001_frame_blocks _ _ _ _ Hr Hf) as (rx & ry & _ & Ha & _).
    eexists. split; [exact Ha |]. intros p q n m.
    apply rigid_outputs, isometry_view_model, p001_view_isometry.
  - intros mesh this w aspect w' Hr Hf.
    destruct (p000_frame_blocks _ _ _ _ _ Hr Hf) as (r & _ & Ha & _).
    eexists. split; [exact Ha |]. intros p q n m.
    apply rigid_outputs, isometry_view_Ry, ico_view_isometry.
  - intros mesh this w aspect w' Hr Hf.
    destruct (ico_frame_blocks _ _ _ _ _ Hr Hf) as (r & _ & Ha & _).
    eexists. split; [exact Ha |]. intros p q n m.
    apply rigid_outputs, isometry_view_Ry, ico_view_isometry.
Qed.

(** X20 on the first frame of the first program: the normals of the first
    two faces stay at the angle they have in the buffer. *)
Lemma X20_witness :
  exists w' app,
    MainTetra.onRender TetraShape.theApp 1
      (TetraShape.shape MathGL.identity [] (JS.rem 0 2000 * 1)
         (JS.rem 0 (2000 / (7 / 10)) * (7 / 10)) 0 0 ∅ []) = Some (tt, w') /\
    MainTetraShaders.appBlock w' = Some app /\
    GLSL.dot
      (GLSL.vNormal (MainTetraShaders.vs app MainTetra.v1 MainTetra.fn1))
      (GLSL.vNormal (MainTetraShaders.vs app MainTetra.v1 MainTetra.fn2))
    = GLSL.dot MainTetra.fn1 MainTetra.fn2.
Proof.
  destruct X20_model_view_keeps_lengths_and_angles as (H & _).
  destruct (H _ _ 1 _ tetra_reachable_start (tetra_frame _ _ _ _ _ _ _ _ _))
    as (app & Ha & Hv).
  eexists. exists app. split; [apply tetra_frame |]. split; [exact Ha |].
  apply (Hv MainTetra.v1 MainTetra.v1 MainTetra.fn1 MainTetra.fn2).
Defined.

(** ** The slip in [rotationY] and the keyframes the programs ship *)

(** X21: with the keyframes the tetrahedron programs ship, the slip in
    [rotationY] (it subtracts the X track's start value) changes no angle:
    in every world of a run of either program, both angles [onRender]
    computes are the interpolation [start + factor * (end - start)] on the
    accessors of their own track, because the start value of a track of
    two keyframes is its first value, 0, at every time. *)
Theorem X21_shipped_keyframes_hide_the_slip :
  (forall this w, MainTetra.Reachable this w ->
     exists kx ky,
       Luma.tracks w !! MainTetra.keyFramesX this = Some kx /\
       Luma.tracks w !! MainTetra.keyFramesY this = Some ky /\
       Luma.getStartData kx = 0 /\ Luma.getStartData ky = 0 /\
       MainTetra.rotations this w
       = Some ((Observe.interpolated kx, Observe.interpolated ky), w)) /\
  (forall this w, Part001.Reachable this w ->
     exists kx ky,
       Luma.tracks w !! Part001.keyFramesX this = Some kx /\
       Luma.tracks w !! Part001.keyFramesY this = Some ky /\
       Luma.getStartData kx = 0 /\ Luma.getStartData ky = 0 /\
       Part001.rotations this w
       = Some ((Observe.interpolated kx, Observe.interpolated ky), w)).
Proof.
  split; intros this w Hr.
  - destruct (tetra_reachable_inv _ _ Hr)
      as [-> (P & rest & tX & tY & eX & eY & au & cs & -> & Hk)].
    exists (TetraShape.trackAt tX), (TetraShape.trackAt tY).
    do 4 (split; [reflexivity |]). apply tetra_rotations.
  - destruct (p001_reachable_inv _ _ Hr)
      as [-> (P & rest & tX & tY & eX & eY & au & cs & -> & Hk)].
    exists (Part001Shape.trackAt tX), (Part001Shape.trackAt tY).
    do 4 (split; [reflexivity |]). apply p001_rotations.
Qed.

(** X21 on the first program right after its constructor. *)
Lemma X21_witness :
  exists kx ky,
    MainTetra.rotations TetraShape.theApp
      (TetraShape.shape MathGL.identity [] (JS.rem 0 2000 * 1)
         (JS.rem 0 (2000 / (7 / 10)) * (7 / 10)) 0 0 ∅ [])
    = Some ((Observe.interpolated kx, Observe.interpolated ky),
            TetraShape.shape MathGL.identity [] (JS.rem 0 2000 * 1)
              (JS.rem 0 (2000 / (7 / 10)) * (7 / 10)) 0 0 ∅ []).
Proof.
  destruct X21_shipped_keyframes_hide_the_slip as (H & _).
  destruct (H _ _ tetra_reachable_start) as (kx & ky & _ & _ & _ & _ & Hrot).
  exists kx, ky. exact Hrot.
Defined.

(** ** The programs compared *)

(** X22: the two tetrahedron programs draw the same picture.  The separate
    buffers of the first program of src/main.ts and the interleaved buffer
    of unnamed/part_001 give every vertex the same position and the same
    normal; and from a world of each in which the tracks are the same, a
    frame of the same aspect ratio leaves the same light position for the
    two fragment shaders and gives every position and normal the same
    clip-space position and the same camera-space position and normal,
    hence the same colour (for a normal that is not null and a light that
    is not at the vertex), although the first program uploads the product
    of the projection and model-view matrices and the second the two
    matrices. *)
Theorem X22_both_tetrahedron_programs_draw_the_same :
  (forall i, (i < 12)%nat ->
     Observe.fetch MainTetra.positionData 12 0 i
       = Observe.fetch Part001.vertexData 24 0 i /\
     Observe.fetch MainTetra.vertexNormalData 12 0 i
       = Observe.fetch Part001.vertexData 24 12 i) /\
  (forall this1 w1 this2 w2 aspect w1' w2',
     MainTetra.Reachable this1 w1 -> Part001.Reachable this2 w2 ->
     Luma.tracks w1 = Luma.tracks w2 ->
     MainTetra.onRender this1 aspect w1 = Some (tt, w1') ->
     Part001.onRender this2 aspect w2 = Some (tt, w2') ->
     exists app1 app2 light,
       MainTetraShaders.appBlock w1' = Some app1 /\
       Part001Shaders.appBlock w2' = Some app2 /\
       Luma.lightingUniforms w1' !! "lightPosition" = Some light /\
       Luma.lightingUniforms w2' !! "lightPosition" = Some light /\
       forall position normal,
         let out := MainTetraShaders.vs app1 position normal in
         out = Part001Shaders.vs app2 position normal /\
         (MathGL.lengthSquared (GLSL.vNormal out) <> 0 ->
          MathGL.lengthSquared (MathGL.subtract light (GLSL.vVertex out)) <> 0 ->
          MainTetraShaders.shade w1' position normal
          = Part001Shaders.shade w2' position normal)).
Proof.
  split.
  - intros i Hi.
    rewrite tetra_position_fetch, tetra_normal_fetch by exact Hi.
    rewrite p001_position_fetch, p001_normal_fetch by exact Hi.
    split; reflexivity.
  - intros this1 w1 this2 w2 aspect w1' w2' Hr1 Hr2 Ht Hf1 Hf2.
    destruct (tetra_frame_blocks _ _ _ _ Hr1 Hf1)
      as (rx & ry & Hrot1 & Ha1 & Hl1).
    destruct (p001_frame_blocks _ _ _ _ Hr2 Hf2)
      as (rx' & ry' & Hrot2 & Ha2 & Hl2).
    destruct (tetra_reachable_inv _ _ Hr1)
      as [-> (P & rest & tX & tY & eX & eY & au & cs & -> & Hk)].
    destruct (p001_reachable_inv _ _ Hr2)
      as [-> (P' & rest' & tX' & tY' & eX' & eY' & au' & cs' & -> & Hk')].
    rewrite tetra_rotations in Hrot1. rewrite p001_rotations in Hrot2.
    injection Hrot1 as <- <-. injection Hrot2 as <- <-.
    simpl in Ht. injection Ht as <- <-.
    eexists. eexists. exists TetraShape.light.
    split; [exact Ha1 |]. split; [exact Ha2 |].
    split.
    { rewrite tetra_frame in Hf1. inversion Hf1; subst.
      apply lookup_singleton_eq. }
    split.
    { rewrite p001_frame in Hf2. inversion Hf2; subst.
      apply lookup_singleton_eq. }
    intros p n.
    assert (V : MainTetraShaders.vs
                  (MainTetraShaders.mkAppBlock
                     (MathGL.mmul
                        (MathGL.perspective (PI / 3) aspect MathGL.defaultNear
                           MathGL.defaultFar)
                        (MathGL.mmul TetraShape.view
                           (Geometry.modelXYZ (TetraShape.angleX tX)
                              (TetraShape.angleY tX tY) 0)))
                     (MathGL.mmul TetraShape.view
                        (Geometry.modelXYZ (TetraShape.angleX tX)
                           (TetraShape.angleY tX tY) 0)))
                  p n
                = Part001Shaders.vs
                    (Part001Shaders.mkAppBlock
                       (MathGL.mmul Part001Shape.view
                          (Geometry.modelXYZ (Part001Shape.angleX tX)
                             (Part001Shape.angleY tX tY) 0))
                       (MathGL.perspective (PI / 3) aspect MathGL.defaultNear
                          MathGL.defaultFar))
                    p n).
    { unfold MainTetraShaders.vs, Part001Shaders.vs.
      cbn [MainTetraShaders.modelViewMatrix
           MainTetraShaders.modelViewProjectionMatrix
           Part001Shaders.modelViewMatrix Part001Shaders.projectionMatrix].
      rewrite (mul_mmul (MathGL.perspective (PI / 3) aspect MathGL.defaultNear
                           MathGL.defaultFar)).
      reflexivity. }
    cbv zeta. split; [exact V |]. intros _ _.
    unfold MainTetraShaders.shade, Part001Shaders.shade.
    rewrite Ha1, Hl1, Ha2, Hl2. cbn [mbind option_bind].
    rewrite V. reflexivity.
Qed.

(** X22 on the first frame of both programs, at the vertex [v2]. *)
Lemma X22_witness :
  exists w1' w2' app1 app2,
    MainTetra.onRender TetraShape.theApp 1
      (TetraShape.shape MathGL.identity [] (JS.rem 0 2000 * 1)
         (JS.rem 0 (2000 / (7 / 10)) * (7 / 10)) 0 0 ∅ []) = Some (tt, w1') /\
    Part001.onRender Part001Shape.theApp 1
      (Part001Shape.shape MathGL.identity [] (JS.rem 0 2000 * 1)
         (JS.rem 0 (2000 / (7 / 10)) * (7 / 10)) 0 0 ∅ []) = Some (tt, w2') /\
    MainTetraShaders.appBlock w1' = Some app1 /\
    Part001Shaders.appBlock w2' = Some app2 /\
    MainTetraShaders.vs app1 MainTetra.v2 MainTetra.fn1
    = Part001Shaders.vs app2 MainTetra.v2 MainTetra.fn1.
Proof.
  destruct X22_both_tetrahedron_programs_draw_the_same as (_ & H).
  destruct (H _ _ _ _ 1 _ _ tetra_reachable_start p001_reachable_start
              eq_refl (tetra_frame _ _ _ _ _ _ _ _ _)
              (p001_frame _ _ _ _ _ _ _ _ _))
    as (app1 & app2 & light & Ha1 & Ha2 & _ & _ & Hv).
  eexists. eexists. exists app1, app2.
  split; [apply tetra_frame |]. split; [apply p001_frame |].
  split; [exact Ha1 |]. split; [exact Ha2 |].
  apply (Hv MainTetra.v2 MainTetra.fn1).
Defined.

(** X23: the two icosphere programs go through the same worlds.  For the
    same mesh, the constructor of unnamed/part_000 and the constructor of
    the second program of src/main.ts followed by its [onInitialize] leave
    the same matrices, tracks, timeline, uniforms and buffer; a frame of
    either program then changes the world in the same way, so that a world
    is reached by a run of one exactly when it is reached by a run of the
    other, with the same model to draw. *)
Theorem X23_both_icosphere_programs_reach_the_same_worlds :
  forall mesh w,
    (exists this, Part000.Reachable mesh this w /\
                  Part000.modelNode this
                  = Part000.mkModelNode (IcoShape.theModel mesh) [0%nat])
    <->
    (exists this, MainIco.Reachable mesh this w /\
                  MainIco.modelNode this
                  = Some (MainIco.mkModelNode (IcoShape.theModel mesh) [0%nat])).
Proof.
  intros mesh w. split.
  - intros (this & Hr & _). exists (IcoShape.appIco mesh).
    split; [| reflexivity].
    induction Hr as [this w Hc | this w d w' Hr IH Ht | this w a w' Hr IH Hf].
    + destruct (p000_construct_data _ _ _ Hc) as [data Hd].
      rewrite (p000_construct _ _ Hd) in Hc. inversion Hc; subst.
      eapply MainIco.reach_initialize; [apply ico_construct |].
      apply ico_initialize. exact Hd.
    + eapply MainIco.reach_tick; [exact IH | exact Ht].
    + destruct (p000_reachable_inv _ _ _ Hr)
        as [-> (data & P & rest & t & e & au & cs & Hd & -> & Hk)].
      rewrite p000_frame in Hf.
      eapply MainIco.reach_frame; [exact IH |].
      rewrite ico_frame. exact Hf.
  - intros (this & Hr & _). exists (IcoShape.app000 mesh).
    split; [| reflexivity].
    induction Hr as [this0 w0 this w Hc Hi | this w d w' Hr IH Ht
                    | this w a w' Hr IH Hf].
    + rewrite ico_construct in Hc. inversion Hc; subst.
      destruct (ico_initialize_data _ _ _ _ _ Hi) as [data Hd].
      rewrite (ico_initialize _ _ _ _ _ _ _ _ Hd) in Hi. inversion Hi; subst.
      apply Part000.reach_construct. apply p000_construct. exact Hd.
    + eapply Part000.reach_tick; [exact IH | exact Ht].
    + destruct (ico_reachable_inv _ _ _ Hr)
        as [-> (data & P & rest & t & e & au & cs & Hd & -> & Hk)].
      rewrite ico_frame in Hf.
      eapply Part000.reach_frame; [exact IH |].
      rewrite p000_frame. exact Hf.
Qed.
